(** * OwL Browser: the chrome client of the bridge (assets/ui.js)

    The browser chrome is a script running in a WebKit view.  It keeps a
    [state] object, a handful of DOM elements, receives state messages
    through [window.__owl_receive] and emits commands through [send].

    The script is embedded as a state-and-exception monad over a [World]
    that holds the JavaScript heap of tab-node objects, the [state] and
    [menuState] objects, the DOM elements the script touches, the console
    and the bridge.  Tab nodes are mutable heap objects referenced by
    address, so that sharing between [state.lastTabs] and [state.tabMap]
    is visible in the model.  The functions that recurse over the tree
    take fuel, one unit for each level they descend; the properties show
    that a fuel above the height of the tree is enough.  Tab ids are
    integers and texts are strings of characters.  The built-ins
    [toLowerCase] and [trim] are parameters, known by what they do to
    ASCII texts; the theorems hold of whatever they do to the others. *)

From Stdlib Require Import String Ascii ZArith List Bool Lia.
From stdpp Require Import base option list gmap strings.

Set Warnings "-register-all".

Open Scope string_scope.
Open Scope Z_scope.
Open Scope list_scope.

(** ** JavaScript values that travel as payloads *)

(** The payload of an outbound command is an arbitrary value.  [VBigInt]
    stands for the values [JSON.stringify] refuses. *)
Inductive Value : Type :=
| VNull
| VBool (b : bool)
| VNum (n : Z)
| VStr (s : string)
| VArr (items : list Value)
| VObj (fields : list (string * Value))
| VBigInt (n : Z).

Fixpoint serializable (v : Value) : bool :=
  match v with
  | VNull | VBool _ | VNum _ | VStr _ => true
  | VArr items => forallb serializable items
  | VObj fields => forallb (fun kv => serializable (snd kv)) fields
  | VBigInt _ => false
  end.

(** A JSON text is represented by the value it denotes. *)
Record JsonText : Type := Text { denotes : Value }.

Inductive Error : Type :=
| TypeError (msg : string)
| URIError (msg : string)
| HostError (msg : string).

Inductive LogEntry : Type :=
| Warn (msg : string) (arg : Value)
| LogError (msg : string) (e : Error).

(** Own fields of an object value, in order. *)
Definition fields_of (v : Value) : list string :=
  match v with
  | VObj fields => map fst fields
  | _ => []
  end.

Fixpoint assoc (k : string) (fields : list (string * Value)) : option Value :=
  match fields with
  | [] => None
  | (k', v) :: rest => if String.eqb k k' then Some v else assoc k rest
  end.

Definition field (k : string) (v : Value) : option Value :=
  match v with
  | VObj fields => assoc k fields
  | _ => None
  end.

(** ** Tab nodes *)

Definition TabId := Z.
Definition loc := nat.

(** The fields of [TabNode], over the representation [C] of the children
    array.  A missing [title] or [url] is the empty string and a missing
    or empty [children] is the empty array: the script reads them only
    through [?.] and [||], which treat both alike. *)
Module Node.
Record t (C : Type) : Type := Make {
  id : TabId;
  title : string;
  url : string;
  favicon_uri : option string;
  is_group : bool;
  is_pinned : bool;
  is_muted : bool;
  is_suspended : bool;
  is_active : bool;
  is_expanded : bool;
  children : C;
}.
Arguments Make {C}.
Arguments id {C}.
Arguments title {C}.
Arguments url {C}.
Arguments favicon_uri {C}.
Arguments is_group {C}.
Arguments is_pinned {C}.
Arguments is_muted {C}.
Arguments is_suspended {C}.
Arguments is_active {C}.
Arguments is_expanded {C}.
Arguments children {C}.

Definition set_favicon_uri {C} (f : option string) (n : t C) : t C :=
  Make (id n) (title n) (url n) f (is_group n) (is_pinned n) (is_muted n)
       (is_suspended n) (is_active n) (is_expanded n) (children n).

Definition set_is_expanded {C} (b : bool) (n : t C) : t C :=
  Make (id n) (title n) (url n) (favicon_uri n) (is_group n) (is_pinned n) (is_muted n)
       (is_suspended n) (is_active n) b (children n).

Definition with_children {C D} (c : D) (n : t C) : t D :=
  Make (id n) (title n) (url n) (favicon_uri n) (is_group n) (is_pinned n) (is_muted n)
       (is_suspended n) (is_active n) (is_expanded n) c.
End Node.

(** A tab node as it lives in the heap: its children array holds
    references. *)
Abbreviation NodeObj := (Node.t (list loc)).

(** A tab node as a value, the way a snapshot spells it. *)
Inductive Tree : Type := T (node : Node.t (list Tree)).

Definition root (t : Tree) : Node.t (list Tree) := match t with T n => n end.
Definition kids (t : Tree) : list Tree := Node.children (root t).

(** ** DOM elements *)

(** One [div.tab] row as [buildRow] leaves it. *)
Record Row : Type := {
  data_id : TabId;
  depth_var : nat;
  class_is_group : bool;
  data_hasChildren : bool;
  data_pinned : bool;
  data_muted : bool;
  data_suspended : bool;
  aria_selected : bool;
  tabIndex : Z;
  aria_expanded : option bool;
  data_fullTitle : string;
  title_attr : option string;
  img_src : option string;
  data_favicon : string;
  title_text : string;
}.

Record NavButton : Type := {
  nb_textContent : string;
  nb_ariaLabel : string;
  nb_disabled : bool;
}.

Record ReloadButton : Type := {
  rb_textContent : string;
  rb_mode : string;
  rb_ariaLabel : string;
}.

Record TabMenu : Type := {
  tm_is_open : bool;
  tm_aria_hidden : bool;
  tm_pin : option string;
  tm_mute : option string;
  tm_unload : option string;
}.

(** [document.getElementById] may return [null]: every element is
    optional.  Elements that only carry listeners are presence flags. *)
Record Elements : Type := {
  tabs : option (list Row);
  address : option string;
  go : bool;
  newTab : bool;
  home : bool;
  navBack : option NavButton;
  navForward : option NavButton;
  navReload : option ReloadButton;
  sidebarToggle : option string;
  brandIcon : option (option string);
  tabSearch : bool;
  paletteBackdrop : bool;
  paletteInput : option string;
  paletteResults : option (list (string * bool));
  tabMenu : option TabMenu;
}.

Record Body : Type := {
  is_loading_class : bool;
  sidebar_collapsed_class : bool;
  palette_open_class : bool;
}.

(** ** The script's own objects *)

Record State : Type := {
  flatTabs : list TabId;
  activeTabId : option TabId;
  sidebarCollapsed : bool;
  paletteIndex : Z;
  peekEnabled : bool;
  peeking : bool;
  defaultFavicon : option string;
  tabMap : gmap Z loc;
  tabQuery : string;
  lastTabs : list loc;
  lastActive : option TabId;
}.

Record MenuState : Type := {
  menu_open : bool;
  menu_tabId : option TabId;
}.

(** [window.webkit?.messageHandlers?.owl]: absent, or a handle whose
    [postMessage] may refuse a text by throwing. *)
Definition Bridge := JsonText -> option Error.

Record World : Type := {
  heap : list NodeObj;
  state : State;
  menuState : MenuState;
  elements : Elements;
  body : Body;
  console : list LogEntry;
  bridge : option Bridge;
  outbox : list JsonText;
}.

(** ** The monad of script fragments *)

Inductive outcome (A : Type) : Type :=
| Ret (a : A)
| Throw (e : Error)
| OutOfFuel.
Arguments Ret {A} a.
Arguments Throw {A} e.
Arguments OutOfFuel {A}.

Definition M (A : Type) : Type := World -> outcome A * World.

Definition ret {A} (a : A) : M A := fun w => (Ret a, w).

Definition bind {A B} (m : M A) (k : A -> M B) : M B :=
  fun w =>
    match m w with
    | (Ret a, w') => k a w'
    | (Throw e, w') => (Throw e, w')
    | (OutOfFuel, w') => (OutOfFuel, w')
    end.

Definition throw {A} (e : Error) : M A := fun w => (Throw e, w).
Definition out_of_fuel {A} : M A := fun w => (OutOfFuel, w).

(** [try { m } catch (error) { h error }] *)
Definition try_catch {A} (m : M A) (h : Error -> M A) : M A :=
  fun w =>
    match m w with
    | (Throw e, w') => h e w'
    | r => r
    end.

Notation "'let*' x := c 'in' k" := (bind c (fun x => k))
  (at level 10, x name, c at level 100, k at level 200).
Notation "c ;; k" := (bind c (fun _ => k))
  (at level 100, k at level 200, right associativity).

Definition gets {A} (f : World -> A) : M A := fun w => (Ret (f w), w).
Definition modify (f : World -> World) : M unit := fun w => (Ret tt, f w).

Fixpoint for_of {A} (items : list A) (body : A -> M unit) : M unit :=
  match items with
  | [] => ret tt
  | x :: rest => body x ;; for_of rest body
  end.

Definition when (b : bool) (m : M unit) : M unit := if b then m else ret tt.

(** Field updates of the world. *)
Definition set_heap (h : list NodeObj) (w : World) : World :=
  Build_World h (state w) (menuState w) (elements w) (body w) (console w) (bridge w) (outbox w).
Definition set_state (s : State) (w : World) : World :=
  Build_World (heap w) s (menuState w) (elements w) (body w) (console w) (bridge w) (outbox w).
Definition set_menuState (m : MenuState) (w : World) : World :=
  Build_World (heap w) (state w) m (elements w) (body w) (console w) (bridge w) (outbox w).
Definition set_elements (e : Elements) (w : World) : World :=
  Build_World (heap w) (state w) (menuState w) e (body w) (console w) (bridge w) (outbox w).
Definition set_body (b : Body) (w : World) : World :=
  Build_World (heap w) (state w) (menuState w) (elements w) b (console w) (bridge w) (outbox w).
Definition set_console (c : list LogEntry) (w : World) : World :=
  Build_World (heap w) (state w) (menuState w) (elements w) (body w) c (bridge w) (outbox w).
Definition set_outbox (o : list JsonText) (w : World) : World :=
  Build_World (heap w) (state w) (menuState w) (elements w) (body w) (console w) (bridge w) o.

Definition console_warn (msg : string) (arg : Value) : M unit :=
  modify (fun w => set_console (console w ++ [Warn msg arg]) w).
Definition console_error (msg : string) (e : Error) : M unit :=
  modify (fun w => set_console (console w ++ [LogError msg e]) w).

(** ** send *)

Definition JSON_stringify (v : Value) : M JsonText :=
  if serializable v then ret (Text v)
  else throw (TypeError "Do not know how to serialize a BigInt").

Definition postMessage (b : Bridge) (msg : JsonText) : M unit :=
  match b msg with
  | Some e => throw e
  | None => modify (fun w => set_outbox (outbox w ++ [msg]) w)
  end.

(** The object literal [{ type, payload }]. *)
Definition envelope (type : string) (payload : Value) : Value :=
  VObj [("type", VStr type); ("payload", payload)].

(** [send(type, payload = {})]: an omitted payload is [None]. *)
Definition send (type : string) (payload : option Value) : M unit :=
  let payload := default (VObj []) payload in
  let* b := gets bridge in
  match b with
  | None =>
      console_warn ("Bridge not available. Attempted to send: " +:+ type) payload
  | Some b =>
      try_catch
        (let* msg := JSON_stringify (envelope type payload) in postMessage b msg)
        (fun error => console_error ("Failed to send message: " +:+ type) error)
  end.

(** ** Strings *)

(** Of the built-ins of strings the script calls [toLowerCase], [trim]
    and [includes].  The first two go by the tables of Unicode and are
    parameters of the development.  What is known of them is what they
    do to an ASCII text: [toLowerCase] turns the letters [A] to [Z] into
    [a] to [z], and [trim] strips the spaces, the tabs and the line
    breaks (the characters 9 to 13 and 32) at both ends. *)

Definition lower_char (c : ascii) : ascii :=
  let n := nat_of_ascii c in
  if ((65 <=? n) && (n <=? 90))%nat then ascii_of_nat (n + 32) else c.

Fixpoint ascii_toLowerCase (s : string) : string :=
  match s with
  | EmptyString => EmptyString
  | String c rest => String (lower_char c) (ascii_toLowerCase rest)
  end.

Definition is_space (c : ascii) : bool :=
  let n := nat_of_ascii c in
  ((n =? 32) || ((9 <=? n) && (n <=? 13)))%nat.

Fixpoint trim_start (s : string) : string :=
  match s with
  | EmptyString => EmptyString
  | String c rest => if is_space c then trim_start rest else s
  end.

Fixpoint trim_end (s : string) : string :=
  match s with
  | EmptyString => EmptyString
  | String c rest =>
      match trim_end rest with
      | EmptyString => if is_space c then EmptyString else String c EmptyString
      | rest' => String c rest'
      end
  end.

Definition ascii_trim (s : string) : string := trim_end (trim_start s).

(** A text of ASCII characters only. *)
Fixpoint is_ascii (s : string) : bool :=
  match s with
  | EmptyString => true
  | String c rest => (nat_of_ascii c <? 128)%nat && is_ascii rest
  end.

(** [String.prototype.toLowerCase] and [String.prototype.trim]. *)
Class Builtins : Type := {
  toLowerCase : string -> string;
  trim : string -> string;
  toLowerCase_ascii : forall s, is_ascii s = true -> toLowerCase s = ascii_toLowerCase s;
  trim_ascii : forall s, is_ascii s = true -> trim s = ascii_trim s;
}.

(** The built-ins cut down to the ASCII rules, for running the
    definitions on sample pages. *)
Definition ascii_builtins : Builtins :=
  {| toLowerCase := ascii_toLowerCase;
     trim := ascii_trim;
     toLowerCase_ascii := fun _ _ => eq_refl;
     trim_ascii := fun _ _ => eq_refl |}.

Section Script.
Context {builtins : Builtins}.

(** [s.includes(needle)] *)
Fixpoint includes (s needle : string) : bool :=
  if String.prefix needle s then true
  else match s with
       | EmptyString => false
       | String _ rest => includes rest needle
       end.

(** Truthiness of strings and the [a || b] idiom on them. *)
Definition truthy (s : string) : bool := negb (String.eqb s "").
Definition or_else (a b : string) : string := if truthy a then a else b.
Definition opt_string (o : option string) : string := default "" o.
(** [x || null] for an optional string. *)
Definition or_null (o : option string) : option string :=
  match o with
  | Some s => if truthy s then Some s else None
  | None => None
  end.

(** ** Field updates of the script's objects *)

Definition set_flatTabs (v : list TabId) (s : State) : State :=
  Build_State v (activeTabId s) (sidebarCollapsed s) (paletteIndex s) (peekEnabled s)
    (peeking s) (defaultFavicon s) (tabMap s) (tabQuery s) (lastTabs s) (lastActive s).
Definition set_activeTabId (v : option TabId) (s : State) : State :=
  Build_State (flatTabs s) v (sidebarCollapsed s) (paletteIndex s) (peekEnabled s)
    (peeking s) (defaultFavicon s) (tabMap s) (tabQuery s) (lastTabs s) (lastActive s).
Definition set_sidebarCollapsed (v : bool) (s : State) : State :=
  Build_State (flatTabs s) (activeTabId s) v (paletteIndex s) (peekEnabled s)
    (peeking s) (defaultFavicon s) (tabMap s) (tabQuery s) (lastTabs s) (lastActive s).
Definition set_paletteIndex (v : Z) (s : State) : State :=
  Build_State (flatTabs s) (activeTabId s) (sidebarCollapsed s) v (peekEnabled s)
    (peeking s) (defaultFavicon s) (tabMap s) (tabQuery s) (lastTabs s) (lastActive s).
Definition set_peeking (v : bool) (s : State) : State :=
  Build_State (flatTabs s) (activeTabId s) (sidebarCollapsed s) (paletteIndex s) (peekEnabled s)
    v (defaultFavicon s) (tabMap s) (tabQuery s) (lastTabs s) (lastActive s).
Definition set_defaultFavicon (v : option string) (s : State) : State :=
  Build_State (flatTabs s) (activeTabId s) (sidebarCollapsed s) (paletteIndex s) (peekEnabled s)
    (peeking s) v (tabMap s) (tabQuery s) (lastTabs s) (lastActive s).
Definition set_tabMap (v : gmap Z loc) (s : State) : State :=
  Build_State (flatTabs s) (activeTabId s) (sidebarCollapsed s) (paletteIndex s) (peekEnabled s)
    (peeking s) (defaultFavicon s) v (tabQuery s) (lastTabs s) (lastActive s).
Definition set_tabQuery (v : string) (s : State) : State :=
  Build_State (flatTabs s) (activeTabId s) (sidebarCollapsed s) (paletteIndex s) (peekEnabled s)
    (peeking s) (defaultFavicon s) (tabMap s) v (lastTabs s) (lastActive s).
Definition set_lastTabs (v : list loc) (s : State) : State :=
  Build_State (flatTabs s) (activeTabId s) (sidebarCollapsed s) (paletteIndex s) (peekEnabled s)
    (peeking s) (defaultFavicon s) (tabMap s) (tabQuery s) v (lastActive s).
Definition set_lastActive (v : option TabId) (s : State) : State :=
  Build_State (flatTabs s) (activeTabId s) (sidebarCollapsed s) (paletteIndex s) (peekEnabled s)
    (peeking s) (defaultFavicon s) (tabMap s) (tabQuery s) (lastTabs s) v.

Definition set_tabs (v : option (list Row)) (e : Elements) : Elements :=
  Build_Elements v (address e) (go e) (newTab e) (home e) (navBack e) (navForward e)
    (navReload e) (sidebarToggle e) (brandIcon e) (tabSearch e) (paletteBackdrop e)
    (paletteInput e) (paletteResults e) (tabMenu e).
Definition set_address (v : option string) (e : Elements) : Elements :=
  Build_Elements (tabs e) v (go e) (newTab e) (home e) (navBack e) (navForward e)
    (navReload e) (sidebarToggle e) (brandIcon e) (tabSearch e) (paletteBackdrop e)
    (paletteInput e) (paletteResults e) (tabMenu e).
Definition set_navBack (v : option NavButton) (e : Elements) : Elements :=
  Build_Elements (tabs e) (address e) (go e) (newTab e) (home e) v (navForward e)
    (navReload e) (sidebarToggle e) (brandIcon e) (tabSearch e) (paletteBackdrop e)
    (paletteInput e) (paletteResults e) (tabMenu e).
Definition set_navForward (v : option NavButton) (e : Elements) : Elements :=
  Build_Elements (tabs e) (address e) (go e) (newTab e) (home e) (navBack e) v
    (navReload e) (sidebarToggle e) (brandIcon e) (tabSearch e) (paletteBackdrop e)
    (paletteInput e) (paletteResults e) (tabMenu e).
Definition set_navReload (v : option ReloadButton) (e : Elements) : Elements :=
  Build_Elements (tabs e) (address e) (go e) (newTab e) (home e) (navBack e) (navForward e)
    v (sidebarToggle e) (brandIcon e) (tabSearch e) (paletteBackdrop e)
    (paletteInput e) (paletteResults e) (tabMenu e).
Definition set_sidebarToggle (v : option string) (e : Elements) : Elements :=
  Build_Elements (tabs e) (address e) (go e) (newTab e) (home e) (navBack e) (navForward e)
    (navReload e) v (brandIcon e) (tabSearch e) (paletteBackdrop e)
    (paletteInput e) (paletteResults e) (tabMenu e).
Definition set_brandIcon (v : option (option string)) (e : Elements) : Elements :=
  Build_Elements (tabs e) (address e) (go e) (newTab e) (home e) (navBack e) (navForward e)
    (navReload e) (sidebarToggle e) v (tabSearch e) (paletteBackdrop e)
    (paletteInput e) (paletteResults e) (tabMenu e).
Definition set_paletteInput (v : option string) (e : Elements) : Elements :=
  Build_Elements (tabs e) (address e) (go e) (newTab e) (home e) (navBack e) (navForward e)
    (navReload e) (sidebarToggle e) (brandIcon e) (tabSearch e) (paletteBackdrop e)
    v (paletteResults e) (tabMenu e).
Definition set_paletteResults (v : option (list (string * bool))) (e : Elements) : Elements :=
  Build_Elements (tabs e) (address e) (go e) (newTab e) (home e) (navBack e) (navForward e)
    (navReload e) (sidebarToggle e) (brandIcon e) (tabSearch e) (paletteBackdrop e)
    (paletteInput e) v (tabMenu e).
Definition set_tabMenu (v : option TabMenu) (e : Elements) : Elements :=
  Build_Elements (tabs e) (address e) (go e) (newTab e) (home e) (navBack e) (navForward e)
    (navReload e) (sidebarToggle e) (brandIcon e) (tabSearch e) (paletteBackdrop e)
    (paletteInput e) (paletteResults e) v.

Definition set_title_attr (v : option string) (r : Row) : Row :=
  Build_Row (data_id r) (depth_var r) (class_is_group r) (data_hasChildren r) (data_pinned r)
    (data_muted r) (data_suspended r) (aria_selected r) (tabIndex r) (aria_expanded r)
    (data_fullTitle r) v (img_src r) (data_favicon r) (title_text r).
Definition set_img_src (v : option string) (r : Row) : Row :=
  Build_Row (data_id r) (depth_var r) (class_is_group r) (data_hasChildren r) (data_pinned r)
    (data_muted r) (data_suspended r) (aria_selected r) (tabIndex r) (aria_expanded r)
    (data_fullTitle r) (title_attr r) v (data_favicon r) (title_text r).
Definition set_data_favicon (v : string) (r : Row) : Row :=
  Build_Row (data_id r) (depth_var r) (class_is_group r) (data_hasChildren r) (data_pinned r)
    (data_muted r) (data_suspended r) (aria_selected r) (tabIndex r) (aria_expanded r)
    (data_fullTitle r) (title_attr r) (img_src r) v (title_text r).

Definition modify_state (f : State -> State) : M unit :=
  modify (fun w => set_state (f (state w)) w).
Definition modify_elements (f : Elements -> Elements) : M unit :=
  modify (fun w => set_elements (f (elements w)) w).
Definition modify_body (f : Body -> Body) : M unit :=
  modify (fun w => set_body (f (body w)) w).

(** ** The heap *)

(** Reading through a reference.  References handed out by [alloc] are
    never dangling; a dangling one reads as [undefined]. *)
Definition deref (l : loc) : M NodeObj :=
  let* h := gets heap in
  match h !! l with
  | Some n => ret n
  | None => throw (TypeError "Cannot read properties of undefined")
  end.

(** A fresh object. *)
Definition alloc (n : NodeObj) : M loc :=
  let* h := gets heap in
  modify (set_heap (h ++ [n]));;
  ret (length h).

(** [node.favicon_uri = v] *)
Definition write_favicon_uri (l : loc) (v : option string) : M unit :=
  let* n := deref l in
  let* h := gets heap in
  modify (set_heap (<[l := Node.set_favicon_uri v n]> h)).

Definition nonempty {A} (l : list A) : bool :=
  match l with [] => false | _ => true end.

(** ** Rendering the sidebar *)

(** The row [buildRow] makes of a node, given the two fields of [state]
    it reads. *)
Definition row_for {C} (st : State) (node : Node.t (list C)) (depth : nat) : Row :=
  let fullTitle := or_else (Node.title node) (or_else (Node.url node) "Tab") in
  let favicon :=
    or_else (opt_string (Node.favicon_uri node)) (opt_string (defaultFavicon st)) in
  {| data_id := Node.id node;
     depth_var := depth;
     class_is_group := Node.is_group node;
     data_hasChildren := nonempty (Node.children node);
     data_pinned := Node.is_pinned node;
     data_muted := Node.is_muted node;
     data_suspended := Node.is_suspended node;
     aria_selected := Node.is_active node;
     tabIndex := if Node.is_active node then 0 else -1;
     aria_expanded :=
       if nonempty (Node.children node) then Some (Node.is_expanded node) else None;
     data_fullTitle := fullTitle;
     title_attr := if sidebarCollapsed st then None else Some fullTitle;
     img_src := if truthy favicon then Some favicon else None;
     data_favicon := opt_string (Node.favicon_uri node);
     title_text := or_else (Node.title node) "Untitled" |}.

(** [buildRow(node, depth)]: the row element, as far as its attributes
    go.  The listeners it installs are the row listeners of [fire]
    below. *)
Definition buildRow (node : NodeObj) (depth : nat) : M Row :=
  let* st := gets state in
  ret (row_for st node depth).

(** A loop that threads a local value through its iterations. *)
Fixpoint fold_of {A B} (items : list A) (acc : B) (body : B -> A -> M B) : M B :=
  match items with
  | [] => ret acc
  | x :: rest => let* acc := body acc x in fold_of rest acc body
  end.

(** [renderNodes(nodes, depth, fragment)]; the fragment is threaded. *)
Fixpoint renderNodes (fuel : nat) (nodes : list loc) (depth : nat)
    (fragment : list Row) : M (list Row) :=
  match fuel with
  | O => out_of_fuel
  | S fuel =>
      fold_of nodes fragment (fun fragment node =>
        let* n := deref node in
        let* row := buildRow n depth in
        let fragment := fragment ++ [row] in
        modify_state (fun s => set_flatTabs (flatTabs s ++ [Node.id n]) s);;
        modify_state (fun s => set_tabMap (<[Node.id n := node]> (tabMap s)) s);;
        if nonempty (Node.children n) && Node.is_expanded n
        then renderNodes fuel (Node.children n) (S depth) fragment
        else ret fragment)
  end.

Definition sync_row (collapsed : bool) (row : Row) : Row :=
  if collapsed then set_title_attr None row
  else if truthy (data_fullTitle row) then set_title_attr (Some (data_fullTitle row)) row
  else row.

Definition syncCollapsedTabTitles (collapsed : bool) : M unit :=
  let* el := gets elements in
  match tabs el with
  | None => ret tt
  | Some rows => modify_elements (set_tabs (Some (map (sync_row collapsed) rows)))
  end.

Definition renderTabs (fuel : nat) (nodes : list loc) : M unit :=
  modify_state (set_flatTabs []);;
  modify_state (set_tabMap ∅);;
  let* fragment := renderNodes fuel nodes 0 [] in
  let* el := gets elements in
  when (bool_decide (is_Some (tabs el))) (modify_elements (set_tabs (Some fragment)));;
  let* st := gets state in
  syncCollapsedTabTitles (sidebarCollapsed st).

(** [findActive(nodes, id)]: the first node in preorder with this id. *)
Fixpoint findActive (fuel : nat) (nodes : list loc) (id : TabId) : M (option loc) :=
  match fuel with
  | O => out_of_fuel
  | S fuel =>
      (fix loop (nodes : list loc) : M (option loc) :=
         match nodes with
         | [] => ret None
         | node :: rest =>
             let* n := deref node in
             if bool_decide (Node.id n = id) then ret (Some node)
             else
               let* found := findActive fuel (Node.children n) id in
               match found with
               | Some l => ret (Some l)
               | None => loop rest
               end
         end) nodes
  end.

(** The test of one node against the needle in [filterNodes]. *)
Definition matches {C} (needle : string) (n : Node.t C) : bool :=
  includes (toLowerCase (Node.title n)) needle
  || includes (toLowerCase (Node.url n)) needle.

(** The object literal [{ ...node, children, is_expanded: true }]. *)
Definition spread_copy (n : NodeObj) (children : list loc) : NodeObj :=
  Node.with_children children (Node.set_is_expanded true n).

Fixpoint filterNodes (fuel : nat) (nodes : list loc) (query : string) : M (list loc) :=
  if negb (truthy query) then ret nodes
  else
    match fuel with
    | O => out_of_fuel
    | S fuel =>
        let needle := toLowerCase query in
        fold_of nodes [] (fun filtered node =>
          let* n := deref node in
          let matches := matches needle n in
          let* children :=
            if nonempty (Node.children n) then filterNodes fuel (Node.children n) query
            else ret [] in
          if matches || nonempty children
          then
            let* copy := alloc (spread_copy n children) in
            ret (filtered ++ [copy])
          else ret filtered)
    end.

Fixpoint updateTreeFavicon (fuel : nat) (nodes : list loc) (ids : gset Z)
    (faviconUri : option string) : M unit :=
  match fuel with
  | O => out_of_fuel
  | S fuel =>
      for_of nodes (fun node =>
        let* n := deref node in
        when (bool_decide (Node.id n ∈ ids)) (write_favicon_uri node faviconUri);;
        let* n := deref node in
        when (nonempty (Node.children n))
             (updateTreeFavicon fuel (Node.children n) ids faviconUri))
  end.

(** ** Applying inbound state *)

Definition set_tm_closed (m : TabMenu) : TabMenu :=
  {| tm_is_open := false; tm_aria_hidden := true;
     tm_pin := tm_pin m; tm_mute := tm_mute m; tm_unload := tm_unload m |}.

Definition closeTabMenu : M unit :=
  let* el := gets elements in
  match tabMenu el with
  | None => ret tt
  | Some m =>
      modify_elements (set_tabMenu (Some (set_tm_closed m)));;
      modify (set_menuState {| menu_open := false; menu_tabId := None |})
  end.

(** Payload of [state.tabs]; the tree arrives as objects in the heap. *)
Record TabsPayload : Type := { p_tabs : list loc; p_active : option TabId }.

(** Truthiness of a tab id: [null], [undefined] and [0] are falsy. *)
Definition truthy_id (o : option TabId) : bool :=
  match o with
  | Some i => negb (i =? 0)
  | None => false
  end.

Definition applyState (fuel : nat) (newState : option TabsPayload) : M unit :=
  match newState with
  | None => throw (TypeError "undefined is not an object (evaluating 'newState.active')")
  | Some newState =>
      modify_state (set_activeTabId (p_active newState));;
      modify_state (set_lastTabs (p_tabs newState));;
      modify_state (set_lastActive (p_active newState));;
      let* st := gets state in
      let* filtered := filterNodes fuel (lastTabs st) (tabQuery st) in
      renderTabs fuel filtered;;
      closeTabMenu;;
      let* st := gets state in
      let* activeNode :=
        if truthy_id (lastActive st)
        then findActive fuel (lastTabs st) (default 0 (lastActive st))
        else ret None in
      let* el := gets elements in
      match activeNode, address el with
      | Some l, Some _ =>
          let* n := deref l in
          modify_elements (set_address (Some (or_else (Node.url n) "")))
      | _, _ => ret tt
      end
  end.

Record NavPayload : Type := {
  can_go_back : bool;
  can_go_forward : bool;
  is_loading : bool;
}.

Definition set_disabled (d : bool) (b : NavButton) : NavButton :=
  {| nb_textContent := nb_textContent b; nb_ariaLabel := nb_ariaLabel b; nb_disabled := d |}.

Definition set_is_loading_class (v : bool) (b : Body) : Body :=
  {| is_loading_class := v; sidebar_collapsed_class := sidebar_collapsed_class b;
     palette_open_class := palette_open_class b |}.
Definition set_sidebar_collapsed_class (v : bool) (b : Body) : Body :=
  {| is_loading_class := is_loading_class b; sidebar_collapsed_class := v;
     palette_open_class := palette_open_class b |}.
Definition set_palette_open_class (v : bool) (b : Body) : Body :=
  {| is_loading_class := is_loading_class b;
     sidebar_collapsed_class := sidebar_collapsed_class b; palette_open_class := v |}.

Definition applyNavState (nav : option NavPayload) : M unit :=
  match nav with
  | None => throw (TypeError "undefined is not an object (evaluating 'nav.is_loading')")
  | Some nav =>
      let* el := gets elements in
      match navBack el with
      | Some b => modify_elements (set_navBack (Some (set_disabled (negb (can_go_back nav)) b)))
      | None => ret tt
      end;;
      let* el := gets elements in
      match navForward el with
      | Some b =>
          modify_elements (set_navForward (Some (set_disabled (negb (can_go_forward nav)) b)))
      | None => ret tt
      end;;
      modify_body (set_is_loading_class (is_loading nav));;
      let* el := gets elements in
      match navReload el with
      | Some _ =>
          if is_loading nav
          then modify_elements (set_navReload (Some
                 {| rb_textContent := "Stop"; rb_mode := "stop"; rb_ariaLabel := "Stop" |}))
          else modify_elements (set_navReload (Some
                 {| rb_textContent := "Reload"; rb_mode := "reload";
                    rb_ariaLabel := "Reload" |}))
      | None => ret tt
      end
  end.

Record AssetsPayload : Type := { default_favicon : option string }.

Definition assets_row (defaultFavicon : option string) (row : Row) : Row :=
  if negb (truthy (data_favicon row)) && truthy (opt_string defaultFavicon)
  then set_img_src defaultFavicon row
  else row.

Definition applyAssets (payload : option AssetsPayload) : M unit :=
  match payload ≫= default_favicon with
  | None => ret tt
  | Some icon =>
      if negb (truthy icon) then ret tt
      else
        modify_state (set_defaultFavicon (Some icon));;
        let* el := gets elements in
        when (bool_decide (is_Some (brandIcon el)))
             (modify_elements (set_brandIcon (Some (Some icon))));;
        let* el := gets elements in
        match tabs el with
        | None => ret tt
        | Some rows => modify_elements (set_tabs (Some (map (assets_row (Some icon)) rows)))
        end
  end.

Record FaviconPayload : Type := {
  ids : option (list TabId);
  favicon_uri : option string;
}.

(** [row = querySelector('.tab[data-id=...]')] followed by the update of
    that one row: the first row with this id. *)
Fixpoint update_first_row (id : TabId) (f : Row -> Row) (rows : list Row) : list Row :=
  match rows with
  | [] => []
  | r :: rest =>
      if bool_decide (data_id r = id) then f r :: rest
      else r :: update_first_row id f rest
  end.

Definition favicon_row (uri : option string) (defaultFavicon : option string)
    (row : Row) : Row :=
  let row := set_data_favicon (or_else (opt_string uri) "") row in
  let fallback := or_else (opt_string uri) (or_else (opt_string defaultFavicon) "") in
  if truthy fallback then set_img_src (Some fallback) row else row.

Definition applyFaviconUpdate (fuel : nat) (payload : option FaviconPayload) : M unit :=
  match payload with
  | None => ret tt
  | Some payload =>
      if negb (nonempty (default [] (ids payload))) then ret tt
      else
        let id_list := default [] (ids payload) in
        let id_set : gset Z := list_to_set id_list in
        let* st := gets state in
        updateTreeFavicon fuel (lastTabs st) id_set (or_null (favicon_uri payload));;
        for_of id_list (fun id =>
          let* st := gets state in
          match tabMap st !! id with
          | Some node => write_favicon_uri node (or_null (favicon_uri payload))
          | None => ret tt
          end;;
          let* el := gets elements in
          match tabs el with
          | None => ret tt
          | Some rows =>
              modify_elements (set_tabs (Some
                (update_first_row id
                   (favicon_row (favicon_uri payload) (defaultFavicon st)) rows)))
          end)
  end.

Definition applySidebarState (collapsed : bool) : M unit :=
  modify_state (set_sidebarCollapsed collapsed);;
  modify_body (set_sidebar_collapsed_class collapsed);;
  let* el := gets elements in
  when (bool_decide (is_Some (sidebarToggle el)))
       (modify_elements (set_sidebarToggle
          (Some (if collapsed then "Expand sidebar" else "Collapse sidebar"))));;
  syncCollapsedTabTitles collapsed.

(** ** Property lookup on object literals *)

(** What [obj[key]] may yield for an object literal whose own properties
    are arrow functions: nothing, one of those functions, a function
    inherited from [Object.prototype] (with what calling it with no
    argument does), or an inherited value that is not a function. *)
Inductive Property : Type :=
| Undefined
| Closure (run : M unit)
| Builtin (throws : option Error)
| NotCallable.

(** The properties every object literal inherits.  Called with no
    argument, [__defineGetter__] and [__defineSetter__] throw because the
    accessor is not a function; [__proto__] is the prototype object
    itself. *)
Definition Object_prototype : list (string * Property) :=
  [ ("constructor", Builtin None);
    ("hasOwnProperty", Builtin None);
    ("isPrototypeOf", Builtin None);
    ("propertyIsEnumerable", Builtin None);
    ("toLocaleString", Builtin None);
    ("toString", Builtin None);
    ("valueOf", Builtin None);
    ("__lookupGetter__", Builtin None);
    ("__lookupSetter__", Builtin None);
    ("__defineGetter__", Builtin (Some (TypeError "invalid getter usage")));
    ("__defineSetter__", Builtin (Some (TypeError "invalid setter usage")));
    ("__proto__", NotCallable) ].

Fixpoint own_property (key : string) (obj : list (string * Property)) : option Property :=
  match obj with
  | [] => None
  | (k, v) :: rest => if String.eqb key k then Some v else own_property key rest
  end.

(** [obj[key]] *)
Definition get_property (obj : list (string * Property)) (key : string) : Property :=
  match own_property key obj with
  | Some v => v
  | None => default Undefined (own_property key Object_prototype)
  end.

(** [f?.()] *)
Definition optional_call (f : Property) : M unit :=
  match f with
  | Undefined => ret tt
  | Closure run => run
  | Builtin None => ret tt
  | Builtin (Some e) => throw e
  | NotCallable => throw (TypeError "is not a function")
  end.

(** [f()] *)
Definition call (f : Property) : M unit :=
  match f with
  | Undefined => throw (TypeError "undefined is not a function")
  | _ => optional_call f
  end.

(** [Boolean(f)] *)
Definition truthy_property (f : Property) : bool :=
  match f with
  | Undefined => false
  | _ => true
  end.

(** ** Inbound messages *)

Record SidebarPayload : Type := { collapsed : bool }.

(** A message of one of the five state types carries the payload the
    protocol gives that type, or none at all.  [Other] is a message of
    any other type, with any payload, and [Other ""] one whose [type] is
    missing or empty.  A message of one of the five types whose payload
    has not the shape the protocol gives it is not among the messages
    followed here: [Other] with such a type is handled as a message
    without payload, which is not what the script makes of it, and the
    theorems that depend on what a handler does leave these messages
    out. *)
Inductive Message : Type :=
| StateTabs (payload : option TabsPayload)
| StateNav (payload : option NavPayload)
| StateAssets (payload : option AssetsPayload)
| StateFavicon (payload : option FaviconPayload)
| StateSidebar (payload : option SidebarPayload)
| Other (type : string) (payload : option Value).

Definition type_of (m : Message) : string :=
  match m with
  | StateTabs _ => "state.tabs"
  | StateNav _ => "state.nav"
  | StateAssets _ => "state.assets"
  | StateFavicon _ => "state.favicon"
  | StateSidebar _ => "state.sidebar"
  | Other type _ => type
  end.

Definition tabs_payload (m : Message) : option TabsPayload :=
  match m with StateTabs p => p | _ => None end.
Definition nav_payload (m : Message) : option NavPayload :=
  match m with StateNav p => p | _ => None end.
Definition assets_payload (m : Message) : option AssetsPayload :=
  match m with StateAssets p => p | _ => None end.
Definition favicon_payload (m : Message) : option FaviconPayload :=
  match m with StateFavicon p => p | _ => None end.
Definition sidebar_payload (m : Message) : option SidebarPayload :=
  match m with StateSidebar p => p | _ => None end.

Definition handled_types : list string :=
  ["state.tabs"; "state.nav"; "state.assets"; "state.favicon"; "state.sidebar"].

Definition messageHandlers (fuel : nat) (message : Message) : list (string * Property) :=
  [ ("state.tabs", Closure (applyState fuel (tabs_payload message)));
    ("state.nav", Closure (applyNavState (nav_payload message)));
    ("state.assets", Closure (applyAssets (assets_payload message)));
    ("state.favicon", Closure (applyFaviconUpdate fuel (favicon_payload message)));
    ("state.sidebar",
       Closure (applySidebarState
                  (default false (collapsed <$> sidebar_payload message)))) ].

(** [window.__owl_receive(message)]; [None] is [null] or [undefined]. *)
Definition __owl_receive (fuel : nat) (message : option Message) : M unit :=
  match message with
  | None => ret tt
  | Some message =>
      if negb (truthy (type_of message)) then ret tt
      else optional_call (get_property (messageHandlers fuel message) (type_of message))
  end.

(** ** Commands of the user *)

Definition id_payload (id : TabId) : option Value := Some (VObj [("id", VNum id)]).

Definition setSidebarCollapsed (collapsed : bool) : M unit :=
  applySidebarState collapsed;;
  send "ui.sidebar.toggle" (Some (VObj [("collapsed", VBool collapsed)])).

Definition navigateFromAddress : M unit :=
  let* el := gets elements in
  match address el with
  | None => ret tt
  | Some value =>
      let value := trim value in
      when (truthy value) (send "nav.go" (Some (VObj [("url", VStr value)])))
  end.

Record Command : Type := { cmd_id : string; label : string; run : M unit }.

(** Focusing, selecting and blurring an element leave no trace in the
    world. *)
Definition focus_address : M unit := ret tt.

Definition COMMANDS : list Command :=
  [ {| cmd_id := "new-tab"; label := "New Tab"; run := send "tab.create" None |};
    {| cmd_id := "back"; label := "Go Back"; run := send "nav.back" None |};
    {| cmd_id := "forward"; label := "Go Forward"; run := send "nav.forward" None |};
    {| cmd_id := "reload"; label := "Reload"; run := send "nav.reload" None |};
    {| cmd_id := "home"; label := "Go Home"; run := send "nav.home" None |};
    {| cmd_id := "toggle-sidebar"; label := "Toggle Sidebar";
       run := let* st := gets state in setSidebarCollapsed (negb (sidebarCollapsed st)) |};
    {| cmd_id := "focus-address"; label := "Focus Address Bar"; run := focus_address |} ].

(** [renderPaletteResults(query)]: an item of the list is the label of
    its command and whether it is the active one. *)
Definition renderPaletteResults (query : string) : M (list Command) :=
  let needle := toLowerCase (trim query) in
  let results :=
    List.filter (fun cmd => includes (toLowerCase (label cmd)) needle) COMMANDS in
  let* el := gets elements in
  match paletteResults el with
  | None => ret results
  | Some _ =>
      let* st := gets state in
      modify_elements (set_paletteResults (Some
        (imap (fun index cmd => (label cmd, Z.of_nat index =? paletteIndex st)) results)));;
      ret results
  end.

Definition closePalette : M unit :=
  modify_body (set_palette_open_class false).

Definition openPalette : M unit :=
  modify_body (set_palette_open_class true);;
  let* el := gets elements in
  match paletteInput el with
  | None => ret tt
  | Some _ =>
      modify_elements (set_paletteInput (Some ""));;
      modify_state (set_paletteIndex 0);;
      renderPaletteResults "";;
      ret tt
  end.

(** [openTabMenu(event, id)], without the pixel position of the menu. *)
Definition openTabMenu (id : TabId) : M unit :=
  let* el := gets elements in
  match tabMenu el with
  | None => ret tt
  | Some m =>
      let* st := gets state in
      match tabMap st !! id with
      | None => ret tt
      | Some l =>
          let* node := deref l in
          let m :=
            {| tm_is_open := tm_is_open m; tm_aria_hidden := tm_aria_hidden m;
               tm_pin := (fun _ => if Node.is_pinned node then "Unpin" else "Pin")
                           <$> tm_pin m;
               tm_mute := (fun _ => if Node.is_muted node then "Unmute" else "Mute")
                            <$> tm_mute m;
               tm_unload := (fun _ => if Node.is_suspended node then "Reload" else "Unload")
                              <$> tm_unload m |} in
          modify_elements (set_tabMenu (Some m));;
          closeTabMenu;;
          modify (set_menuState {| menu_open := true; menu_tabId := Some id |});;
          modify_elements (set_tabMenu (Some
            {| tm_is_open := true; tm_aria_hidden := false;
               tm_pin := tm_pin m; tm_mute := tm_mute m; tm_unload := tm_unload m |}))
      end
  end.

(** [setupEventHandlers()], as far as it writes the page; the listeners
    it installs are those of [fire]. *)
Definition setupEventHandlers : M unit :=
  let* el := gets elements in
  match navBack el with
  | Some b => modify_elements (set_navBack (Some
      {| nb_textContent := "Back"; nb_ariaLabel := "Back"; nb_disabled := nb_disabled b |}))
  | None => ret tt
  end;;
  let* el := gets elements in
  match navForward el with
  | Some b => modify_elements (set_navForward (Some
      {| nb_textContent := "Forward"; nb_ariaLabel := "Forward";
         nb_disabled := nb_disabled b |}))
  | None => ret tt
  end;;
  let* el := gets elements in
  match navReload el with
  | Some _ => modify_elements (set_navReload (Some
      {| rb_textContent := "Reload"; rb_mode := "reload"; rb_ariaLabel := "Reload" |}))
  | None => ret tt
  end.

(** [list.indexOf(x)], [-1] when absent. *)
Fixpoint indexOf (l : list TabId) (x : option TabId) : Z :=
  match l with
  | [] => -1
  | y :: rest =>
      if bool_decide (x = Some y) then 0
      else let i := indexOf rest x in if i =? -1 then -1 else i + 1
  end.

(** [list[i]] for an integer index. *)
Definition at_index {A} (l : list A) (i : Z) : option A :=
  if i <? 0 then None else l !! Z.to_nat i.

(** The listeners the script installs, one constructor for each
    [addEventListener], with the part of the event the listener reads. *)
Inductive Listener : Type :=
| AddressKeydown (key : string)
| GoClick
| NewTabClick
| HomeClick
| NavBackClick
| NavForwardClick
| NavReloadClick
| SidebarToggleClick
| TabSearchInput (value : string)
| PeekKeydown (altKey : bool)
| PeekKeyup (altKey : bool)
| PaletteBackdropClick
| PaletteInputInput (value : string)
| PaletteInputKeydown (key : string)
| PaletteItemClick (index : nat)
| WindowKeydown (modKey : bool) (key : string)
| TabMenuClick (action : option string)
| TabMenuKeydown (key : string) (active_action : option string)
| WindowClick (in_menu : bool)
| WindowContextmenu (in_menu : bool)
| TabsKeydown (key : string)
| RowClick (id : TabId)
| RowContextmenu (id : TabId)
| RowKeydown (id : TabId) (shiftKey : bool) (key : string)
| ExpanderClick (id : TabId)
| CloseClick (id : TabId)
| DOMContentLoaded.

Definition tabMenu_click (action : option string) : M unit :=
  let* ms := gets menuState in
  match action, menu_tabId ms with
  | Some action, Some tabId =>
      when (String.eqb action "pin") (send "tab.pin" (id_payload tabId));;
      when (String.eqb action "mute") (send "tab.mute" (id_payload tabId));;
      when (String.eqb action "unload") (send "tab.unload" (id_payload tabId));;
      closeTabMenu
  | _, _ => ret tt
  end.

Definition palette_keydown (key : string) : M unit :=
  let* el := gets elements in
  let* results := renderPaletteResults (opt_string (paletteInput el)) in
  let rerender :=
    let* el := gets elements in
    renderPaletteResults (opt_string (paletteInput el));; ret tt in
  let keyHandlers :=
    [ ("ArrowDown", Closure (
         modify_state (fun s =>
           set_paletteIndex (Z.min (paletteIndex s + 1) (Z.of_nat (length results) - 1)) s);;
         rerender));
      ("ArrowUp", Closure (
         modify_state (fun s => set_paletteIndex (Z.max (paletteIndex s - 1) 0) s);;
         rerender));
      ("Enter", Closure (
         let* st := gets state in
         match at_index results (paletteIndex st) with
         | Some cmd => run cmd;; closePalette
         | None =>
             let* el := gets elements in
             let trimmedValue := trim (opt_string (paletteInput el)) in
             when (truthy trimmedValue)
                  (send "nav.go" (Some (VObj [("url", VStr trimmedValue)]));; closePalette)
         end));
      ("Escape", Closure closePalette) ] in
  optional_call (get_property keyHandlers key).

Definition window_keydown (modKey : bool) (key : string) : M unit :=
  let shortcuts :=
    [ ("l", Closure focus_address); ("k", Closure openPalette); ("p", Closure openPalette) ] in
  let f := get_property shortcuts (toLowerCase key) in
  when (modKey && truthy_property f) (call f);;
  when (String.eqb key "Escape")
    (let* b := gets body in
     when (palette_open_class b) closePalette;;
     let* ms := gets menuState in
     when (menu_open ms) closeTabMenu).

Definition tabs_keydown (key : string) : M unit :=
  let* st := gets state in
  if negb (nonempty (flatTabs st)) then ret tt
  else
    when (String.eqb key "ArrowDown" || String.eqb key "ArrowUp")
      (let currentIndex := indexOf (flatTabs st) (activeTabId st) in
       let delta := if String.eqb key "ArrowDown" then 1 else -1 in
       let nextIndex :=
         if currentIndex =? -1 then 0
         else Z.min (Z.max (currentIndex + delta) 0) (Z.of_nat (length (flatTabs st)) - 1) in
       match at_index (flatTabs st) nextIndex with
       | Some nextId => send "tab.select" (id_payload nextId)
       | None => ret tt
       end).

Definition has_row (id : TabId) (el : Elements) : bool :=
  existsb (fun r => bool_decide (data_id r = id)) (default [] (tabs el)).

(** Running a listener.  A listener of an element that is not in the
    page was never installed and does nothing. *)
Definition fire (fuel : nat) (l : Listener) : M unit :=
  let* el := gets elements in
  let* st := gets state in
  match l with
  | AddressKeydown key =>
      when (bool_decide (is_Some (address el)) && String.eqb key "Enter") navigateFromAddress
  | GoClick => when (go el) navigateFromAddress
  | NewTabClick => when (newTab el) (send "tab.create" None)
  | HomeClick => when (home el) (send "nav.home" None)
  | NavBackClick => when (bool_decide (is_Some (navBack el))) (send "nav.back" None)
  | NavForwardClick => when (bool_decide (is_Some (navForward el))) (send "nav.forward" None)
  | NavReloadClick =>
      match navReload el with
      | Some b => send (if String.eqb (rb_mode b) "stop" then "nav.stop" else "nav.reload") None
      | None => ret tt
      end
  | SidebarToggleClick =>
      when (bool_decide (is_Some (sidebarToggle el)))
           (setSidebarCollapsed (negb (sidebarCollapsed st)))
  | TabSearchInput value =>
      when (tabSearch el)
        (modify_state (set_tabQuery (trim value));;
         let* st := gets state in
         let* filtered := filterNodes fuel (lastTabs st) (tabQuery st) in
         renderTabs fuel filtered)
  | PeekKeydown altKey =>
      when (peekEnabled st && (altKey && sidebarCollapsed st && negb (peeking st)))
        (modify_state (set_peeking true);; setSidebarCollapsed false)
  | PeekKeyup altKey =>
      when (peekEnabled st && (peeking st && negb altKey))
        (modify_state (set_peeking false);; setSidebarCollapsed true)
  | PaletteBackdropClick => when (paletteBackdrop el) closePalette
  | PaletteInputInput value =>
      when (bool_decide (is_Some (paletteInput el)))
        (modify_elements (set_paletteInput (Some value));;
         modify_state (set_paletteIndex 0);;
         renderPaletteResults value;; ret tt)
  | PaletteInputKeydown key =>
      when (bool_decide (is_Some (paletteInput el))) (palette_keydown key)
  | PaletteItemClick index =>
      match default [] (paletteResults el) !! index with
      | Some (item, _) =>
          match List.find (fun cmd => String.eqb (label cmd) item) COMMANDS with
          | Some cmd => run cmd;; closePalette
          | None => ret tt
          end
      | None => ret tt
      end
  | WindowKeydown modKey key => window_keydown modKey key
  | TabMenuClick action =>
      when (bool_decide (is_Some (tabMenu el))) (tabMenu_click action)
  | TabMenuKeydown key active_action =>
      when (bool_decide (is_Some (tabMenu el))
            && String.eqb key "Enter" && bool_decide (is_Some active_action))
        (tabMenu_click active_action)
  | WindowClick in_menu =>
      let* ms := gets menuState in
      when (menu_open ms && negb in_menu) closeTabMenu
  | WindowContextmenu in_menu =>
      let* ms := gets menuState in
      when (menu_open ms && negb in_menu) closeTabMenu
  | TabsKeydown key => when (bool_decide (is_Some (tabs el))) (tabs_keydown key)
  | RowClick id => when (has_row id el) (send "tab.select" (id_payload id))
  | RowContextmenu id => when (has_row id el) (openTabMenu id)
  | RowKeydown id shiftKey key =>
      when (has_row id el)
        (when (shiftKey && String.eqb key "F10") (openTabMenu id);;
         when (String.eqb key "ContextMenu") (openTabMenu id))
  | ExpanderClick id => when (has_row id el) (send "tab.toggle" (id_payload id))
  | CloseClick id => when (has_row id el) (send "tab.close" (id_payload id))
  | DOMContentLoaded => setupEventHandlers;; send "ui.ready" None
  end.

(** ** Running the page *)

Definition initial_state : State :=
  {| flatTabs := []; activeTabId := None; sidebarCollapsed := false; paletteIndex := 0;
     peekEnabled := false; peeking := false; defaultFavicon := None; tabMap := ∅;
     tabQuery := ""; lastTabs := []; lastActive := None |}.

(** The world when the script has been loaded in a page with the
    elements [el] and the bridge [b]. *)
Definition initial_world (el : Elements) (b : option Bridge) : World :=
  {| heap := []; state := initial_state;
     menuState := {| menu_open := false; menu_tabId := None |};
     elements := el;
     body := {| is_loading_class := false; sidebar_collapsed_class := false;
                palette_open_class := false |};
     console := []; bridge := b; outbox := [] |}.

(** What the host and the user do to the page.  Each is a call of its
    own: an exception ends that call only. *)
Inductive Action : Type :=
| Receive (message : option Message)
| Fire (l : Listener).

Definition act (fuel : nat) (a : Action) : M unit :=
  match a with
  | Receive message => __owl_receive fuel message
  | Fire l => fire fuel l
  end.

Fixpoint run_actions (fuel : nat) (actions : list Action) (w : World) : World :=
  match actions with
  | [] => w
  | a :: rest => run_actions fuel rest (snd (act fuel a w))
  end.

(** ** Snapshots as values and their layout in the heap *)

Fixpoint height (t : Tree) : nat :=
  match t with
  | T n => S (foldr (fun k acc => Nat.max (height k) acc) 0%nat (Node.children n))
  end.

Definition forest_height (ts : list Tree) : nat :=
  foldr (fun k acc => Nat.max (height k) acc) 0%nat ts.

(** [tree_at h l t]: the object at [l] and the objects below it spell
    the tree [t]. *)
Inductive tree_at (h : list NodeObj) : loc -> Tree -> Prop :=
| tree_at_node l n locs :
    h !! l = Some (Node.with_children locs n) ->
    Forall2 (tree_at h) locs (Node.children n) ->
    tree_at h l (T n).

Definition forest_at (h : list NodeObj) (locs : list loc) (ts : list Tree) : Prop :=
  Forall2 (tree_at h) locs ts.

(** Laying a snapshot out in the heap, children first, the way the
    parser of the host builds it. *)
Fixpoint alloc_tree (t : Tree) (h : list NodeObj) : loc * list NodeObj :=
  match t with
  | T n =>
      let '(locs, h) :=
        foldl (fun (acc : list loc * list NodeObj) k =>
                 let '(locs, h) := acc in
                 let '(l, h) := alloc_tree k h in (locs ++ [l], h))
              ([], h) (Node.children n) in
      (length h, h ++ [Node.with_children locs n])
  end.

Definition alloc_step (acc : list loc * list NodeObj) (k : Tree) : list loc * list NodeObj :=
  let '(locs, h) := acc in let '(l, h) := alloc_tree k h in (locs ++ [l], h).

Definition alloc_forest (ts : list Tree) (h : list NodeObj) : list loc * list NodeObj :=
  foldl alloc_step ([], h) ts.

(** The rows of the sidebar: the nodes in preorder, the children of a
    node only when the node is expanded, each with its depth. *)
Fixpoint visible (depth : nat) (t : Tree) : list (nat * Tree) :=
  match t with
  | T n =>
      (depth, t) ::
      (if Node.is_expanded n then flat_map (visible (S depth)) (Node.children n) else [])
  end.

Definition visible_forest (ts : list Tree) : list (nat * Tree) :=
  flat_map (visible 0) ts.

(** The plain preorder, each node with its depth and with whether all
    its ancestors are expanded. *)
Fixpoint preorder (open : bool) (depth : nat) (t : Tree) : list (bool * (nat * Tree)) :=
  match t with
  | T n =>
      (open, (depth, t)) ::
      flat_map (preorder (open && Node.is_expanded n) (S depth)) (Node.children n)
  end.

Definition preorder_forest (ts : list Tree) : list (bool * (nat * Tree)) :=
  flat_map (preorder true 0) ts.

Definition tree_id (t : Tree) : TabId := Node.id (root t).

(** ** The filter on values *)

(** The loop of [filterNodes] on a forest of values. *)
Fixpoint filter_tree (needle : string) (t : Tree) : list Tree :=
  match t with
  | T n =>
      let children := flat_map (filter_tree needle) (Node.children n) in
      if matches needle n || nonempty children
      then [T (Node.with_children children (Node.set_is_expanded true n))]
      else []
  end.

Definition filter_forest (query : string) (ts : list Tree) : list Tree :=
  if negb (truthy query) then ts
  else flat_map (filter_tree (toLowerCase query)) ts.

(** The filter as the specification words it: a node is kept when it
    matches or one of its children is kept; a kept node is expanded and
    has the kept ones among its children. *)
Fixpoint kept (needle : string) (t : Tree) : bool :=
  match t with
  | T n => matches needle n || existsb (kept needle) (Node.children n)
  end.

Fixpoint prune (needle : string) (t : Tree) : Tree :=
  match t with
  | T n =>
      T (Node.with_children
           (flat_map (fun k => if kept needle k then [prune needle k] else [])
                     (Node.children n))
           (Node.set_is_expanded true n))
  end.

(** All the nodes of a tree, itself first. *)
Fixpoint nodes_of (t : Tree) : list Tree :=
  match t with
  | T n => t :: flat_map nodes_of (Node.children n)
  end.





(** ** The favicon update on values *)

Fixpoint with_favicon (ids : gset Z) (uri : option string) (t : Tree) : Tree :=
  match t with
  | T n =>
      T (Node.with_children (map (with_favicon ids uri) (Node.children n))
           (if bool_decide (Node.id n ∈ ids) then Node.set_favicon_uri uri n else n))
  end.

(** Every entry of [state.tabMap] is a node that carries its key. *)
Definition tabMap_ok (w : World) : Prop :=
  forall (id : Z) (l : loc),
    tabMap (state w) !! id = Some l ->
    exists n, heap w !! l = Some n /\ Node.id n = id.

(** ** Relations between worlds *)

(** [steps R m]: whatever the outcome, [m] takes a world to one related
    to it by [R]. *)
Definition steps {A} (R : World -> World -> Prop) (m : M A) : Prop :=
  forall w, R w (snd (m w)).

(** A view of the world is kept. *)
Definition keeps {X} (f : World -> X) : World -> World -> Prop :=
  fun w w' => f w' = f w.

(** The outbox only grows, by messages that satisfy [P]. *)
Definition posts (P : JsonText -> Prop) : World -> World -> Prop :=
  fun w w' => exists new, outbox w' = outbox w ++ new /\ Forall P new.

(** A relation on worlds that the updates of the script's own objects,
    of the heap and of the elements other than the navigation buttons
    respect. *)
Class Frame (R : World -> World -> Prop) : Prop := {
  frame_preorder :: PreOrder R;
  frame_state : forall f, steps R (modify_state f);
  frame_body : forall f, steps R (modify_body f);
  frame_heap : forall h, steps R (modify (set_heap h));
  frame_menuState : forall m, steps R (modify (set_menuState m));
  frame_tabs : forall v, steps R (modify_elements (set_tabs v));
  frame_address : forall v, steps R (modify_elements (set_address v));
  frame_sidebarToggle : forall v, steps R (modify_elements (set_sidebarToggle v));
  frame_brandIcon : forall v, steps R (modify_elements (set_brandIcon v));
  frame_paletteInput : forall v, steps R (modify_elements (set_paletteInput v));
  frame_paletteResults : forall v, steps R (modify_elements (set_paletteResults v));
  frame_tabMenu : forall v, steps R (modify_elements (set_tabMenu v));
}.

(** ... and the updates of the navigation buttons as well. *)
Class FrameNav (R : World -> World -> Prop) : Prop := {
  frame_navBack : forall v, steps R (modify_elements (set_navBack v));
  frame_navForward : forall v, steps R (modify_elements (set_navForward v));
  frame_navReload : forall v, steps R (modify_elements (set_navReload v));
}.

(** The own properties of an object literal all satisfy [steps R]. *)
Definition closures_step (R : World -> World -> Prop)
    (obj : list (string * Property)) : Prop :=
  Forall (fun kv => match snd kv with Closure run => steps R run | _ => True end) obj.

(** ** The inbound commands and the kinds of actions *)

(** The inbound command set of the bridge. *)
Definition COMMAND_TYPES : list string :=
  [ "ui.ready"; "ui.sidebar.toggle"; "nav.go"; "nav.back"; "nav.forward"; "nav.reload";
    "nav.stop"; "nav.home"; "tab.create"; "tab.close"; "tab.select"; "tab.toggle";
    "tab.pin"; "tab.mute"; "tab.unload" ].

(** A message whose [type] field is one of the inbound commands. *)
Definition command_message (msg : JsonText) : Prop :=
  exists type, field "type" (denotes msg) = Some (VStr type) /\ In type COMMAND_TYPES.

(** A message that is [null] or [undefined], or that has no [type] (or
    an empty one). *)
Definition malformed (message : option Message) : bool :=
  match message with
  | None => true
  | Some m => negb (truthy (type_of m))
  end.

(** The names on [Object.prototype] whose call with no argument throws. *)
Definition throwing_names : list string :=
  ["__proto__"; "__defineGetter__"; "__defineSetter__"].

(** An action that neither delivers a message of type [state.nav],
    whatever its payload, nor sets the page up again. *)
Definition leaves_nav (a : Action) : bool :=
  match a with
  | Receive (Some message) => negb (String.eqb (type_of message) "state.nav")
  | Receive None => true
  | Fire DOMContentLoaded => false
  | Fire _ => true
  end.

(** The reload button, which only [applyNavState] and the set-up of the
    page write. *)
Definition reload_button (w : World) : option ReloadButton := navReload (elements w).

(** ** The worlds some fragments leave *)

(** The world [applyNavState(nav)] leaves. *)
Definition nav_applied (nav : NavPayload) (w : World) : World :=
  let reload :=
    if is_loading nav
    then {| rb_textContent := "Stop"; rb_mode := "stop"; rb_ariaLabel := "Stop" |}
    else {| rb_textContent := "Reload"; rb_mode := "reload"; rb_ariaLabel := "Reload" |} in
  set_elements
    (set_navReload ((fun _ => reload) <$> navReload (elements w))
       (set_navForward (set_disabled (negb (can_go_forward nav)) <$> navForward (elements w))
          (set_navBack (set_disabled (negb (can_go_back nav)) <$> navBack (elements w))
             (elements w))))
    (set_body (set_is_loading_class (is_loading nav) (body w)) w).

(** The world [closeTabMenu()] leaves. *)
Definition menu_closed (w : World) : World :=
  match tabMenu (elements w) with
  | None => w
  | Some m =>
      set_menuState {| menu_open := false; menu_tabId := None |}
        (set_elements (set_tabMenu (Some (set_tm_closed m)) (elements w)) w)
  end.

(** The id of a visible node, given with its depth. *)
Definition vis_id (dt : nat * Tree) : TabId := tree_id (snd dt).

(** The rows [buildRow] makes of the visible nodes. *)
Definition rows_of (st : State) (vis : list (nat * Tree)) : list Row :=
  map (fun dt => row_for st (root (snd dt)) (fst dt)) vis.

(** The world [renderNodes] leaves: more ids in [state.flatTabs] and
    another [state.tabMap]. *)
Definition rendered (ids : list TabId) (M : gmap Z loc) (w : World) : World :=
  set_state (set_tabMap M (set_flatTabs (flatTabs (state w) ++ ids) (state w))) w.

(** [maps_visible h vis M0 M']: the map [M'] is [M0] with an entry for
    each visible node, under its id, that is a node object of this id. *)
Definition maps_visible (h : list NodeObj) (vis : list (nat * Tree))
    (M0 M' : gmap Z loc) : Prop :=
  (forall id l, M' !! id = Some l ->
     M0 !! id = Some l \/ exists dt, In dt vis /\ vis_id dt = id /\ tree_at h l (snd dt))
  /\ (forall id, is_Some (M0 !! id) -> is_Some (M' !! id))
  /\ (forall dt, In dt vis -> is_Some (M' !! vis_id dt)).

(** ** Induction on trees and the marking of the favicon update *)

(** Induction on trees, the children being covered by [Forall]. *)
Fixpoint Tree_induction (P : Tree -> Prop)
    (H : forall n, Forall P (Node.children n) -> P (T n)) (t : Tree) : P t :=
  match t with
  | T n =>
      H n ((fix go (l : list Tree) : Forall P l :=
              match l with
              | [] => @List.Forall_nil _ P
              | k :: rest => @List.Forall_cons _ P k rest (Tree_induction P H k) (go rest)
              end) (Node.children n))
  end.

(** What the favicon update does to one node. *)
Definition mark {C} (ids : gset Z) (uri : option string) (n : Node.t C) : Node.t C :=
  if bool_decide (Node.id n ∈ ids) then Node.set_favicon_uri uri n else n.

(** [marking ids uri h h']: [h'] is [h] with some of its nodes marked. *)
Definition marking (ids : gset Z) (uri : option string) (h h' : list NodeObj) : Prop :=
  forall (l : loc) n,
    h !! l = Some n -> h' !! l = Some n \/ h' !! l = Some (mark ids uri n).

(** ** Sample pages *)

(** A page that has every element. *)
Definition sample_elements : Elements :=
  {| tabs := Some []; address := Some ""; go := true; newTab := true; home := true;
     navBack := Some {| nb_textContent := ""; nb_ariaLabel := ""; nb_disabled := false |};
     navForward := Some {| nb_textContent := ""; nb_ariaLabel := ""; nb_disabled := false |};
     navReload := Some {| rb_textContent := ""; rb_mode := ""; rb_ariaLabel := "" |};
     sidebarToggle := Some ""; brandIcon := Some None; tabSearch := true;
     paletteBackdrop := true; paletteInput := Some ""; paletteResults := Some [];
     tabMenu := Some {| tm_is_open := false; tm_aria_hidden := true; tm_pin := Some "Pin";
                        tm_mute := Some "Mute"; tm_unload := Some "Unload" |} |}.

(** A bridge that takes every message. *)
Definition open_bridge : Bridge := fun _ => None.

(** The script just loaded in the sample page. *)
Definition sample_world : World := initial_world sample_elements (Some open_bridge).

Definition sample_nav : NavPayload :=
  {| can_go_back := true; can_go_forward := false; is_loading := true |}.

Definition sample_tabs : TabsPayload := {| p_tabs := []; p_active := Some 3 |}.

Definition sample_node (id : TabId) (title url : string) (icon : option string)
    (expanded : bool) (children : list Tree) : Tree :=
  T (Node.Make id title url icon false false false false false expanded children).

(** Two roots: an expanded one with two children and a collapsed one
    with one child. *)
Definition sample_forest : list Tree :=
  [ sample_node 1 "Mail" "https://mail.example/" None true
      [ sample_node 2 "Docs" "https://docs.example/" (Some "https://docs.example/icon.png")
          false [];
        sample_node 3 "News" "https://news.example/" None false [] ];
    sample_node 4 "Group" "" None false
      [ sample_node 5 "Hidden docs" "https://docs.example/secret" None false [] ] ].

Definition sample_locs : list loc := fst (alloc_forest sample_forest []).

(** The sample page with the sample snapshot in its heap. *)
Definition sample_page : World := set_heap (snd (alloc_forest sample_forest [])) sample_world.

(** The sample page after the sample snapshot has been applied. *)
Definition sample_loaded : World :=
  snd (applyState 3 (Some {| p_tabs := sample_locs; p_active := Some 3 |}) sample_page).

Definition sample_favicon : FaviconPayload :=
  {| ids := Some [2; 5]; favicon_uri := Some "https://cdn.example/new.png" |}.

(** ** The active tab on values *)

(** The test [node.id === id] on a value. *)
Definition has_id (id : TabId) (t : Tree) : bool := bool_decide (tree_id t = id).

(** All the nodes of a forest in preorder. *)
Definition nodes_of_forest (ts : list Tree) : list Tree := flat_map nodes_of ts.

(** What [findActive] returns, against the first node of the id among
    the values. *)
Definition found_at (h : list NodeObj) (r : option loc) (o : option Tree) : Prop :=
  match r, o with
  | Some l, Some t => tree_at h l t
  | None, None => True
  | _, _ => False
  end.

(** The node [applyState] takes for the active one: none when the id
    is [null] or [0], else the first node of this id. *)
Definition active_tab (active : option TabId) (ts : list Tree) : option Tree :=
  if truthy_id active then List.find (has_id (default 0 active)) (nodes_of_forest ts)
  else None.

(** ** The worlds the sidebar state and the assets leave *)

(** The world [applySidebarState(collapsed)] leaves. *)
Definition sidebar_applied (collapsed : bool) (w : World) : World :=
  set_elements
    (set_tabs (map (sync_row collapsed) <$> tabs (elements w))
       (set_sidebarToggle
          ((fun _ => if collapsed then "Expand sidebar" else "Collapse sidebar")
             <$> sidebarToggle (elements w))
          (elements w)))
    (set_body (set_sidebar_collapsed_class collapsed (body w))
       (set_state (set_sidebarCollapsed collapsed (state w)) w)).

(** The world [applyAssets] leaves when it is given an icon. *)
Definition assets_applied (icon : string) (w : World) : World :=
  set_elements
    (set_tabs (map (assets_row (Some icon)) <$> tabs (elements w))
       (set_brandIcon ((fun _ => Some icon) <$> brandIcon (elements w)) (elements w)))
    (set_state (set_defaultFavicon (Some icon) (state w)) w).

(** ** The spaces, tabs and line breaks around a text *)

Definition starts_with_space (s : string) : bool :=
  match s with
  | String c _ => is_space c
  | EmptyString => false
  end.

Fixpoint ends_with_space (s : string) : bool :=
  match s with
  | EmptyString => false
  | String c EmptyString => is_space c
  | String _ rest => ends_with_space rest
  end.

Fixpoint all_space (s : string) : bool :=
  match s with
  | EmptyString => true
  | String c rest => is_space c && all_space rest
  end.

(** ** The command palette *)

(** The commands [renderPaletteResults(query)] returns. *)
Definition palette_results (query : string) : list Command :=
  List.filter (fun cmd => includes (toLowerCase (label cmd)) (toLowerCase (trim query)))
              COMMANDS.

(** The world [renderPaletteResults(query)] leaves. *)
Definition palette_listed (query : string) (w : World) : World :=
  match paletteResults (elements w) with
  | None => w
  | Some _ =>
      set_elements
        (set_paletteResults
           (Some (imap (fun index cmd => (label cmd, Z.of_nat index =? paletteIndex (state w)))
                       (palette_results query)))
           (elements w)) w
  end.

(** What the palette goes by: the text of its input and the index of
    the active item. *)
Definition palette_view (w : World) : option string * Z :=
  (paletteInput (elements w), paletteIndex (state w)).

(** The active index is the index of a listed command; with no command
    listed it is [0] or [-1]. *)
Definition palette_ok (w : World) : Prop :=
  forall v,
    paletteInput (elements w) = Some v ->
    let n := Z.of_nat (length (palette_results v)) in
    let i := paletteIndex (state w) in
    (n = 0 -> -1 <= i <= 0) /\ (0 < n -> 0 <= i < n).

(** The listeners of the palette and of its shortcuts. *)
Definition palette_event (l : Listener) : bool :=
  match l with
  | PaletteInputInput _ | PaletteInputKeydown _ | PaletteBackdropClick
  | PaletteItemClick _ | WindowKeydown _ _ => true
  | _ => false
  end.

(** ** The rows under a favicon update *)

(** What one round of the loop of [applyFaviconUpdate] does to the
    elements of the page. *)
Definition favicon_patch (raw dflt : option string) (el : Elements) (id : TabId) : Elements :=
  match tabs el with
  | None => el
  | Some rows => set_tabs (Some (update_first_row id (favicon_row raw dflt) rows)) el
  end.

(** ** The sidebar toggle and the set-up of the page *)

(** The message [send("ui.sidebar.toggle", { collapsed })] posts. *)
Definition sidebar_message (collapsed : bool) : JsonText :=
  Text (envelope "ui.sidebar.toggle" (VObj [("collapsed", VBool collapsed)])).

(** The world [setupEventHandlers()] leaves. *)
Definition set_up (w : World) : World :=
  set_elements
    (set_navReload
       ((fun _ => {| rb_textContent := "Reload"; rb_mode := "reload";
                     rb_ariaLabel := "Reload" |}) <$> navReload (elements w))
       (set_navForward
          ((fun b => {| nb_textContent := "Forward"; nb_ariaLabel := "Forward";
                        nb_disabled := nb_disabled b |}) <$> navForward (elements w))
          (set_navBack
             ((fun b => {| nb_textContent := "Back"; nb_ariaLabel := "Back";
                           nb_disabled := nb_disabled b |}) <$> navBack (elements w))
             (elements w))))
    w.

(** * The home page (the second script of assets/ui.js) *)

(** The page as the script sees it: the search box, if there is one,
    with its text, and the address the window is at. *)
Record HomePage : Type := {
  searchInput : option string;
  location_href : string;
}.

(** [window.location.href = url] *)
Definition set_location_href (url : string) (p : HomePage) : HomePage :=
  {| searchInput := searchInput p; location_href := url |}.

Section HomeScript.

(** The two functions of the browser the script goes by: whether
    [new URL(s)] returns rather than throws, and [encodeURIComponent],
    with [None] for the texts on which it throws a [URIError]. *)
Variable URL_parses : string -> bool.
Variable encodeURIComponent : string -> option string.

Definition isValidUrl (s : string) : bool :=
  if URL_parses s then true
  else String.prefix "about:" s || String.prefix "owl://" s.

(** [runSearch()]: what the call comes to, and the page it leaves. *)
Definition runSearch (p : HomePage) : outcome unit * HomePage :=
  match searchInput p with
  | None => (Ret tt, p)
  | Some value =>
      let query := trim value in
      if negb (truthy query) then (Ret tt, p)
      else if isValidUrl query then (Ret tt, set_location_href query p)
      else
        match encodeURIComponent query with
        | Some encoded =>
            (Ret tt, set_location_href ("https://duckduckgo.com/?q=" ++ encoded)%string p)
        | None => (Throw (URIError "URI malformed"), p)
        end
  end.

End HomeScript.

(** * The icon text of the earlier script (test/ui.js) *)

(** [s[0]], with [None] for [undefined]. *)
Definition first_char (s : string) : option string :=
  match s with
  | String c _ => Some (String c EmptyString)
  | EmptyString => None
  end.

Section IconText.

(** [String.prototype.toUpperCase], and the [hostname] of [new URL(s)],
    with [None] when the constructor throws. *)
Variable toUpperCase : string -> string.
Variable URL_hostname : string -> option string.

(** [deriveIconText(node)], given [node.title] and [node.url]. *)
Definition deriveIconText (title url : option string) : string :=
  let title := opt_string (trim <$> title) in
  if truthy title then toUpperCase (opt_string (first_char title))
  else
    let url := opt_string (trim <$> url) in
    if negb (truthy url) then "?"
    else
      match URL_hostname url with
      | Some hostname => or_else (opt_string (toUpperCase <$> first_char hostname)) "?"
      | None => or_else (opt_string (toUpperCase <$> first_char url)) "?"
      end.

End IconText.

(** * Properties *)

(** ** The outbound envelope *)

Section Send.
Variables (type : string) (payload : option Value).

Abbreviation p := (default (VObj []) payload).

Lemma send_without_bridge w :
  bridge w = None ->
  send type payload w =
    (Ret tt,
     set_console
       (console w ++ [Warn ("Bridge not available. Attempted to send: " +:+ type) p]) w).
Proof. intros Hb. unfold send, bind, gets, console_warn, modify. now rewrite Hb. Qed.

Lemma send_unserializable w b :
  bridge w = Some b -> serializable p = false ->
  send type payload w =
    (Ret tt,
     set_console
       (console w ++
          [LogError ("Failed to send message: " +:+ type)
                    (TypeError "Do not know how to serialize a BigInt")]) w).
Proof.
  intros Hb Hp.
  unfold send, bind, gets, try_catch, JSON_stringify, envelope; simpl.
  rewrite Hb; simpl. rewrite Hp; simpl. reflexivity.
Qed.

Lemma send_refused w b e :
  bridge w = Some b -> serializable p = true -> b (Text (envelope type p)) = Some e ->
  send type payload w =
    (Ret tt,
     set_console (console w ++ [LogError ("Failed to send message: " +:+ type) e]) w).
Proof.
  intros Hb Hp He.
  unfold send, bind, gets, try_catch, JSON_stringify, postMessage, envelope in *; simpl.
  rewrite Hb; simpl. rewrite Hp; simpl. rewrite He. reflexivity.
Qed.

Lemma send_posted w b :
  bridge w = Some b -> serializable p = true -> b (Text (envelope type p)) = None ->
  send type payload w =
    (Ret tt, set_outbox (outbox w ++ [Text (envelope type p)]) w).
Proof.
  intros Hb Hp He.
  unfold send, bind, gets, try_catch, JSON_stringify, postMessage, envelope in *; simpl.
  rewrite Hb; simpl. rewrite Hp; simpl. rewrite He. reflexivity.
Qed.

(** The four ways a call of [send] ends. *)
Lemma send_cases w :
  send type payload w = (Ret tt, set_outbox (outbox w ++ [Text (envelope type p)]) w)
  \/ exists entry, send type payload w = (Ret tt, set_console (console w ++ [entry]) w).
Proof.
  destruct (bridge w) as [b|] eqn:Hb.
  - destruct (serializable p) eqn:Hp.
    + destruct (b (Text (envelope type p))) as [e|] eqn:He.
      * right. eexists. now apply (send_refused w b e).
      * left. now apply (send_posted w b).
    + right. eexists. now apply (send_unserializable w b).
  - right. eexists. now apply send_without_bridge.
Qed.
End Send.

(** C1 (as amended): when the bridge is there, the payload can be
    serialised and the bridge takes the text, [send(type, payload)] posts
    one message, the text of the object [{ type, payload }]: its fields
    are [type] and [payload], in this order, and no other; there is no
    [schema_version]. *)
Theorem send_posts_type_and_payload (type : string) (payload : Value) (w : World) (b : Bridge) :
  bridge w = Some b ->
  serializable payload = true ->
  b (Text (envelope type payload)) = None ->
  exists msg,
    send type (Some payload) w = (Ret tt, set_outbox (outbox w ++ [msg]) w)
    /\ fields_of (denotes msg) = ["type"; "payload"]
    /\ field "type" (denotes msg) = Some (VStr type)
    /\ field "payload" (denotes msg) = Some payload
    /\ field "schema_version" (denotes msg) = None.
Proof.
  intros Hb Hp He. exists (Text (envelope type payload)).
  split; [now apply (send_posted type (Some payload) w b) | ].
  repeat split; reflexivity.
Qed.

(** C10: [send] returns normally whatever its arguments and the world.
    Without a bridge it warns and posts nothing; with one it either posts
    the message, or logs the exception of the serialiser or of
    [postMessage] and posts nothing.  Nothing but the console and the
    outbox changes. *)
Theorem send_never_throws (type : string) (payload : option Value) (w : World) :
  exists w',
    send type payload w = (Ret tt, w')
    /\ heap w' = heap w /\ state w' = state w /\ menuState w' = menuState w
    /\ elements w' = elements w /\ body w' = body w
    /\ match bridge w with
       | None =>
           outbox w' = outbox w
           /\ console w' =
                console w ++ [Warn ("Bridge not available. Attempted to send: " +:+ type)
                                   (default (VObj []) payload)]
       | Some b =>
           (outbox w' = outbox w ++ [Text (envelope type (default (VObj []) payload))]
            /\ console w' = console w)
           \/ (exists e,
                 outbox w' = outbox w
                 /\ console w' =
                      console w ++ [LogError ("Failed to send message: " +:+ type) e])
       end.
Proof.
  destruct (bridge w) as [b|] eqn:Hb.
  - destruct (serializable (default (VObj []) payload)) eqn:Hp.
    + destruct (b (Text (envelope type (default (VObj []) payload)))) as [e|] eqn:He.
      * eexists. split; [now apply (send_refused type payload w b e) | ].
        repeat split. right. exists e. split; reflexivity.
      * eexists. split; [now apply (send_posted type payload w b) | ].
        repeat split. left. split; reflexivity.
    + eexists. split; [now apply (send_unserializable type payload w b) | ].
      repeat split. right. eexists. split; reflexivity.
  - eexists. split; [now apply send_without_bridge | ]. repeat split.
Qed.

(** ** What a fragment may do to the world *)

Section Steps.
Context (R : World -> World -> Prop) `{!PreOrder R}.

Lemma steps_ret {A} (a : A) : steps R (ret a).
Proof. intros w. simpl. reflexivity. Qed.

Lemma steps_throw {A} (e : Error) : steps R (@throw A e).
Proof. intros w. simpl. reflexivity. Qed.

Lemma steps_out_of_fuel {A} : steps R (@out_of_fuel A).
Proof. intros w. simpl. reflexivity. Qed.

Lemma steps_gets {A} (f : World -> A) : steps R (gets f).
Proof. intros w. simpl. reflexivity. Qed.

Lemma steps_bind {A B} (m : M A) (k : A -> M B) :
  steps R m -> (forall a, steps R (k a)) -> steps R (bind m k).
Proof.
  intros Hm Hk w. unfold bind. specialize (Hm w).
  destruct (m w) as [[a | e | ] w']; simpl in *; try assumption.
  etransitivity; [exact Hm | apply Hk].
Qed.

Lemma steps_try_catch {A} (m : M A) (h : Error -> M A) :
  steps R m -> (forall e, steps R (h e)) -> steps R (try_catch m h).
Proof.
  intros Hm Hh w. unfold try_catch. specialize (Hm w).
  destruct (m w) as [[a | e | ] w']; simpl in *; try assumption.
  etransitivity; [exact Hm | apply Hh].
Qed.

Lemma steps_when (b : bool) (m : M unit) : steps R m -> steps R (when b m).
Proof. destruct b; simpl; [tauto | intros _; apply steps_ret]. Qed.

Lemma steps_for_of {A} (items : list A) (f : A -> M unit) :
  (forall x, steps R (f x)) -> steps R (for_of items f).
Proof.
  intros Hf. induction items as [ | x rest IH]; simpl.
  - apply steps_ret.
  - apply steps_bind; [apply Hf | intros _; exact IH].
Qed.

Lemma steps_fold_of {A B} (items : list A) (acc : B) (f : B -> A -> M B) :
  (forall acc x, steps R (f acc x)) -> steps R (fold_of items acc f).
Proof.
  intros Hf. revert acc. induction items as [ | x rest IH]; simpl; intros acc.
  - apply steps_ret.
  - apply steps_bind; [apply Hf | intros acc'; apply IH].
Qed.

Lemma steps_modify (g : World -> World) :
  (forall w, R w (g w)) -> steps R (modify g).
Proof. intros Hg w. simpl. apply Hg. Qed.
End Steps.

(** Decomposing a fragment along its structure; what is left are the
    primitive updates and the calls of other fragments. *)
Ltac preorder_solve := try match goal with |- PreOrder _ => exact _ end.

Ltac steps_split_with leaf :=
  repeat first
    [ leaf
    | apply steps_ret; preorder_solve
    | apply steps_throw; preorder_solve
    | apply steps_out_of_fuel; preorder_solve
    | apply steps_gets; preorder_solve
    | apply steps_bind; preorder_solve; [ | intros ? ]
    | apply steps_try_catch; preorder_solve; [ | intros ? ]
    | apply steps_when; preorder_solve
    | apply steps_for_of; preorder_solve; intros ?
    | apply steps_fold_of; preorder_solve; intros ? ?
    | match goal with
      | |- steps _ (match ?x with _ => _ end) => destruct x
      | |- steps _ (if ?x then _ else _) => destruct x
      end ].

Ltac steps_split := steps_split_with fail.

#[local] Instance keeps_preorder {X} (f : World -> X) : PreOrder (keeps f).
Proof. split; unfold keeps; [intros w; reflexivity | intros a b c H1 H2; congruence]. Qed.

#[local] Instance posts_preorder (P : JsonText -> Prop) : PreOrder (posts P).
Proof.
  split.
  - intros w. exists []. split; [now rewrite app_nil_r | constructor].
  - intros a b c [n1 [H1 F1]] [n2 [H2 F2]]. exists (n1 ++ n2). split.
    + rewrite H2, H1. now rewrite app_assoc.
    + apply Forall_app; split; assumption.
Qed.

Lemma keeps_outbox_posts {A} (P : JsonText -> Prop) (m : M A) :
  steps (keeps outbox) m -> steps (posts P) m.
Proof.
  intros H w. exists []. specialize (H w). unfold keeps in H.
  rewrite H. split; [now rewrite app_nil_r | constructor].
Qed.

Create HintDb steps.
#[local] Hint Resolve frame_state frame_body frame_heap frame_menuState frame_tabs
  frame_address frame_sidebarToggle frame_brandIcon frame_paletteInput
  frame_paletteResults frame_tabMenu frame_navBack frame_navForward frame_navReload : steps.

Ltac steps_auto := steps_split; eauto with steps.

Section Framing.
Context (R : World -> World -> Prop) `{!Frame R}.

Lemma steps_deref l : steps R (deref l).
Proof. unfold deref. steps_auto. Qed.

Lemma steps_alloc n : steps R (alloc n).
Proof. unfold alloc. steps_auto. Qed.

Lemma steps_write_favicon_uri l v : steps R (write_favicon_uri l v).
Proof. unfold write_favicon_uri, deref. steps_auto. Qed.

Hint Resolve steps_deref steps_alloc steps_write_favicon_uri : steps.

Lemma steps_buildRow n d : steps R (buildRow n d).
Proof. unfold buildRow. steps_auto. Qed.
Hint Resolve steps_buildRow : steps.

Lemma steps_renderNodes fuel :
  forall nodes depth fragment, steps R (renderNodes fuel nodes depth fragment).
Proof. induction fuel as [ | fuel IH]; intros; simpl; steps_auto. Qed.

Lemma steps_syncCollapsedTabTitles c : steps R (syncCollapsedTabTitles c).
Proof. unfold syncCollapsedTabTitles. steps_auto. Qed.
Hint Resolve steps_renderNodes steps_syncCollapsedTabTitles : steps.

Lemma steps_renderTabs fuel nodes : steps R (renderTabs fuel nodes).
Proof. unfold renderTabs. steps_auto. Qed.

Lemma steps_findActive fuel : forall nodes id, steps R (findActive fuel nodes id).
Proof.
  induction fuel as [ | fuel IH]; intros nodes id; simpl; [steps_auto | ].
  induction nodes as [ | node rest IHn]; steps_auto.
Qed.

Lemma steps_filterNodes fuel : forall nodes query, steps R (filterNodes fuel nodes query).
Proof.
  induction fuel as [ | fuel IH]; intros nodes query; simpl; steps_auto.
Qed.

Lemma steps_updateTreeFavicon fuel :
  forall nodes ids uri, steps R (updateTreeFavicon fuel nodes ids uri).
Proof. induction fuel as [ | fuel IH]; intros; simpl; steps_auto. Qed.

Lemma steps_closeTabMenu : steps R closeTabMenu.
Proof. unfold closeTabMenu. steps_auto. Qed.

Hint Resolve steps_renderTabs steps_findActive steps_filterNodes steps_updateTreeFavicon
  steps_closeTabMenu : steps.

Lemma steps_applyState fuel p : steps R (applyState fuel p).
Proof. unfold applyState. steps_auto. Qed.

Lemma steps_applyAssets p : steps R (applyAssets p).
Proof. unfold applyAssets. steps_auto. Qed.

Lemma steps_applyFaviconUpdate fuel p : steps R (applyFaviconUpdate fuel p).
Proof. unfold applyFaviconUpdate. steps_auto. Qed.

Lemma steps_applySidebarState c : steps R (applySidebarState c).
Proof. unfold applySidebarState. steps_auto. Qed.

Lemma steps_applyNavState `{!FrameNav R} p : steps R (applyNavState p).
Proof. unfold applyNavState. steps_auto. Qed.

Lemma steps_setupEventHandlers `{!FrameNav R} : steps R setupEventHandlers.
Proof. unfold setupEventHandlers. steps_auto. Qed.
End Framing.

Lemma prototype_has_no_closure key run :
  own_property key Object_prototype <> Some (Closure run).
Proof.
  unfold Object_prototype; simpl.
  repeat match goal with
         | |- context [String.eqb key ?k] => destruct (String.eqb key k)
         end; discriminate.
Qed.

Section Listeners.
Context (R : World -> World -> Prop) `{!Frame R}.

Lemma steps_property obj key :
  closures_step R obj ->
  match get_property obj key with Closure run => steps R run | _ => True end.
Proof.
  intros Hobj. unfold get_property.
  destruct (own_property key obj) as [v | ] eqn:Hown.
  - induction Hobj as [ | [k v'] rest Hv _ IH]; simpl in Hown; [discriminate | ].
    destruct (String.eqb key k); [ | now apply IH].
    injection Hown as <-. exact Hv.
  - pose proof (prototype_has_no_closure key) as Hp.
    destruct (own_property key Object_prototype) as [[ | run | | ] | ]; simpl; try exact I.
    now destruct (Hp run).
Qed.

Lemma steps_optional_call_property obj key :
  closures_step R obj -> steps R (optional_call (get_property obj key)).
Proof.
  intros Hobj. pose proof (steps_property obj key Hobj) as H.
  destruct (get_property obj key) as [ | run | [e | ] | ]; simpl;
    first [exact H | steps_split].
Qed.

Lemma steps_call_property obj key :
  closures_step R obj -> steps R (call (get_property obj key)).
Proof.
  intros Hobj. pose proof (steps_property obj key Hobj) as H.
  destruct (get_property obj key) as [ | run | [e | ] | ]; simpl;
    first [exact H | steps_split].
Qed.

Lemma steps___owl_receive_but_nav fuel message :
  (forall p, message <> Some (StateNav p)) ->
  steps R (__owl_receive fuel message).
Proof.
  intros Hnav. unfold __owl_receive.
  destruct message as [m | ]; [ | steps_split].
  destruct (negb (truthy (type_of m))); [steps_split | ].
  apply steps_optional_call_property.
  repeat constructor; cbn [snd];
    first [ apply steps_applyState; exact _ | apply steps_applyAssets; exact _
          | apply steps_applyFaviconUpdate; exact _
          | apply steps_applySidebarState; exact _ | idtac ].
  destruct m as [p | p | p | p | p | type p]; simpl; try (steps_split; fail).
  now destruct (Hnav p).
Qed.

Lemma steps___owl_receive `{!FrameNav R} fuel message :
  steps R (__owl_receive fuel message).
Proof.
  unfold __owl_receive.
  destruct message as [m | ]; [ | steps_split].
  destruct (negb (truthy (type_of m))); [steps_split | ].
  apply steps_optional_call_property.
  repeat constructor; cbn [snd];
    first [ apply steps_applyState; exact _ | apply steps_applyNavState; exact _
          | apply steps_applyAssets; exact _ | apply steps_applyFaviconUpdate; exact _
          | apply steps_applySidebarState; exact _ ].
Qed.

Hypothesis steps_send :
  forall type payload, In type COMMAND_TYPES -> steps R (send type payload).

Ltac send_leaf :=
  idtac;
  match goal with
  | |- steps _ (send _ _) => apply steps_send; simpl; tauto
  end.

Ltac send_auto :=
  steps_split_with send_leaf;
  first [ apply steps_applySidebarState; exact _
        | apply steps_closeTabMenu; exact _
        | apply steps_renderTabs; exact _
        | apply steps_filterNodes; exact _
        | apply steps_deref; exact _
        | solve [eauto with steps]
        | idtac ].

Lemma steps_setSidebarCollapsed c : steps R (setSidebarCollapsed c).
Proof. unfold setSidebarCollapsed. send_auto. Qed.

Lemma steps_navigateFromAddress : steps R navigateFromAddress.
Proof. unfold navigateFromAddress. send_auto. Qed.

Lemma steps_COMMANDS : Forall (fun cmd => steps R (run cmd)) COMMANDS.
Proof.
  repeat constructor; simpl; unfold focus_address; send_auto.
Qed.

Lemma steps_run cmd : In cmd COMMANDS -> steps R (run cmd).
Proof. intros H. exact (proj1 (List.Forall_forall _ _) steps_COMMANDS cmd H). Qed.

Lemma steps_renderPaletteResults_bind {A} query (k : list Command -> M A) :
  (forall results, (forall cmd, In cmd results -> In cmd COMMANDS) -> steps R (k results)) ->
  steps R (bind (renderPaletteResults query) k).
Proof.
  intros Hk w.
  set (results :=
         List.filter (fun cmd => includes (toLowerCase (label cmd)) (toLowerCase (trim query)))
                     COMMANDS).
  assert (Hres : forall cmd, In cmd results -> In cmd COMMANDS).
  { intros cmd H. apply List.filter_In in H. tauto. }
  unfold renderPaletteResults. fold results.
  unfold bind, gets, modify_elements, modify, ret.
  destruct (paletteResults (elements w)) as [items | ]; simpl.
  - etransitivity; [ | apply (Hk results Hres)].
    apply (frame_paletteResults
             (Some (imap (fun index cmd =>
                            (label cmd, Z.of_nat index =? paletteIndex (state w))) results)) w).
  - apply (Hk results Hres).
Qed.

Lemma steps_closePalette : steps R closePalette.
Proof. unfold closePalette. send_auto. Qed.

Lemma steps_openPalette : steps R openPalette.
Proof.
  unfold openPalette. steps_split; eauto with steps.
Qed.

Lemma steps_openTabMenu id : steps R (openTabMenu id).
Proof. unfold openTabMenu. send_auto. Qed.

Lemma steps_tabMenu_click action : steps R (tabMenu_click action).
Proof. unfold tabMenu_click. send_auto. Qed.

Lemma at_index_In {A} (l : list A) i x : at_index l i = Some x -> In x l.
Proof.
  unfold at_index. destruct (i <? 0); [discriminate | ].
  intros H. apply list_elem_of_In. now apply list_elem_of_lookup_2 in H.
Qed.

Lemma steps_palette_keydown key : steps R (palette_keydown key).
Proof.
  unfold palette_keydown. apply steps_bind; [exact _ | steps_split | intros el].
  apply steps_renderPaletteResults_bind. intros results Hres.
  apply steps_optional_call_property.
  repeat constructor; simpl.
  - steps_split; eauto with steps.
  - steps_split; eauto with steps.
  - apply steps_bind; [exact _ | steps_split | intros st].
    destruct (at_index results (paletteIndex st)) as [cmd | ] eqn:Hcmd.
    + apply steps_bind; [exact _ | | intros _; apply steps_closePalette].
      apply steps_run, Hres. now apply at_index_In in Hcmd.
    + send_auto.
  - apply steps_closePalette.
Qed.

Lemma steps_window_keydown modKey key : steps R (window_keydown modKey key).
Proof.
  unfold window_keydown.
  assert (Hobj : closures_step R
            [("l", Closure focus_address); ("k", Closure openPalette);
             ("p", Closure openPalette)]).
  { repeat constructor; simpl; [unfold focus_address; steps_split | | ];
      apply steps_openPalette. }
  apply steps_bind; [exact _ | | intros _].
  - apply steps_when; [exact _ | ]. now apply steps_call_property.
  - send_auto.
Qed.

Lemma steps_tabs_keydown key : steps R (tabs_keydown key).
Proof. unfold tabs_keydown. send_auto. Qed.

Ltac listener_leaf :=
  idtac;
  match goal with
  | |- steps _ (send (if ?c then _ else _) _) => destruct c
  | |- steps _ (send _ _) => apply steps_send; simpl; tauto
  | |- steps _ (filterNodes _ _ _) => apply steps_filterNodes; exact _
  | |- steps _ (renderTabs _ _) => apply steps_renderTabs; exact _
  | |- steps _ closeTabMenu => apply steps_closeTabMenu; exact _
  | |- steps _ closePalette => apply steps_closePalette
  | |- steps _ (openTabMenu _) => apply steps_openTabMenu
  | |- steps _ (palette_keydown _) => apply steps_palette_keydown
  | |- steps _ (window_keydown _ _) => apply steps_window_keydown
  | |- steps _ (tabMenu_click _) => apply steps_tabMenu_click
  | |- steps _ (tabs_keydown _) => apply steps_tabs_keydown
  | |- steps _ navigateFromAddress => apply steps_navigateFromAddress
  | |- steps _ (setSidebarCollapsed _) => apply steps_setSidebarCollapsed
  end.

Lemma steps_fire_but_setup fuel l : l <> DOMContentLoaded -> steps R (fire fuel l).
Proof.
  intros Hl. unfold fire.
  apply steps_bind; [exact _ | steps_split | intros el].
  apply steps_bind; [exact _ | steps_split | intros st].
  destruct l; try (now destruct Hl);
    try solve [steps_split_with listener_leaf; eauto with steps].
  destruct (default [] (paletteResults el) !! index) as [[item active] | ];
    [ | steps_split].
  destruct (List.find _ COMMANDS) as [cmd | ] eqn:Hfind; [ | steps_split].
  apply steps_bind; [exact _ | | intros _; apply steps_closePalette].
  apply steps_run. now apply List.find_some in Hfind.
Qed.

Lemma steps_fire `{!FrameNav R} fuel l : steps R (fire fuel l).
Proof.
  destruct l; try (apply steps_fire_but_setup; discriminate).
  unfold fire.
  apply steps_bind; [exact _ | steps_split | intros el].
  apply steps_bind; [exact _ | steps_split | intros st].
  apply steps_bind; [exact _ | apply steps_setupEventHandlers; exact _ | intros _].
  apply steps_send. simpl; tauto.
Qed.

Lemma steps_act `{!FrameNav R} fuel a : steps R (act fuel a).
Proof. destruct a; simpl; [apply steps___owl_receive; exact _ | apply steps_fire; exact _]. Qed.
End Listeners.

#[local] Instance keeps_outbox_frame : Frame (keeps outbox).
Proof. split; try exact _; intros; intros w; reflexivity. Qed.

#[local] Instance keeps_outbox_frame_nav : FrameNav (keeps outbox).
Proof. split; intros; intros w; reflexivity. Qed.

#[local] Instance keeps_reload_button_frame : Frame (keeps reload_button).
Proof. split; try exact _; intros; intros w; reflexivity. Qed.

#[local] Instance posts_frame (P : JsonText -> Prop) : Frame (posts P).
Proof.
  split; try exact _; intros; apply keeps_outbox_posts; intros w; reflexivity.
Qed.

#[local] Instance posts_frame_nav (P : JsonText -> Prop) : FrameNav (posts P).
Proof. split; intros; apply keeps_outbox_posts; intros w; reflexivity. Qed.

Lemma send_keeps_reload_button type payload : steps (keeps reload_button) (send type payload).
Proof.
  intros w. destruct (send_cases type payload w) as [H | [entry H]]; rewrite H; reflexivity.
Qed.

Lemma send_posts_command type payload :
  In type COMMAND_TYPES -> steps (posts command_message) (send type payload).
Proof.
  intros Ht w. destruct (send_cases type payload w) as [H | [entry H]]; rewrite H; simpl.
  - eexists. split; [reflexivity | ]. repeat constructor. exists type. now split.
  - exists []. split; [now rewrite app_nil_r | constructor].
Qed.

(** C5: whatever the host sends and the user does, in whatever order and
    on whatever page, each message a call posts on the bridge has a
    [type] among the fifteen inbound commands; so has every message of
    the outbox at any time. *)
Theorem emitted_commands_enumerated :
  (forall fuel a w,
      exists new,
        outbox (snd (act fuel a w)) = outbox w ++ new /\ Forall command_message new)
  /\ (forall fuel actions el b,
        Forall command_message (outbox (run_actions fuel actions (initial_world el b)))).
Proof.
  assert (Hact : forall fuel a, steps (posts command_message) (act fuel a)).
  { intros fuel a. apply steps_act; try exact _. apply send_posts_command. }
  split; [exact Hact | ].
  intros fuel actions el b.
  assert (Hgen : forall w, Forall command_message (outbox w) ->
                           Forall command_message (outbox (run_actions fuel actions w))).
  { induction actions as [ | a rest IH]; intros w Hw; simpl; [exact Hw | ].
    apply IH. destruct (Hact fuel a w) as [new [Hnew Hall]]. rewrite Hnew.
    apply Forall_app. now split. }
  apply Hgen. constructor.
Qed.

(** ** Navigation state *)

Lemma leaves_nav_keeps_reload_button fuel a :
  leaves_nav a = true -> steps (keeps reload_button) (act fuel a).
Proof.
  intros Ha. destruct a as [message | l]; simpl.
  - apply steps___owl_receive_but_nav; [exact _ | ].
    intros p ->. discriminate Ha.
  - apply steps_fire_but_setup; [exact _ | intros; apply send_keeps_reload_button | ].
    intros ->. discriminate Ha.
Qed.

Lemma run_leaves_nav_keeps_reload_button fuel actions w :
  forallb leaves_nav actions = true ->
  reload_button (run_actions fuel actions w) = reload_button w.
Proof.
  revert w. induction actions as [ | a rest IH]; intros w H; simpl in *; [reflexivity | ].
  apply andb_prop in H as [Ha Hrest].
  rewrite (IH _ Hrest). now apply leaves_nav_keeps_reload_button.
Qed.

Lemma applyNavState_nav_applied nav w :
  applyNavState (Some nav) w = (Ret tt, nav_applied nav w).
Proof.
  destruct w as [h st ms el bd co br ob].
  destruct el as [tb ad g nt hm nbk nfw nrl sbt bi ts pb pi pr tm].
  unfold applyNavState, nav_applied, bind, gets, modify_elements, modify_body, modify, ret.
  simpl. destruct nbk, nfw, nrl, (is_loading nav); reflexivity.
Qed.

(** C6: after [applyNavState(nav)], the Back button is disabled exactly
    when [can_go_back] is false, the Forward button exactly when
    [can_go_forward] is false, and the reload button is in stop mode
    exactly when [is_loading] is true.  Until the next message of type
    [state.nav], whatever the host sends and the user does in between,
    a click on the reload button is [send("nav.stop")] if [is_loading]
    was true and [send("nav.reload")] otherwise. *)
Theorem applyNavState_controls (nav : NavPayload) (w : World) :
  exists w',
    applyNavState (Some nav) w = (Ret tt, w')
    /\ (forall b, navBack (elements w) = Some b ->
          exists b', navBack (elements w') = Some b'
                     /\ (nb_disabled b' = true <-> can_go_back nav = false))
    /\ (forall b, navForward (elements w) = Some b ->
          exists b', navForward (elements w') = Some b'
                     /\ (nb_disabled b' = true <-> can_go_forward nav = false))
    /\ (forall r, navReload (elements w) = Some r ->
          exists r', navReload (elements w') = Some r'
                     /\ (rb_mode r' = "stop" <-> is_loading nav = true)
                     /\ forall fuel actions,
                          forallb leaves_nav actions = true ->
                          let w'' := run_actions fuel actions w' in
                          fire fuel NavReloadClick w''
                          = send (if is_loading nav then "nav.stop" else "nav.reload")
                                 None w'').
Proof.
  exists (nav_applied nav w). split; [apply applyNavState_nav_applied | ].
  split; [ | split].
  - intros b Hb. unfold nav_applied; simpl. rewrite Hb; simpl.
    eexists; split; [reflexivity | ]. simpl.
    destruct (can_go_back nav); simpl; split; congruence.
  - intros b Hb. unfold nav_applied; simpl. rewrite Hb; simpl.
    eexists; split; [reflexivity | ]. simpl.
    destruct (can_go_forward nav); simpl; split; congruence.
  - intros r Hr.
    assert (Hr' : reload_button (nav_applied nav w) =
                  Some (if is_loading nav
                        then {| rb_textContent := "Stop"; rb_mode := "stop";
                                rb_ariaLabel := "Stop" |}
                        else {| rb_textContent := "Reload"; rb_mode := "reload";
                                rb_ariaLabel := "Reload" |})).
    { unfold reload_button, nav_applied; simpl. now rewrite Hr. }
    eexists. split; [exact Hr' | ]. split.
    + destruct (is_loading nav); simpl; split; congruence.
    + intros fuel actions Hq w''.
      assert (Hr'' : navReload (elements w'') = reload_button (nav_applied nav w)).
      { subst w''. now rewrite <- (run_leaves_nav_keeps_reload_button fuel actions _ Hq). }
      rewrite Hr' in Hr''. unfold fire, bind, gets. simpl. rewrite Hr''.
      destruct (is_loading nav); reflexivity.
Qed.

(** ** Inbound messages that are not state updates *)

(** C2 (as amended): a malformed inbound message is dropped in silence:
    [__owl_receive] returns normally and leaves the whole world as it
    was, the console included, so nothing is logged and no state is
    changed; whatever comes next is processed as if the message had
    never arrived. *)
Theorem malformed_message_dropped (fuel : nat) (message : option Message) (w : World) :
  malformed message = true ->
  __owl_receive fuel message w = (Ret tt, w)
  /\ forall rest, run_actions fuel (Receive message :: rest) w = run_actions fuel rest w.
Proof.
  intros Hm.
  assert (H : __owl_receive fuel message w = (Ret tt, w)).
  { unfold __owl_receive. destruct message as [m | ]; [ | reflexivity].
    simpl in Hm. now rewrite Hm. }
  split; [exact H | ]. intros rest. simpl. now rewrite H.
Qed.

(** A message of a type without a handler never changes the world; it
    returns normally unless its type names one of three inherited
    properties. *)
Lemma unhandled_message_keeps_world fuel type payload w :
  ~ In type handled_types ->
  snd (__owl_receive fuel (Some (Other type payload)) w) = w
  /\ (~ In type throwing_names ->
      fst (__owl_receive fuel (Some (Other type payload)) w) = Ret tt).
Proof.
  intros Hh. unfold __owl_receive; simpl.
  destruct (truthy type); simpl; [ | now split].
  unfold get_property; simpl.
  repeat match goal with
         | |- context [String.eqb type ?k] =>
             destruct (String.eqb_spec type k) as [-> | ?];
             [ try (exfalso; apply Hh; simpl; tauto) | ]
         end; simpl;
    (split; [reflexivity | ]); intros Ht; try reflexivity;
    exfalso; apply Ht; simpl; tauto.
Qed.

(** C3 fails on the code: a message of type [__proto__] has no handler,
    yet [__owl_receive] throws a [TypeError], because the lookup in
    [messageHandlers] finds [Object.prototype], which is not a function.
    The state is left unchanged all the same. *)
Theorem proto_message_throws (fuel : nat) (payload : option Value) (w : World) :
  ~ In "__proto__" handled_types
  /\ __owl_receive fuel (Some (Other "__proto__" payload)) w
     = (Throw (TypeError "is not a function"), w).
Proof.
  split; [ | reflexivity].
  simpl. intros H. repeat destruct H as [H | H]; try discriminate; exact H.
Qed.

(** ** Heights and layouts *)

Lemma height_T n : height (T n) = S (forest_height (Node.children n)).
Proof. reflexivity. Qed.

Lemma forest_height_cons t ts :
  forest_height (t :: ts) = Nat.max (height t) (forest_height ts).
Proof. reflexivity. Qed.

Lemma forest_at_length h locs ts : forest_at h locs ts -> length locs = length ts.
Proof. apply Forall2_length. Qed.

Lemma forest_at_nonempty h locs ts : forest_at h locs ts -> nonempty locs = nonempty ts.
Proof. intros H. destruct H; reflexivity. Qed.

Lemma maps_visible_nil h M : maps_visible h [] M M.
Proof. repeat split; auto. intros dt []. Qed.

Lemma maps_visible_app h v1 v2 M0 M1 M2 :
  maps_visible h v1 M0 M1 -> maps_visible h v2 M1 M2 -> maps_visible h (v1 ++ v2) M0 M2.
Proof.
  intros (A1 & B1 & C1) (A2 & B2 & C2). repeat split.
  - intros id l H. destruct (A2 id l H) as [H1 | (dt & Hin & Hid & Hat)].
    + destruct (A1 id l H1) as [H0 | (dt & Hin & Hid & Hat)]; [now left | right].
      exists dt. rewrite in_app_iff. auto.
    + right. exists dt. rewrite in_app_iff. auto.
  - intros id H. auto.
  - intros dt H. apply in_app_iff in H as [H | H]; auto.
Qed.

Lemma maps_visible_insert h d t l M :
  tree_at h l t -> maps_visible h [(d, t)] M (<[tree_id t := l]> M).
Proof.
  intros Hat. repeat split.
  - intros id l' H. destruct (decide (tree_id t = id)) as [<- | Hne].
    + rewrite lookup_insert_eq in H. injection H as <-. right.
      exists (d, t). simpl. auto.
    + rewrite lookup_insert_ne in H by exact Hne. now left.
  - intros id H. destruct (decide (tree_id t = id)) as [<- | Hne].
    + rewrite lookup_insert_eq. eauto.
    + now rewrite lookup_insert_ne.
  - intros dt [<- | []]. unfold vis_id; simpl. rewrite lookup_insert_eq. eauto.
Qed.

Lemma row_for_with_children {C D} st (n : Node.t (list C)) (c : list D) d :
  nonempty c = nonempty (Node.children n) ->
  row_for st (Node.with_children c n) d = row_for st n d.
Proof. intros H. unfold row_for; simpl. now rewrite H. Qed.

Lemma rows_of_rendered ids M w vis :
  rows_of (state (rendered ids M w)) vis = rows_of (state w) vis.
Proof. reflexivity. Qed.

Lemma rendered_rendered ids1 M1 ids2 M2 w :
  rendered ids2 M2 (rendered ids1 M1 w) = rendered (ids1 ++ ids2) M2 w.
Proof. unfold rendered; simpl. now rewrite app_assoc. Qed.

Lemma bind_eq {A B} (m : M A) (k : A -> M B) w a w' :
  m w = (Ret a, w') -> bind m k w = k a w'.
Proof. intros H. unfold bind. now rewrite H. Qed.

Lemma flatTabs_rendered ids M w : flatTabs (state (rendered ids M w)) = flatTabs (state w) ++ ids.
Proof. reflexivity. Qed.

Lemma renderNodes_forest fuel :
  forall h ts locs,
    forest_at h locs ts -> (forest_height ts < fuel)%nat ->
    forall depth fragment w,
      heap w = h ->
      exists M',
        renderNodes fuel locs depth fragment w
          = (Ret (fragment ++ rows_of (state w) (flat_map (visible depth) ts)),
             rendered (map vis_id (flat_map (visible depth) ts)) M' w)
        /\ maps_visible h (flat_map (visible depth) ts) (tabMap (state w)) M'.
Proof.
  induction fuel as [ | fuel IH]; intros h ts locs Hat Hh; [lia | ].
  simpl renderNodes.
  induction Hat as [ | l t locs ts Hl Hrest IHrest]; intros depth fragment w Hw.
  - exists (tabMap (state w)). simpl. split; [ | apply maps_visible_nil].
    unfold ret, rendered. rewrite !app_nil_r.
    destruct w as [hp [f a s p pe pk df tm q lt la] ms el bd co br ob]; reflexivity.
  - rewrite forest_height_cons in Hh.
    pose proof Hl as Hl'.
    destruct Hl as [l n clocs Hlook Hkids].
    rewrite height_T in Hh.
    set (row := row_for (state w) n depth).
    set (w1 := rendered [Node.id n] (<[Node.id n := l]> (tabMap (state w))) w).
    assert (Hnode : exists M1,
      (let* n0 := deref l in
       let* row := buildRow n0 depth in
       modify_state (fun s => set_flatTabs (flatTabs s ++ [Node.id n0]) s);;
       modify_state (fun s => set_tabMap (<[Node.id n0 := l]> (tabMap s)) s);;
       if nonempty (Node.children n0) && Node.is_expanded n0
       then renderNodes fuel (Node.children n0) (S depth) (fragment ++ [row])
       else ret (fragment ++ [row])) w
      = (Ret (fragment ++ rows_of (state w) (visible depth (T n))),
         rendered (map vis_id (visible depth (T n))) M1 w)
      /\ maps_visible h (visible depth (T n)) (tabMap (state w)) M1).
    { unfold bind at 1. unfold deref, bind, gets. rewrite Hw, Hlook. unfold ret at 1.
      unfold buildRow, bind, gets, ret, modify_state, modify. cbn [Node.children Node.with_children Node.id Node.is_expanded].
      rewrite (row_for_with_children (state w) n clocs depth (forest_at_nonempty _ _ _ Hkids)).
      fold row. 
      change (set_state _ (set_state _ w)) with w1.
      pose proof (maps_visible_insert h depth (T n) l (tabMap (state w)) Hl') as Hins.
      destruct (nonempty clocs && Node.is_expanded n) eqn:Hexp.
      - apply andb_prop in Hexp as [Hne Hex].
        destruct (IH h (Node.children n) clocs Hkids ltac:(lia) (S depth)
                    (fragment ++ [row]) w1 Hw) as (M1 & Heq & Hmap).
        exists M1. rewrite Heq. cbn [visible]. rewrite Hex. split.
        + subst w1. rewrite rendered_rendered, rows_of_rendered.
          cbn [rows_of map fst snd root]. fold row.
          now rewrite <- app_assoc.
        + apply (maps_visible_app h [(depth, T n)] _ _ _ _ Hins Hmap).
      - exists (<[Node.id n := l]> (tabMap (state w))).
        assert (Hvis : visible depth (T n) = [(depth, T n)]).
        { cbn [visible]. destruct (Node.is_expanded n); [ | reflexivity].
          rewrite andb_true_r in Hexp.
          rewrite (forest_at_nonempty _ _ _ Hkids) in Hexp.
          destruct (Node.children n); [reflexivity | discriminate]. }
        rewrite Hvis. split; [reflexivity | exact Hins]. }
    destruct Hnode as (M1 & Hnode & Hmap1).
    simpl fold_of. rewrite (bind_eq _ _ _ _ _ Hnode).
    destruct (IHrest ltac:(lia) depth
                (fragment ++ rows_of (state w) (visible depth (T n)))
                (rendered (map vis_id (visible depth (T n))) M1 w) Hw)
      as (M2 & Heq & Hmap2).
    exists M2. rewrite Heq. split.
    + rewrite rendered_rendered, rows_of_rendered.
      cbn [flat_map]. unfold rows_of. rewrite !map_app, app_assoc. reflexivity.
    + cbn [flat_map]. exact (maps_visible_app _ _ _ _ _ _ Hmap1 Hmap2).
Qed.

Lemma tree_at_mono h h' :
  h `prefix_of` h' -> forall t l, tree_at h l t -> tree_at h' l t.
Proof.
  intros Hp. induction t as [n IH] using Tree_induction. intros l Hat.
  inversion Hat as [l0 n0 clocs Hlook Hkids]; subst.
  apply (tree_at_node h' l n clocs).
  - now apply (prefix_lookup_Some h h').
  - clear Hlook Hat. induction Hkids as [ | c k cs ks Hc Hcs IHks]; constructor.
    + apply Forall_cons in IH as [IHk _]. now apply IHk.
    + apply Forall_cons in IH as [_ IHr]. now apply IHks.
Qed.

Lemma forest_at_mono h h' locs ts :
  h `prefix_of` h' -> forest_at h locs ts -> forest_at h' locs ts.
Proof.
  intros Hp H. induction H; constructor; [now apply (tree_at_mono h h') | assumption].
Qed.

Lemma forest_at_app h l1 t1 l2 t2 :
  forest_at h l1 t1 -> forest_at h l2 t2 -> forest_at h (l1 ++ l2) (t1 ++ t2).
Proof. apply Forall2_app. Qed.

Lemma filterNodes_forest fuel :
  forall ts locs h query,
    forest_at h locs ts -> (forest_height ts < fuel)%nat -> truthy query = true ->
    forall w,
      heap w = h ->
      exists locs' h',
        filterNodes fuel locs query w = (Ret locs', set_heap h' w)
        /\ h `prefix_of` h'
        /\ forest_at h' locs' (flat_map (filter_tree (toLowerCase query)) ts).
Proof.
  induction fuel as [ | fuel IH]; intros ts locs h query Hat Hh Hq; [lia | ].
  simpl filterNodes. rewrite Hq. cbn [negb].
  set (needle := toLowerCase query).
  assert (Hloop : forall filtered w,
    h `prefix_of` heap w ->
    exists locs' h',
      fold_of locs filtered (fun filtered node =>
          let* n := deref node in
          let* children :=
            if nonempty (Node.children n) then filterNodes fuel (Node.children n) query
            else ret [] in
          if matches needle n || nonempty children
          then
            let* copy := alloc (spread_copy n children) in
            ret (filtered ++ [copy])
          else ret filtered) w
        = (Ret (filtered ++ locs'), set_heap h' w)
      /\ heap w `prefix_of` h'
      /\ forest_at h' locs' (flat_map (filter_tree needle) ts)).
  { induction Hat as [ | l t locs ts Hl Hrest IHrest]; intros filtered w Hpw.
    - exists [], (heap w). simpl. rewrite app_nil_r.
      split; [destruct w; reflexivity | ]. split; [reflexivity | constructor].
    - rewrite forest_height_cons in Hh.
      destruct Hl as [l n clocs Hlook Hkids]. rewrite height_T in Hh.
      assert (Hnode : exists new h1,
        (let* n0 := deref l in
         let* children :=
           if nonempty (Node.children n0) then filterNodes fuel (Node.children n0) query
           else ret [] in
         if matches needle n0 || nonempty children
         then
           let* copy := alloc (spread_copy n0 children) in
           ret (filtered ++ [copy])
         else ret filtered) w
        = (Ret (filtered ++ new), set_heap h1 w)
        /\ heap w `prefix_of` h1
        /\ forest_at h1 new (filter_tree needle (T n))).
      { assert (Hlook' : heap w !! l = Some (Node.with_children clocs n))
          by exact (prefix_lookup_Some _ _ _ _ Hlook Hpw).
        unfold bind at 1. unfold deref, bind, gets. cbv beta.
        rewrite Hlook'. unfold ret at 1.
        cbn [Node.children Node.with_children].
        assert (Hc : exists clocs' hc,
          (if nonempty clocs then filterNodes fuel clocs query else ret []) w
            = (Ret clocs', set_heap hc w)
          /\ heap w `prefix_of` hc
          /\ forest_at hc clocs' (flat_map (filter_tree needle) (Node.children n))).
        { destruct clocs as [ | c clocs].
          - inversion Hkids as [ | ]; subst. exists [], (heap w). simpl.
            split; [destruct w; reflexivity | ]. split; [reflexivity | constructor].
          - cbn [nonempty].
            apply (IH (Node.children n) (c :: clocs) (heap w) query); try assumption;
              [ | lia | reflexivity].
            now apply (forest_at_mono h (heap w)). }
        destruct Hc as (clocs' & hc & Hceq & Hpc & Hfc). rewrite Hceq.
        change (matches needle (Node.with_children clocs n)) with (matches needle n).
        cbn [filter_tree]. rewrite <- (forest_at_nonempty _ _ _ Hfc).
        destruct (matches needle n || nonempty clocs') eqn:Hk.
        - unfold alloc, bind, gets, modify, ret. simpl.
          exists [length hc], (hc ++ [spread_copy (Node.with_children clocs n) clocs']).
          split; [reflexivity | ]. split.
          + etransitivity; [exact Hpc | now apply prefix_app_r].
          + constructor; [ | constructor].
            apply (tree_at_node _ _ _ clocs').
            * rewrite lookup_app_r by lia. now rewrite Nat.sub_diag.
            * apply (forest_at_mono hc); [now apply prefix_app_r | exact Hfc].
        - exists [], hc. rewrite app_nil_r. split; [reflexivity | ].
          split; [exact Hpc | constructor]. }
      destruct Hnode as (new & h1 & Hnode & Hp1 & Hf1).
      simpl fold_of. rewrite (bind_eq _ _ _ _ _ Hnode). cbv beta.
      destruct (IHrest ltac:(lia) (filtered ++ new) (set_heap h1 w)) as (locs' & h2 & Heq & Hp2 & Hf2).
      { simpl. now transitivity (heap w). }
      exists (new ++ locs'), h2. rewrite Heq. simpl in Hp2. split; [ | split].
      + now rewrite app_assoc.
      + now transitivity h1.
      + cbn [flat_map]. apply forest_at_app; [ | exact Hf2].
        now apply (forest_at_mono h1). }
  intros w Hw. destruct (Hloop [] w) as (locs' & h' & Heq & Hp & Hf).
  { now rewrite Hw. }
  exists locs', h'. rewrite Hw in Hp. auto.
Qed.

(** ** The filter, as the loop runs it and as the specification words it *)

Lemma keep_map_filter needle (l : list Tree) :
  flat_map (fun k => if kept needle k then [prune needle k] else []) l
  = map (prune needle) (List.filter (kept needle) l).
Proof.
  induction l as [ | k l IH]; simpl; [reflexivity | ].
  destruct (kept needle k); simpl; now rewrite IH.
Qed.

Lemma nonempty_keep needle (l : list Tree) :
  nonempty (flat_map (fun k => if kept needle k then [prune needle k] else []) l)
  = existsb (kept needle) l.
Proof.
  induction l as [ | k l IH]; simpl; [reflexivity | ].
  destruct (kept needle k); simpl; [reflexivity | exact IH].
Qed.

Lemma filter_tree_kept needle t :
  filter_tree needle t = if kept needle t then [prune needle t] else [].
Proof.
  induction t as [n IH] using Tree_induction.
  assert (Hk : flat_map (filter_tree needle) (Node.children n)
               = flat_map (fun k => if kept needle k then [prune needle k] else [])
                          (Node.children n)).
  { induction IH as [ | k l Hk _ IHl]; simpl; [reflexivity | ]. now rewrite Hk, IHl. }
  cbn [filter_tree kept prune]. rewrite Hk, nonempty_keep.
  destruct (matches needle n || existsb (kept needle) (Node.children n)); reflexivity.
Qed.

Lemma filter_forest_kept needle ts :
  flat_map (filter_tree needle) ts = map (prune needle) (List.filter (kept needle) ts).
Proof.
  rewrite <- keep_map_filter. induction ts as [ | t ts IH]; simpl; [reflexivity | ].
  now rewrite filter_tree_kept, IH.
Qed.

Lemma kids_prune needle t :
  kids (prune needle t) = map (prune needle) (List.filter (kept needle) (kids t)).
Proof. destruct t as [n]. unfold kids; simpl. apply keep_map_filter. Qed.

Lemma kept_some_node needle t :
  kept needle t = true <-> exists x, In x (nodes_of t) /\ matches needle (root x) = true.
Proof.
  induction t as [n IH] using Tree_induction. cbn [kept nodes_of].
  rewrite orb_true_iff, existsb_exists. split.
  - intros [Hm | (k & Hin & Hk)].
    + exists (T n). split; [now left | exact Hm].
    + rewrite List.Forall_forall in IH. apply (IH k Hin) in Hk as (x & Hx & Hmx).
      exists x. split; [ | exact Hmx]. right. apply in_flat_map. eauto.
  - intros (x & [<- | Hx] & Hmx); [now left | right].
    apply in_flat_map in Hx as (k & Hin & Hx). exists k. split; [exact Hin | ].
    rewrite List.Forall_forall in IH. apply (IH k Hin). eauto.
Qed.

Lemma forest_height_prune needle ts :
  (forest_height (map (prune needle) (List.filter (kept needle) ts)) <= forest_height ts)%nat.
Proof.
  induction ts as [ | t ts IHts]; [reflexivity | ].
  assert (Ht : (height (prune needle t) <= height t)%nat).
  { clear IHts. induction t as [n IH] using Tree_induction.
    cbn [prune]. rewrite !height_T. cbn [Node.children Node.with_children].
    apply le_n_S. rewrite keep_map_filter.
    induction IH as [ | k l Hk _ IHl]; [reflexivity | ].
    simpl. destruct (kept needle k); simpl; fold (forest_height l) in *;
      fold (forest_height (map (prune needle) (List.filter (kept needle) l))) in *; lia. }
  simpl. destruct (kept needle t); simpl;
    fold (forest_height ts) in *;
    fold (forest_height (map (prune needle) (List.filter (kept needle) ts))) in *; lia.
Qed.

(** ** Containment regardless of case *)









(** ** The sidebar after [renderTabs] *)

Lemma renderTabs_forest fuel locs ts w :
  forest_at (heap w) locs ts -> (forest_height ts < fuel)%nat ->
  exists M',
    renderTabs fuel locs w
      = (Ret tt,
         set_elements
           (set_tabs
              ((fun _ => map (sync_row (sidebarCollapsed (state w)))
                             (rows_of (state w) (visible_forest ts)))
                 <$> tabs (elements w))
              (elements w))
           (set_state
              (set_tabMap M' (set_flatTabs (map vis_id (visible_forest ts)) (state w))) w))
    /\ maps_visible (heap w) (visible_forest ts) ∅ M'.
Proof.
  intros Hat Hh. unfold renderTabs.
  set (w0 := set_state (set_tabMap ∅ (set_flatTabs [] (state w))) w).
  destruct (renderNodes_forest fuel (heap w) ts locs Hat Hh 0%nat [] w0 eq_refl)
    as (M' & Heq & Hmap).
  exists M'. split; [ | exact Hmap].
  unfold bind, modify_state, modify, gets, ret. cbv beta.
  match goal with
  | |- context [renderNodes fuel locs 0%nat [] ?x] => change x with w0
  end.
  rewrite Heq.
  unfold syncCollapsedTabTitles, modify_elements, bind, gets, modify, ret, when. simpl.
  destruct w as [hp st ms el bd co br ob].
  destruct el as [tb ad g nt hm nbk nfw nrl sbt bi tsr pb pi pr tm].
  destruct tb; simpl; reflexivity.
Qed.

Lemma visible_preorder t :
  forall d,
    visible d t = map snd (List.filter fst (preorder true d t))
    /\ List.filter fst (preorder false d t) = [].
Proof.
  induction t as [n IH] using Tree_induction. intros d. cbn [visible preorder].
  split.
  - cbn [List.filter fst map snd]. f_equal.
    destruct (Node.is_expanded n); cbn [andb].
    + induction IH as [ | k l Hk _ IHl]; simpl; [reflexivity | ].
      rewrite List.filter_app, map_app. now rewrite <- (proj1 (Hk (S d))), IHl.
    + induction IH as [ | k l Hk _ IHl]; simpl; [reflexivity | ].
      rewrite List.filter_app, map_app. now rewrite (proj2 (Hk (S d))), <- IHl.
  - cbn [List.filter fst andb].
    induction IH as [ | k l Hk _ IHl]; simpl; [reflexivity | ].
    rewrite List.filter_app. now rewrite (proj2 (Hk (S d))), IHl.
Qed.

Lemma visible_forest_preorder ts :
  visible_forest ts = map snd (List.filter fst (preorder_forest ts)).
Proof.
  unfold visible_forest, preorder_forest.
  induction ts as [ | t ts IH]; simpl; [reflexivity | ].
  rewrite List.filter_app, map_app. now rewrite <- (proj1 (visible_preorder t 0%nat)), IH.
Qed.

Lemma data_id_rows st collapsed vis :
  map data_id (map (sync_row collapsed) (rows_of st vis)) = map vis_id vis.
Proof.
  unfold rows_of. rewrite !map_map. apply map_ext. intros [d [n]].
  unfold sync_row. simpl.
  destruct collapsed; [reflexivity | ].
  destruct (truthy _); reflexivity.
Qed.

Lemma depth_rows st collapsed vis :
  map depth_var (map (sync_row collapsed) (rows_of st vis)) = map fst vis.
Proof.
  unfold rows_of. rewrite !map_map. apply map_ext. intros [d [n]].
  unfold sync_row. simpl.
  destruct collapsed; [reflexivity | ].
  destruct (truthy _); reflexivity.
Qed.

(** C8: [renderTabs] on a forest returns normally; the flat order of
    [state.flatTabs] and the rows of the sidebar are the nodes in
    depth-first preorder, children in their order, where the children
    of a node are there exactly when the node is expanded: the preorder
    restricted to the nodes all of whose ancestors are expanded. *)
Theorem sidebar_rows_preorder (fuel : nat) (locs : list loc) (ts : list Tree) (w : World) :
  forest_at (heap w) locs ts -> (forest_height ts < fuel)%nat ->
  exists w',
    renderTabs fuel locs w = (Ret tt, w')
    /\ flatTabs (state w') = map vis_id (visible_forest ts)
    /\ (forall old, tabs (elements w) = Some old ->
          exists rows,
            tabs (elements w') = Some rows
            /\ map data_id rows = map vis_id (visible_forest ts)
            /\ map depth_var rows = map fst (visible_forest ts))
    /\ (forall d n,
          visible d (T n)
          = (d, T n) ::
            (if Node.is_expanded n then flat_map (visible (S d)) (Node.children n) else []))
    /\ visible_forest ts = map snd (List.filter fst (preorder_forest ts)).
Proof.
  intros Hat Hh. destruct (renderTabs_forest fuel locs ts w Hat Hh) as (M' & Heq & _).
  eexists. split; [exact Heq | ]. split; [reflexivity | ]. split; [ | split].
  - intros old Hold. simpl. rewrite Hold. simpl. eexists. split; [reflexivity | ].
    split; [apply data_id_rows | apply depth_rows].
  - reflexivity.
  - apply visible_forest_preorder.
Qed.

Lemma findActive_forest fuel id :
  forall h ts locs,
    forest_at h locs ts -> (forest_height ts < fuel)%nat ->
    forall w,
      heap w = h ->
      exists r,
        findActive fuel locs id w = (Ret r, w)
        /\ forall l, r = Some l -> is_Some (h !! l).
Proof.
  induction fuel as [ | fuel IH]; intros h ts locs Hat Hh; [lia | ].
  induction Hat as [ | l t locs ts Hl Hrest IHrest]; intros w Hw.
  - exists None. split; [reflexivity | discriminate].
  - rewrite forest_height_cons in Hh.
    destruct Hl as [l n clocs Hlook Hkids]. rewrite height_T in Hh.
    assert (Hlook' : heap w !! l = Some (Node.with_children clocs n)) by now rewrite Hw.
    cbn [findActive]. unfold bind at 1. unfold deref, bind, gets. cbv beta.
    rewrite Hlook'. unfold ret at 1. cbn [Node.id Node.children Node.with_children].
    destruct (bool_decide (Node.id n = id)).
    + exists (Some l). split; [reflexivity | ]. intros ? [= <-]. eauto.
    + destruct (IH h (Node.children n) clocs Hkids ltac:(lia) w Hw) as (r & Heq & Hr).
      rewrite Heq. destruct r as [l' | ].
      * exists (Some l'). split; [reflexivity | exact Hr].
      * apply (IHrest ltac:(lia) w Hw).
Qed.

Lemma closeTabMenu_menu_closed w : closeTabMenu w = (Ret tt, menu_closed w).
Proof.
  unfold closeTabMenu, menu_closed, bind, gets, modify_elements, modify, ret.
  destruct (tabMenu (elements w)); reflexivity.
Qed.

Lemma filterNodes_empty fuel nodes w : filterNodes fuel nodes "" w = (Ret nodes, w).
Proof. destruct fuel; reflexivity. Qed.

Lemma truthy_false s : truthy s = false -> s = "".
Proof. unfold truthy. destruct (String.eqb_spec s ""); [auto | discriminate]. Qed.

Lemma menu_closed_state w : state (menu_closed w) = state w.
Proof. unfold menu_closed. destruct (tabMenu (elements w)); reflexivity. Qed.

Lemma menu_closed_heap w : heap (menu_closed w) = heap w.
Proof. unfold menu_closed. destruct (tabMenu (elements w)); reflexivity. Qed.

Lemma menu_closed_tabs w : tabs (elements (menu_closed w)) = tabs (elements w).
Proof. unfold menu_closed. destruct (tabMenu (elements w)); reflexivity. Qed.

Lemma menu_closed_address w : address (elements (menu_closed w)) = address (elements w).
Proof. unfold menu_closed. destruct (tabMenu (elements w)); reflexivity. Qed.

Lemma set_heap_same w : set_heap (heap w) w = w.
Proof. now destruct w. Qed.

Lemma filter_forest_height query ts :
  (forest_height (filter_forest query ts) <= forest_height ts)%nat.
Proof.
  unfold filter_forest. destruct (truthy query); simpl; [ | reflexivity].
  rewrite filter_forest_kept. apply forest_height_prune.
Qed.

Lemma filterNodes_any_query fuel ts locs query w :
  forest_at (heap w) locs ts -> (forest_height ts < fuel)%nat ->
  exists locs' h',
    filterNodes fuel locs query w = (Ret locs', set_heap h' w)
    /\ heap w `prefix_of` h'
    /\ forest_at h' locs' (filter_forest query ts)
    /\ (query = "" -> locs' = locs /\ h' = heap w).
Proof.
  intros Hat Hh. unfold filter_forest. destruct (truthy query) eqn:Hq; simpl.
  - destruct (filterNodes_forest fuel ts locs (heap w) query Hat Hh Hq w eq_refl)
      as (locs' & h' & Heq & Hp & Hf).
    exists locs', h'. repeat split; try assumption; subst; discriminate.
  - apply truthy_false in Hq. subst query. exists locs, (heap w).
    rewrite filterNodes_empty, set_heap_same. repeat split; auto.
Qed.

Lemma applyState_forest fuel p ts w :
  forest_at (heap w) (p_tabs p) ts -> (forest_height ts < fuel)%nat ->
  exists w' M',
    applyState fuel (Some p) w = (Ret tt, w')
    /\ heap w `prefix_of` heap w'
    /\ (tabQuery (state w) = "" -> heap w' = heap w)
    /\ state w'
       = set_tabMap M'
           (set_flatTabs
              (map vis_id (visible_forest (filter_forest (tabQuery (state w)) ts)))
              (set_lastActive (p_active p)
                 (set_lastTabs (p_tabs p) (set_activeTabId (p_active p) (state w)))))
    /\ maps_visible (heap w') (visible_forest (filter_forest (tabQuery (state w)) ts)) ∅ M'
    /\ tabs (elements w')
       = (fun _ => map (sync_row (sidebarCollapsed (state w)))
                       (rows_of (state w)
                          (visible_forest (filter_forest (tabQuery (state w)) ts))))
           <$> tabs (elements w).
Proof.
  intros Hat Hh. unfold applyState.
  set (w1 := set_state (set_lastActive (p_active p)
               (set_lastTabs (p_tabs p) (set_activeTabId (p_active p) (state w)))) w).
  destruct (filterNodes_any_query fuel ts (p_tabs p) (tabQuery (state w)) w1 Hat Hh)
    as (locs' & h' & Hfilter & Hp & Hf & Hempty).
  set (fts := filter_forest (tabQuery (state w)) ts) in *.
  assert (Hfh : (forest_height fts < fuel)%nat).
  { pose proof (filter_forest_height (tabQuery (state w)) ts). subst fts. lia. }
  destruct (renderTabs_forest fuel locs' fts (set_heap h' w1) Hf Hfh) as (M' & Hrender & Hmap).
  match type of Hrender with
  | _ = (_, ?x) => set (w3 := menu_closed x) in *
  end.
  assert (Hheap3 : heap w3 = h') by (subst w3; now rewrite menu_closed_heap).
  assert (Hstate3 : state w3
            = set_tabMap M' (set_flatTabs (map vis_id (visible_forest fts)) (state w1)))
    by (subst w3; now rewrite menu_closed_state).
  assert (Hat3 : forest_at (heap w3) (p_tabs p) ts).
  { rewrite Hheap3. now apply (forest_at_mono (heap w)). }
  assert (Hfind : exists r,
    (if truthy_id (lastActive (state w3))
     then findActive fuel (lastTabs (state w3)) (default 0 (lastActive (state w3)))
     else ret None) w3 = (Ret r, w3)
    /\ forall l, r = Some l -> is_Some (heap w3 !! l)).
  { destruct (truthy_id (lastActive (state w3))).
    - rewrite Hstate3. cbn [lastTabs set_tabMap set_flatTabs state w1 set_state
                             set_lastActive set_lastTabs].
      apply (findActive_forest fuel _ (heap w3) ts (p_tabs p) Hat3 Hh w3 eq_refl).
    - exists None. split; [reflexivity | discriminate]. }
  destruct Hfind as (r & Hfind & Hr).
  assert (Hrun : exists w',
    applyState fuel (Some p) w = (Ret tt, w')
    /\ heap w' = heap w3 /\ state w' = state w3
    /\ tabs (elements w') = tabs (elements w3)).
  { unfold applyState.
    unfold bind at 1. unfold modify_state at 1, modify at 1.
    unfold bind at 1. unfold modify_state at 1, modify at 1.
    unfold bind at 1. unfold modify_state at 1, modify at 1.
    unfold bind at 1. unfold gets at 1.
    unfold bind at 1.
    change (filterNodes fuel _ _ _) with
      (filterNodes fuel (p_tabs p) (tabQuery (state w)) w1).
    rewrite Hfilter.
    unfold bind at 1. rewrite Hrender.
    unfold bind at 1. rewrite closeTabMenu_menu_closed. fold w3.
    unfold bind at 1. unfold gets at 1.
    unfold bind at 1. cbv beta. rewrite Hfind.
    unfold bind at 1. unfold gets at 1. cbv beta.
    destruct r as [l | ]; [ | exists w3; now repeat split].
    destruct (address (elements w3)) as [a | ] eqn:Ha; [ | exists w3; now repeat split].
    destruct (Hr l eq_refl) as [n Hn].
    unfold deref, bind, gets. cbv beta. rewrite Hn.
    eexists. split; [reflexivity | ]. now repeat split. }
  destruct Hrun as (w' & Hrun & Hh' & Hs' & Ht').
  exists w', M'. split; [exact Hrun | ]. rewrite Hh', Hs', Ht', Hheap3, Hstate3.
  split; [exact Hp | ]. split; [ | split; [reflexivity | split; [exact Hmap | ]]].
  - intros Hq. now destruct (Hempty Hq).
  - subst w3. rewrite menu_closed_tabs. reflexivity.
Qed.

(** C4: applying a snapshot stores it as it came, records the active
    id, and, when the tab-search query is empty, renders exactly the
    stored tree: no object is copied, the flat order and the rows are
    those of the stored tree, and every entry of [state.tabMap] is a
    node of it. *)
Theorem applyState_rebuilds_snapshot (fuel : nat) (p : TabsPayload) (ts : list Tree)
    (w : World) :
  forest_at (heap w) (p_tabs p) ts -> (forest_height ts < fuel)%nat ->
  exists w',
    applyState fuel (Some p) w = (Ret tt, w')
    /\ lastTabs (state w') = p_tabs p
    /\ forest_at (heap w') (lastTabs (state w')) ts
    /\ activeTabId (state w') = p_active p
    /\ lastActive (state w') = p_active p
    /\ (tabQuery (state w) = "" ->
          heap w' = heap w
          /\ flatTabs (state w') = map vis_id (visible_forest ts)
          /\ tabs (elements w')
             = (fun _ => map (sync_row (sidebarCollapsed (state w)))
                             (rows_of (state w) (visible_forest ts)))
                 <$> tabs (elements w)
          /\ forall id l,
               tabMap (state w') !! id = Some l ->
               exists dt, In dt (visible_forest ts) /\ vis_id dt = id
                          /\ tree_at (heap w') l (snd dt)).
Proof.
  intros Hat Hh.
  destruct (applyState_forest fuel p ts w Hat Hh)
    as (w' & M' & Hrun & Hp & Hheap & Hstate & Hmap & Htabs).
  exists w'. split; [exact Hrun | ]. rewrite Hstate. cbn.
  split; [reflexivity | ]. split; [now apply (forest_at_mono (heap w)) | ].
  split; [reflexivity | ]. split; [reflexivity | ].
  intros Hq. rewrite Hq in *. cbn in Hmap, Htabs.
  split; [now apply Hheap | ]. split; [reflexivity | ]. split; [exact Htabs | ].
  intros id l Hl. destruct Hmap as (Hm & _ & _).
  destruct (Hm id l Hl) as [Hempty | Hdt]; [ | exact Hdt].
  now rewrite lookup_empty in Hempty.
Qed.

(** ** Laying a snapshot out *)

Lemma alloc_tree_T n h :
  alloc_tree (T n) h
  = let '(locs, h1) := foldl alloc_step ([], h) (Node.children n) in
    (length h1, h1 ++ [Node.with_children locs n]).
Proof. reflexivity. Qed.

Lemma alloc_steps_at (ks : list Tree) :
  Forall (fun k => forall h, tree_at (snd (alloc_tree k h)) (fst (alloc_tree k h)) k
                             /\ h `prefix_of` snd (alloc_tree k h)) ks ->
  forall locs0 ts0 h,
    forest_at h locs0 ts0 ->
    forest_at (snd (foldl alloc_step (locs0, h) ks)) (fst (foldl alloc_step (locs0, h) ks))
              (ts0 ++ ks)
    /\ h `prefix_of` snd (foldl alloc_step (locs0, h) ks).
Proof.
  induction 1 as [ | k ks Hk _ IH]; intros locs0 ts0 h H0; simpl.
  - rewrite app_nil_r. now split.
  - destruct (Hk h) as [Hat Hp]. destruct (alloc_tree k h) as [l h1] eqn:Hk1. simpl in *.
    destruct (IH (locs0 ++ [l]) (ts0 ++ [k]) h1) as [Hf Hp2].
    { apply Forall2_app; [now apply (forest_at_mono h) | now repeat constructor]. }
    rewrite <- app_assoc in Hf. split; [exact Hf | now transitivity h1].
Qed.

Lemma alloc_tree_at t :
  forall h, tree_at (snd (alloc_tree t h)) (fst (alloc_tree t h)) t
            /\ h `prefix_of` snd (alloc_tree t h).
Proof.
  induction t as [n IH] using Tree_induction. intros h. rewrite alloc_tree_T.
  destruct (alloc_steps_at (Node.children n) IH [] [] h ltac:(constructor)) as [Hf Hp].
  destruct (foldl alloc_step ([], h) (Node.children n)) as [locs h1]. simpl in *.
  split.
  - apply (tree_at_node _ _ _ locs).
    + rewrite lookup_app_r by lia. now rewrite Nat.sub_diag.
    + apply (forest_at_mono h1); [now apply prefix_app_r | exact Hf].
  - transitivity h1; [exact Hp | now apply prefix_app_r].
Qed.

(** Every snapshot can be laid out, in any heap, without touching what
    is there. *)
Lemma alloc_forest_at ts h :
  forest_at (snd (alloc_forest ts h)) (fst (alloc_forest ts h)) ts
  /\ h `prefix_of` snd (alloc_forest ts h).
Proof.
  apply (alloc_steps_at ts ltac:(apply List.Forall_forall; intros t _; apply alloc_tree_at)
           [] [] h).
  constructor.
Qed.

(** ** A sample snapshot *)

Lemma sample_forest_at : forest_at (heap sample_page) sample_locs sample_forest.
Proof. exact (proj1 (alloc_forest_at sample_forest [])). Defined.

Lemma truthy_nonempty s : s <> "" -> truthy s = true.
Proof. unfold truthy. destruct (String.eqb_spec s ""); [contradiction | reflexivity]. Qed.


Lemma deref_eq (l : loc) n w : heap w !! l = Some n -> deref l w = (Ret n, w).
Proof. intros H. unfold deref, bind, gets. cbv beta. now rewrite H. Qed.

(** ** The favicon update *)

Section Favicon.
Variables (ids : gset Z) (uri : option string).

Lemma mark_idempotent {C} (n : Node.t C) : mark ids uri (mark ids uri n) = mark ids uri n.
Proof.
  unfold mark. destruct (bool_decide (Node.id n ∈ ids)) eqn:H; simpl; rewrite H; reflexivity.
Qed.

Lemma mark_with_children {C D} (c : D) (n : Node.t C) :
  mark ids uri (Node.with_children c n) = Node.with_children c (mark ids uri n).
Proof. unfold mark; simpl. destruct (bool_decide _); reflexivity. Qed.

Lemma with_favicon_T n :
  with_favicon ids uri (T n)
  = T (Node.with_children (map (with_favicon ids uri) (Node.children n)) (mark ids uri n)).
Proof. reflexivity. Qed.

Lemma marking_refl h : marking ids uri h h.
Proof. intros l n H. now left. Qed.

Lemma marking_trans h1 h2 h3 : marking ids uri h1 h2 -> marking ids uri h2 h3 -> marking ids uri h1 h3.
Proof.
  intros H12 H23 l n H. destruct (H12 l n H) as [H2 | H2];
    destruct (H23 l _ H2) as [H3 | H3]; rewrite ?mark_idempotent in H3; auto.
Qed.

Lemma marking_insert h (l : loc) n :
  h !! l = Some n -> marking ids uri h (<[l := mark ids uri n]> h).
Proof.
  intros Hl l' n' H'. destruct (decide (l = l')) as [<- | Hne].
  - right. rewrite list_lookup_insert_eq by (now apply lookup_lt_Some in Hl). congruence.
  - left. now rewrite list_lookup_insert_ne.
Qed.

(** A marked tree stays marked. *)
Lemma marked_tree_stable h h' :
  marking ids uri h h' ->
  forall t l, tree_at h l (with_favicon ids uri t) -> tree_at h' l (with_favicon ids uri t).
Proof.
  intros Hm. induction t as [n IH] using Tree_induction. intros l Hat.
  rewrite with_favicon_T in *.
  inversion Hat as [l0 n0 clocs Hlook Hkids]; subst.
  cbn [Node.children Node.with_children] in Hkids.
  apply (tree_at_node h' l _ clocs).
  - destruct (Hm l _ Hlook) as [H | H]; [exact H | ].
    rewrite H. f_equal.
    change (Node.with_children clocs
              (Node.with_children (map (with_favicon ids uri) (Node.children n)) (mark ids uri n)))
      with (Node.with_children clocs (mark ids uri n)).
    now rewrite mark_with_children, mark_idempotent.
  - clear Hlook Hat. revert clocs Hkids.
    induction IH as [ | k ks Hk _ IHks]; intros clocs Hkids;
      inversion Hkids as [ | c k' cs ks' Hc Hcs]; subst; constructor.
    + now apply Hk.
    + now apply IHks.
Qed.

Lemma marked_forest_stable h h' locs ts :
  marking ids uri h h' ->
  forest_at h locs (map (with_favicon ids uri) ts) ->
  forest_at h' locs (map (with_favicon ids uri) ts).
Proof.
  intros Hm. revert locs. induction ts as [ | t ts IH]; intros locs H;
    inversion H as [ | l t' ls ts' Hl Hls]; subst; constructor.
  - now apply (marked_tree_stable h h').
  - now apply IH.
Qed.

Lemma write_favicon_uri_marks (l : loc) n w :
  heap w !! l = Some n -> Node.id n ∈ ids ->
  write_favicon_uri l uri w = (Ret tt, set_heap (<[l := mark ids uri n]> (heap w)) w).
Proof.
  intros Hl Hid. unfold write_favicon_uri, deref, bind, gets, modify, ret. cbv beta.
  rewrite Hl. unfold mark. now rewrite (bool_decide_eq_true_2 _ Hid).
Qed.

Lemma updateTreeFavicon_forest fuel :
  forall h0 ts locs,
    forest_at h0 locs ts -> (forest_height ts < fuel)%nat ->
    forall w,
      marking ids uri h0 (heap w) ->
      exists h2,
        updateTreeFavicon fuel locs ids uri w = (Ret tt, set_heap h2 w)
        /\ marking ids uri (heap w) h2
        /\ forest_at h2 locs (map (with_favicon ids uri) ts).
Proof.
  induction fuel as [ | fuel IH]; intros h0 ts locs Hat Hh; [lia | ].
  simpl updateTreeFavicon.
  induction Hat as [ | l t locs ts Hl Hrest IHrest]; intros w Hw.
  - exists (heap w). simpl. rewrite set_heap_same.
    split; [reflexivity | ]. split; [apply marking_refl | constructor].
  - rewrite forest_height_cons in Hh.
    destruct Hl as [l n clocs Hlook Hkids]. rewrite height_T in Hh.
    set (obj := Node.with_children clocs n) in *.
    (* the object as the loop finds it, and after the write *)
    assert (Hcur : exists m, heap w !! l = Some m /\ mark ids uri m = mark ids uri obj
                             /\ Node.id m = Node.id n /\ Node.children m = clocs).
    { destruct (Hw l obj Hlook) as [H | H].
      - exists obj. now repeat split.
      - exists (mark ids uri obj). rewrite mark_idempotent. repeat split; [exact H | | ];
          unfold mark; destruct (bool_decide _); reflexivity. }
    destruct Hcur as (m & Hm & Hmark & Hid & Hch).
    assert (Hfirst : exists h1,
      when (bool_decide (Node.id m ∈ ids)) (write_favicon_uri l uri) w
      = (Ret tt, set_heap h1 w)
      /\ marking ids uri (heap w) h1 /\ h1 !! l = Some (mark ids uri obj)).
    { destruct (bool_decide (Node.id m ∈ ids)) eqn:Hin; cbn [when].
      - apply bool_decide_eq_true_1 in Hin.
        exists (<[l := mark ids uri m]> (heap w)).
        split; [now apply write_favicon_uri_marks | ].
        split; [now apply marking_insert | ].
        rewrite list_lookup_insert_eq by (now apply lookup_lt_Some in Hm). congruence.
      - exists (heap w). rewrite set_heap_same. split; [reflexivity | ].
        split; [apply marking_refl | ].
        rewrite Hm, <- Hmark. unfold mark. now rewrite Hin. }
    destruct Hfirst as (h1 & Hfirst & Hm1 & Hl1).
    assert (Hch1 : Node.children (mark ids uri obj) = clocs)
      by (unfold mark; destruct (bool_decide (Node.id obj ∈ ids)); reflexivity).
    assert (Hsecond : exists h2,
      when (nonempty (Node.children (mark ids uri obj)))
           (updateTreeFavicon fuel (Node.children (mark ids uri obj)) ids uri) (set_heap h1 w)
      = (Ret tt, set_heap h2 w)
      /\ marking ids uri h1 h2
      /\ forest_at h2 clocs (map (with_favicon ids uri) (Node.children n))).
    { rewrite Hch1. destruct clocs as [ | c clocs]; cbn [nonempty when].
      - apply Forall2_nil_inv_l in Hkids. exists h1.
        split; [reflexivity | ]. split; [apply marking_refl | ].
        rewrite Hkids. constructor.
      - destruct (IH h0 (Node.children n) (c :: clocs) Hkids ltac:(lia) (set_heap h1 w))
          as (h2 & Heq & Hm2 & Hf2).
        { cbn [heap set_heap]. now apply (marking_trans _ (heap w)). }
        exists h2. split; [exact Heq | ]. split; [exact Hm2 | exact Hf2]. }
    destruct Hsecond as (h2 & Hsecond & Hm2 & Hf2).
    assert (Hnode : tree_at h2 l (with_favicon ids uri (T n))).
    { rewrite with_favicon_T. apply (tree_at_node h2 l _ clocs); [ | exact Hf2].
      change (Node.with_children clocs
                (Node.with_children (map (with_favicon ids uri) (Node.children n)) (mark ids uri n)))
        with (Node.with_children clocs (mark ids uri n)).
      rewrite <- mark_with_children. fold obj.
      destruct (Hm2 l _ Hl1) as [H | H]; [exact H | now rewrite mark_idempotent in H]. }
    destruct (IHrest ltac:(lia) (set_heap h2 w)) as (h3 & Hrest3 & Hm3 & Hf3).
    { cbn [heap set_heap].
      apply (marking_trans _ (heap w)); [exact Hw | ].
      now apply (marking_trans _ h1). }
    exists h3. split; [ | split].
    + cbn [for_of].
      rewrite (bind_eq _ _ w tt (set_heap h2 w)); [exact Hrest3 | ].
      rewrite (bind_eq _ _ w m w (deref_eq l m w Hm)).
      rewrite (bind_eq _ _ w tt (set_heap h1 w) Hfirst).
      rewrite (bind_eq _ _ (set_heap h1 w) (mark ids uri obj) (set_heap h1 w)
                 (deref_eq l (mark ids uri obj) (set_heap h1 w) Hl1)).
      exact Hsecond.
    + apply (marking_trans _ h1); [exact Hm1 | ].
      now apply (marking_trans _ h2).
    + cbn [map]. constructor; [ | exact Hf3].
      now apply (marked_tree_stable h2 h3).
Qed.

Lemma tabMap_ok_marking w h' el' :
  tabMap_ok w -> marking ids uri (heap w) h' -> tabMap_ok (set_elements el' (set_heap h' w)).
Proof.
  intros Hok Hm id l Hl. cbn in Hl |- *.
  destruct (Hok id l Hl) as (n & Hn & Hid).
  destruct (Hm l n Hn) as [H | H]; [now exists n | ].
  exists (mark ids uri n). split; [exact H | ].
  unfold mark. destruct (bool_decide _); exact Hid.
Qed.

(** The second half of [applyFaviconUpdate]: the nodes of
    [state.tabMap] and the rows. *)
Lemma favicon_rows_loop (raw : option string) (id_list : list TabId) :
  Forall (fun id => id ∈ ids) id_list ->
  forall w,
    tabMap_ok w ->
    exists h' el',
      for_of id_list (fun id =>
        let* st := gets state in
        match tabMap st !! id with
        | Some node => write_favicon_uri node uri
        | None => ret tt
        end;;
        let* el := gets elements in
        match tabs el with
        | None => ret tt
        | Some rows =>
            modify_elements (set_tabs (Some
              (update_first_row id (favicon_row raw (defaultFavicon st)) rows)))
        end) w
      = (Ret tt, set_elements el' (set_heap h' w))
      /\ marking ids uri (heap w) h'.
Proof.
  induction 1 as [ | id id_list Hid _ IH]; intros w Hok.
  - exists (heap w), (elements w). split; [now destruct w | apply marking_refl].
  - assert (Hstep : exists h1 el1,
      (let* st := gets state in
       match tabMap st !! id with
       | Some node => write_favicon_uri node uri
       | None => ret tt
       end;;
       let* el := gets elements in
       match tabs el with
       | None => ret tt
       | Some rows =>
           modify_elements (set_tabs (Some
             (update_first_row id (favicon_row raw (defaultFavicon st)) rows)))
       end) w
      = (Ret tt, set_elements el1 (set_heap h1 w))
      /\ marking ids uri (heap w) h1).
    { unfold bind at 1. unfold gets at 1. cbv beta.
      assert (Hwrite : exists h1,
        match tabMap (state w) !! id with
        | Some node => write_favicon_uri node uri
        | None => ret tt
        end w = (Ret tt, set_heap h1 w) /\ marking ids uri (heap w) h1).
      { destruct (tabMap (state w) !! id) as [node | ] eqn:Hnode.
        - destruct (Hok id node Hnode) as (n & Hn & Hnid).
          exists (<[node := mark ids uri n]> (heap w)). split.
          + apply write_favicon_uri_marks; [exact Hn | now rewrite Hnid].
          + now apply marking_insert.
        - exists (heap w). rewrite set_heap_same. split; [reflexivity | apply marking_refl]. }
      destruct Hwrite as (h1 & Hwrite & Hm1).
      rewrite (bind_eq _ _ w tt (set_heap h1 w) Hwrite).
      unfold bind, gets, modify_elements, modify, ret. cbn.
      destruct (tabs (elements w)).
      - eexists h1, _. split; [reflexivity | exact Hm1].
      - exists h1, (elements w). split; [reflexivity | exact Hm1]. }
    destruct Hstep as (h1 & el1 & Hstep & Hm1).
    destruct (IH (set_elements el1 (set_heap h1 w))) as (h2 & el2 & Hrest & Hm2).
    { now apply tabMap_ok_marking. }
    exists h2, el2. split.
    + cbn [for_of]. rewrite (bind_eq _ _ _ _ _ Hstep). exact Hrest.
    + now apply (marking_trans _ h1).
Qed.
End Favicon.

Lemma applyFaviconUpdate_forest fuel payload ts w :
  forest_at (heap w) (lastTabs (state w)) ts -> (forest_height ts < fuel)%nat ->
  tabMap_ok w ->
  let id_list := default [] (ids payload) in
  let uri := or_null (favicon_uri payload) in
  exists h' el',
    applyFaviconUpdate fuel (Some payload) w = (Ret tt, set_elements el' (set_heap h' w))
    /\ forest_at h' (lastTabs (state w)) (map (with_favicon (list_to_set id_list) uri) ts)
    /\ (id_list = [] -> h' = heap w /\ el' = elements w).
Proof.
  intros Hat Hh Hok id_list uri. unfold applyFaviconUpdate. fold id_list. fold uri.
  destruct id_list as [ | id0 rest] eqn:Hl.
  - exists (heap w), (elements w). cbn.
    split; [now destruct w | ]. split; [ | now split].
    assert (Hid : forall t, with_favicon ∅ uri t = t).
    { induction t as [n IH] using Tree_induction. rewrite with_favicon_T.
      unfold mark. rewrite bool_decide_eq_false_2 by set_solver.
      assert (Hk : map (with_favicon ∅ uri) (Node.children n) = Node.children n).
      { induction IH as [ | k ks Hk _ IHks]; cbn; [reflexivity | now rewrite Hk, IHks]. }
      rewrite Hk. now destruct n. }
    rewrite (map_ext _ (fun t => t) Hid), map_id. exact Hat.
  - rewrite <- Hl. cbn [nonempty negb]. replace (nonempty id_list) with true by now rewrite Hl.
    cbn [negb].
    set (id_set := list_to_set id_list : gset Z).
    destruct (updateTreeFavicon_forest id_set uri fuel (heap w) ts (lastTabs (state w))
                Hat Hh w (marking_refl id_set uri (heap w)))
      as (h1 & Htree & Hm1 & Hf1).
    destruct (favicon_rows_loop id_set uri (favicon_uri payload) id_list
                ltac:(apply List.Forall_forall; intros x Hx; apply elem_of_list_to_set;
                      now apply list_elem_of_In)
                (set_heap h1 w))
      as (h2 & el2 & Hloop & Hm2).
    { apply (tabMap_ok_marking id_set uri w h1 (elements w)) in Hm1; [ | exact Hok].
      intros id l H. apply (Hm1 id l H). }
    exists h2, el2. split; [ | split].
    + unfold bind at 1. unfold gets at 1. cbv beta.
      rewrite (bind_eq _ _ w tt (set_heap h1 w) Htree). exact Hloop.
    + now apply (marked_forest_stable id_set uri h1 h2).
    + rewrite Hl. discriminate.
Qed.

Lemma maps_visible_tabMap_ok w vis :
  maps_visible (heap w) vis ∅ (tabMap (state w)) -> tabMap_ok w.
Proof.
  intros (Hm & _ & _) id l Hl.
  destruct (Hm id l Hl) as [He | (dt & _ & Hid & Hat)]; [now rewrite lookup_empty in He | ].
  destruct dt as [d [n]]. inversion Hat as [l0 n0 clocs Hlook _]; subst.
  exists (Node.with_children clocs n). split; [exact Hlook | reflexivity].
Qed.

(** After a snapshot has been applied, the stored tree is laid out in
    the heap and [state.tabMap] is as [applyFaviconUpdate] expects it. *)
Lemma applyState_tabMap_ok fuel p ts w :
  forest_at (heap w) (p_tabs p) ts -> (forest_height ts < fuel)%nat ->
  let w' := snd (applyState fuel (Some p) w) in
  forest_at (heap w') (lastTabs (state w')) ts /\ tabMap_ok w'.
Proof.
  intros Hat Hh.
  destruct (applyState_forest fuel p ts w Hat Hh)
    as (w' & M' & Hrun & Hp & _ & Hstate & Hmap & _).
  rewrite Hrun. cbn [snd]. split.
  - rewrite Hstate. cbn. now apply (forest_at_mono (heap w)).
  - eapply maps_visible_tabMap_ok. rewrite Hstate. exact Hmap.
Qed.

(** C7 (as amended): [applyFaviconUpdate] returns normally and rewrites
    the stored tree in place: a tab whose id is in [ids] gets the given
    [favicon_uri], or [null] when the given one is empty or missing;
    the [favicon_uri] of every other tab and every other field of every
    tab are as before.  With an empty or missing [ids] nothing at all
    changes. *)
Theorem applyFaviconUpdate_marks (fuel : nat) (payload : FaviconPayload) (ts : list Tree)
    (w : World) :
  forest_at (heap w) (lastTabs (state w)) ts -> (forest_height ts < fuel)%nat ->
  tabMap_ok w ->
  let id_set : gset Z := list_to_set (default [] (ids payload)) in
  let uri := or_null (favicon_uri payload) in
  exists w',
    applyFaviconUpdate fuel (Some payload) w = (Ret tt, w')
    /\ state w' = state w
    /\ forest_at (heap w') (lastTabs (state w')) (map (with_favicon id_set uri) ts)
    /\ (default [] (ids payload) = [] -> w' = w)
    /\ (forall t,
          Node.favicon_uri (root (with_favicon id_set uri t))
          = (if bool_decide (tree_id t ∈ id_set) then uri else Node.favicon_uri (root t))
          /\ Node.with_children tt (Node.set_favicon_uri None (root (with_favicon id_set uri t)))
             = Node.with_children tt (Node.set_favicon_uri None (root t))
          /\ kids (with_favicon id_set uri t) = map (with_favicon id_set uri) (kids t)).
Proof.
  intros Hat Hh Hok id_set uri.
  destruct (applyFaviconUpdate_forest fuel payload ts w Hat Hh Hok)
    as (h' & el' & Hrun & Hf & Hempty).
  exists (set_elements el' (set_heap h' w)). split; [exact Hrun | ].
  split; [reflexivity | ]. split; [exact Hf | ]. split.
  - intros He. destruct (Hempty He) as [-> ->]. now destruct w.
  - intros [n]. cbn [with_favicon root kids tree_id Node.children Node.with_children].
    unfold tree_id; cbn [root].
    destruct (bool_decide (Node.id n ∈ id_set)); now repeat split.
Qed.

(** ** Looking the active tab up *)

Lemma find_app {A} (f : A -> bool) (l1 l2 : list A) :
  List.find f (l1 ++ l2)
  = match List.find f l1 with Some x => Some x | None => List.find f l2 end.
Proof. induction l1 as [ | x l1 IH]; simpl; [reflexivity | ]. now destruct (f x). Qed.

Lemma find_nodes_cons id n ts :
  List.find (has_id id) (nodes_of_forest (T n :: ts))
  = if bool_decide (Node.id n = id) then Some (T n)
    else match List.find (has_id id) (nodes_of_forest (Node.children n)) with
         | Some x => Some x
         | None => List.find (has_id id) (nodes_of_forest ts)
         end.
Proof.
  unfold nodes_of_forest. cbn [flat_map nodes_of]. cbn [app List.find].
  unfold has_id at 1, tree_id at 1. cbn [root].
  destruct (bool_decide (Node.id n = id)); [reflexivity | apply find_app].
Qed.

Lemma findActive_first fuel id :
  forall h ts locs,
    forest_at h locs ts -> (forest_height ts < fuel)%nat ->
    forall w,
      heap w = h ->
      exists r,
        findActive fuel locs id w = (Ret r, w)
        /\ found_at h r (List.find (has_id id) (nodes_of_forest ts)).
Proof.
  induction fuel as [ | fuel IH]; intros h ts locs Hat Hh; [lia | ].
  induction Hat as [ | l t locs ts Hl Hrest IHrest]; intros w Hw.
  - exists None. split; [reflexivity | exact I].
  - rewrite forest_height_cons in Hh.
    pose proof Hl as Hl'.
    destruct Hl as [l n clocs Hlook Hkids]. rewrite height_T in Hh.
    assert (Hlook' : heap w !! l = Some (Node.with_children clocs n)) by now rewrite Hw.
    rewrite find_nodes_cons.
    cbn [findActive]. unfold bind at 1. unfold deref, bind, gets. cbv beta.
    rewrite Hlook'. unfold ret at 1. cbn [Node.id Node.children Node.with_children].
    destruct (bool_decide (Node.id n = id)).
    + exists (Some l). split; [reflexivity | exact Hl'].
    + destruct (IH h (Node.children n) clocs Hkids ltac:(lia) w Hw) as (r & Heq & Hr).
      rewrite Heq. unfold found_at in Hr.
      destruct r as [l' | ].
      * exists (Some l'). split; [reflexivity | ].
        destruct (List.find (has_id id) (nodes_of_forest (Node.children n)));
          [exact Hr | destruct Hr].
      * destruct (List.find (has_id id) (nodes_of_forest (Node.children n)));
          [destruct Hr | ].
        apply (IHrest ltac:(lia) w Hw).
Qed.

(** X1: [findActive(nodes, id)] returns without changing anything, and
    what it returns is the first node of this id in the preorder of the
    whole tree, collapsed groups included; it returns [null] exactly
    when no node has the id. *)
Theorem findActive_first_in_preorder (fuel : nat) (id : TabId) (locs : list loc)
    (ts : list Tree) (w : World) :
  forest_at (heap w) locs ts -> (forest_height ts < fuel)%nat ->
  exists r,
    findActive fuel locs id w = (Ret r, w)
    /\ found_at (heap w) r (List.find (has_id id) (nodes_of_forest ts)).
Proof. intros Hat Hh. exact (findActive_first fuel id (heap w) ts locs Hat Hh w eq_refl). Qed.

Lemma or_else_empty s : or_else s "" = s.
Proof. unfold or_else. destruct (truthy s) eqn:H; [reflexivity | ]. now apply truthy_false in H. Qed.

Lemma tree_at_url h l t n : tree_at h l t -> h !! l = Some n -> Node.url n = Node.url (root t).
Proof.
  intros Hat Hn. inversion Hat as [l0 n0 clocs Hlook _]; subst.
  rewrite Hlook in Hn. injection Hn as <-. reflexivity.
Qed.

(** What [applyState] does beside storing and rendering: the tab menu
    and the address bar. *)
Lemma applyState_menu_address fuel p ts w :
  forest_at (heap w) (p_tabs p) ts -> (forest_height ts < fuel)%nat ->
  exists w',
    applyState fuel (Some p) w = (Ret tt, w')
    /\ menuState w'
       = match tabMenu (elements w) with
         | Some _ => {| menu_open := false; menu_tabId := None |}
         | None => menuState w
         end
    /\ tabMenu (elements w') = set_tm_closed <$> tabMenu (elements w)
    /\ address (elements w')
       = (fun old => match active_tab (p_active p) ts with
                     | Some t => Node.url (root t)
                     | None => old
                     end) <$> address (elements w)
    /\ console w' = console w /\ outbox w' = outbox w /\ body w' = body w.
Proof.
  intros Hat Hh. unfold applyState.
  set (w1 := set_state (set_lastActive (p_active p)
               (set_lastTabs (p_tabs p) (set_activeTabId (p_active p) (state w)))) w).
  destruct (filterNodes_any_query fuel ts (p_tabs p) (tabQuery (state w)) w1 Hat Hh)
    as (locs' & h' & Hfilter & Hp & Hf & Hempty).
  set (fts := filter_forest (tabQuery (state w)) ts) in *.
  assert (Hfh : (forest_height fts < fuel)%nat).
  { pose proof (filter_forest_height (tabQuery (state w)) ts). subst fts. lia. }
  destruct (renderTabs_forest fuel locs' fts (set_heap h' w1) Hf Hfh) as (M' & Hrender & Hmap).
  match type of Hrender with
  | _ = (_, ?x) => set (w2 := x) in *; set (w3 := menu_closed w2) in *
  end.
  assert (Hheap3 : heap w3 = h') by (subst w3; now rewrite menu_closed_heap).
  assert (Hstate3 : state w3
            = set_tabMap M' (set_flatTabs (map vis_id (visible_forest fts)) (state w1)))
    by (subst w3; now rewrite menu_closed_state).
  assert (Hat3 : forest_at (heap w3) (p_tabs p) ts).
  { rewrite Hheap3. now apply (forest_at_mono (heap w)). }
  assert (Hfind : exists r,
    (if truthy_id (lastActive (state w3))
     then findActive fuel (lastTabs (state w3)) (default 0 (lastActive (state w3)))
     else ret None) w3 = (Ret r, w3)
    /\ found_at (heap w3) r (active_tab (p_active p) ts)).
  { rewrite Hstate3. cbn [lastTabs lastActive set_tabMap set_flatTabs state w1 set_state
                           set_lastActive set_lastTabs].
    unfold active_tab. destruct (truthy_id (p_active p)).
    - apply (findActive_first fuel _ (heap w3) ts (p_tabs p) Hat3 Hh w3 eq_refl).
    - exists None. split; [reflexivity | exact I]. }
  destruct Hfind as (r & Hfind & Hr).
  assert (Hmenu3 : menuState w3
            = match tabMenu (elements w) with
              | Some _ => {| menu_open := false; menu_tabId := None |}
              | None => menuState w
              end
          /\ tabMenu (elements w3) = set_tm_closed <$> tabMenu (elements w)
          /\ address (elements w3) = address (elements w)
          /\ console w3 = console w /\ outbox w3 = outbox w /\ body w3 = body w).
  { subst w3 w2. unfold menu_closed. cbn.
    destruct (tabMenu (elements w)) eqn:E; cbn; rewrite ?E; now repeat split. }
  destruct Hmenu3 as (Hms & Htm & Had & Hco & Hob & Hbd).
  assert (Hrun : exists w',
    applyState fuel (Some p) w = (Ret tt, w')
    /\ (w' = w3 /\ (r = None \/ address (elements w3) = None)
        \/ exists l n a, r = Some l /\ heap w3 !! l = Some n /\ address (elements w3) = Some a
                         /\ w' = set_elements (set_address (Some (or_else (Node.url n) ""))
                                                 (elements w3)) w3)).
  { unfold applyState.
    unfold bind at 1. unfold modify_state at 1, modify at 1.
    unfold bind at 1. unfold modify_state at 1, modify at 1.
    unfold bind at 1. unfold modify_state at 1, modify at 1.
    unfold bind at 1. unfold gets at 1.
    unfold bind at 1.
    change (filterNodes fuel _ _ _) with
      (filterNodes fuel (p_tabs p) (tabQuery (state w)) w1).
    rewrite Hfilter.
    unfold bind at 1. rewrite Hrender.
    unfold bind at 1. rewrite closeTabMenu_menu_closed. fold w3.
    unfold bind at 1. unfold gets at 1.
    unfold bind at 1. cbv beta. rewrite Hfind.
    unfold bind at 1. unfold gets at 1. cbv beta.
    destruct r as [l | ]; [ | exists w3; split; [reflexivity | left; auto]].
    destruct (address (elements w3)) as [a | ] eqn:Ha;
      [ | exists w3; split; [reflexivity | left; auto]].
    unfold found_at in Hr.
    destruct (active_tab (p_active p) ts) as [t | ]; [ | destruct Hr].
    inversion Hr as [l0 n0 clocs Hlook _]; subst l0.
    unfold deref, bind, gets. cbv beta. rewrite Hlook.
    eexists. split; [reflexivity | ]. right. eauto 10. }
  destruct Hrun as (w' & Hrun & [[Hw' Hnone] | (l & n & a & Hrl & Hn & Ha & Hw')]).
  - exists w'. split; [exact Hrun | ]. rewrite Hw', Hms, Htm, Hco, Hob, Hbd.
    repeat split; try reflexivity.
    destruct Hnone as [Hnone | Hnone].
    + rewrite Hnone in Hr. unfold found_at in Hr.
      destruct (active_tab (p_active p) ts); [destruct Hr | ].
      rewrite Had. now destruct (address (elements w)).
    + rewrite Hnone. rewrite Hnone in Had. now rewrite <- Had.
  - exists w'. split; [exact Hrun | ]. rewrite Hw'. cbn. rewrite Hms, Htm, Hco, Hob, Hbd.
    repeat split; try reflexivity.
    rewrite Hrl in Hr. unfold found_at in Hr.
    destruct (active_tab (p_active p) ts) as [t | ]; [ | destruct Hr].
    rewrite or_else_empty, (tree_at_url _ _ _ _ Hr Hn).
    rewrite <- Had, Ha. reflexivity.
Qed.

(** X2: [applyState] writes the url of the active tab in the address
    bar, also when the active tab is hidden in a collapsed group or
    filtered out of the sidebar.  The address bar keeps its text when
    [active] is [null] or [0] or is the id of no tab. *)
Theorem applyState_address_bar (fuel : nat) (p : TabsPayload) (ts : list Tree) (w : World) :
  forest_at (heap w) (p_tabs p) ts -> (forest_height ts < fuel)%nat ->
  exists w',
    applyState fuel (Some p) w = (Ret tt, w')
    /\ address (elements w')
       = (fun old => match active_tab (p_active p) ts with
                     | Some t => Node.url (root t)
                     | None => old
                     end) <$> address (elements w)
    /\ active_tab (p_active p) ts
       = match p_active p with
         | None => None
         | Some id =>
             if id =? 0 then None else List.find (has_id id) (nodes_of_forest ts)
         end.
Proof.
  intros Hat Hh.
  destruct (applyState_menu_address fuel p ts w Hat Hh) as (w' & Hrun & _ & _ & Ha & _).
  exists w'. split; [exact Hrun | ]. split; [exact Ha | ].
  unfold active_tab, truthy_id. destruct (p_active p) as [id | ]; [ | reflexivity].
  now destruct (id =? 0).
Qed.

(** X3: [applyState] closes the tab menu and forgets the tab it was
    opened for, so that a click on an item of the menu that arrives
    afterwards sends nothing and changes nothing. *)
Theorem applyState_closes_tab_menu (fuel : nat) (p : TabsPayload) (ts : list Tree)
    (w : World) :
  forest_at (heap w) (p_tabs p) ts -> (forest_height ts < fuel)%nat ->
  exists w',
    applyState fuel (Some p) w = (Ret tt, w')
    /\ tabMenu (elements w') = set_tm_closed <$> tabMenu (elements w)
    /\ (forall m, tabMenu (elements w) = Some m ->
          menuState w' = {| menu_open := false; menu_tabId := None |})
    /\ forall fuel' action, fire fuel' (TabMenuClick action) w' = (Ret tt, w').
Proof.
  intros Hat Hh.
  destruct (applyState_menu_address fuel p ts w Hat Hh) as (w' & Hrun & Hms & Htm & _).
  exists w'. split; [exact Hrun | ]. split; [exact Htm | ]. split.
  - intros m Hm. now rewrite Hms, Hm.
  - intros fuel' action. unfold fire, bind, gets. cbv beta. rewrite Htm.
    destruct (tabMenu (elements w)) as [m | ]; [ | reflexivity].
    cbn. unfold tabMenu_click, bind, gets. cbv beta. rewrite Hms.
    now destruct action.
Qed.

(** ** Moving through the tabs with the arrow keys *)

Lemma indexOf_first (pre post : list TabId) (a : TabId) :
  a ∉ pre -> indexOf (pre ++ a :: post) (Some a) = Z.of_nat (length pre).
Proof.
  induction pre as [ | y pre IH]; intros Hn; cbn [indexOf app length].
  - now rewrite bool_decide_eq_true_2.
  - rewrite bool_decide_eq_false_2 by (intros [= ->]; apply Hn; now left).
    rewrite IH by (intros H; apply Hn; now right).
    destruct (Z.eqb_spec (Z.of_nat (length pre)) (-1)); lia.
Qed.

Lemma indexOf_absent (l : list TabId) (x : option TabId) :
  (forall y, y ∈ l -> x <> Some y) -> indexOf l x = -1.
Proof.
  induction l as [ | y l IH]; intros H; cbn [indexOf]; [reflexivity | ].
  rewrite bool_decide_eq_false_2 by (apply H; now left).
  rewrite IH by (intros z Hz; apply H; now right). reflexivity.
Qed.

Lemma at_index_nat {A} (l : list A) (i : nat) : at_index l (Z.of_nat i) = l !! i.
Proof.
  unfold at_index. destruct (Z.ltb_spec (Z.of_nat i) 0); [lia | ]. now rewrite Nat2Z.id.
Qed.

(** X4: with the active tab among the rows, ArrowDown in the sidebar
    selects the row after it and ArrowUp the row before it; on the last
    row ArrowDown, and on the first row ArrowUp, select the active tab
    again: the keys do not wrap around. *)
Theorem tabs_keydown_moves (w : World) (pre post : list TabId) (a : TabId) :
  flatTabs (state w) = pre ++ a :: post -> a ∉ pre -> activeTabId (state w) = Some a ->
  tabs_keydown "ArrowDown" w
    = send "tab.select" (id_payload (match post with b :: _ => b | [] => a end)) w
  /\ tabs_keydown "ArrowUp" w = send "tab.select" (id_payload (List.last pre a)) w.
Proof.
  intros Hflat Hn Hact.
  assert (Hne : nonempty (pre ++ a :: post) = true) by now destruct pre.
  split; unfold tabs_keydown, bind, gets; cbv beta;
    rewrite Hflat, Hact, Hne, (indexOf_first _ _ _ Hn), length_app; cbn [negb length].
  - change (String.eqb "ArrowDown" "ArrowDown") with true. cbv beta iota. cbn [orb when].
    destruct (Z.eqb_spec (Z.of_nat (length pre)) (-1)) as [E | E]; [lia | ].
    destruct post as [ | b post].
    + replace (Z.min _ _) with (Z.of_nat (length pre)) by (cbn [length]; lia).
      rewrite at_index_nat, lookup_app_r, Nat.sub_diag by lia. reflexivity.
    + replace (Z.min _ _) with (Z.of_nat (S (length pre))) by (cbn [length]; lia).
      rewrite at_index_nat, lookup_app_r by lia.
      replace (S (length pre) - length pre)%nat with 1%nat by lia. reflexivity.
  - change (String.eqb "ArrowUp" "ArrowDown") with false.
    change (String.eqb "ArrowUp" "ArrowUp") with true. cbv beta iota. cbn [orb when].
    destruct (Z.eqb_spec (Z.of_nat (length pre)) (-1)) as [E | E]; [lia | ].
    clear Hflat Hn Hne E. destruct pre as [ | y pre _] using rev_ind.
    + cbn [app length List.last].
      replace (Z.min _ _) with (Z.of_nat 0) by lia.
      rewrite at_index_nat. reflexivity.
    + rewrite length_app. cbn [length].
      replace (Z.min _ _) with (Z.of_nat (length pre)) by lia.
      rewrite at_index_nat, <- !app_assoc, lookup_app_r, Nat.sub_diag by lia.
      rewrite last_last. reflexivity.
Qed.

(** X5: the arrow keys in the sidebar do nothing when there is no row;
    every other key does nothing; and when the active tab is not among
    the rows, either arrow selects the first row. *)
Theorem tabs_keydown_without_active (w : World) (key : string) :
  (flatTabs (state w) = [] -> tabs_keydown key w = (Ret tt, w))
  /\ (key <> "ArrowDown" -> key <> "ArrowUp" -> tabs_keydown key w = (Ret tt, w))
  /\ (forall first rest,
        flatTabs (state w) = first :: rest ->
        (forall y, y ∈ flatTabs (state w) -> activeTabId (state w) <> Some y) ->
        key = "ArrowDown" \/ key = "ArrowUp" ->
        tabs_keydown key w = send "tab.select" (id_payload first) w).
Proof.
  split; [ | split].
  - intros Hflat. unfold tabs_keydown, bind, gets. cbv beta. now rewrite Hflat.
  - intros Hd Hu. unfold tabs_keydown, bind, gets. cbv beta.
    destruct (negb (nonempty (flatTabs (state w)))); [reflexivity | ].
    destruct (String.eqb_spec key "ArrowDown"); [contradiction | ].
    destruct (String.eqb_spec key "ArrowUp"); [contradiction | ]. reflexivity.
  - intros first rest Hflat Habs Hkey. unfold tabs_keydown, bind, gets. cbv beta.
    rewrite (indexOf_absent _ _ Habs). rewrite Hflat. cbn [nonempty negb].
    change (-1 =? -1) with true. cbv beta iota.
    change (at_index (first :: rest) 0) with (Some first).
    destruct Hkey as [-> | ->]; reflexivity.
Qed.

(** ** Collapsing the sidebar *)

Lemma applySidebarState_sidebar_applied c w :
  applySidebarState c w = (Ret tt, sidebar_applied c w).
Proof.
  destruct w as [h st ms el bd co br ob].
  destruct el as [tb ad g nt hm nbk nfw nrl sbt bi ts pb pi pr tm].
  unfold applySidebarState, syncCollapsedTabTitles, sidebar_applied, bind, gets,
    modify_state, modify_body, modify_elements, modify, ret, when.
  cbn. destruct sbt, tb; reflexivity.
Qed.

Lemma row_for_fullTitle {C} st (n : Node.t (list C)) d :
  truthy (data_fullTitle (row_for st n d)) = true.
Proof.
  cbn. unfold or_else.
  destruct (truthy (Node.title n)) eqn:Ht; [exact Ht | ].
  destruct (truthy (Node.url n)) eqn:Hu; [exact Hu | reflexivity].
Qed.

(** X6: in an expanded sidebar every rendered row has its full title,
    which is never empty, as tooltip.  Collapsing the sidebar removes
    the tooltip of every row and changes nothing else of the rows, and
    expanding it again gives the rows back as they were rendered. *)
Theorem sidebar_titles_round_trip (fuel : nat) (locs : list loc) (ts : list Tree)
    (old : list Row) (w : World) :
  forest_at (heap w) locs ts -> (forest_height ts < fuel)%nat ->
  tabs (elements w) = Some old -> sidebarCollapsed (state w) = false ->
  let w0 := snd (renderTabs fuel locs w) in
  let w1 := snd (applySidebarState true w0) in
  let w2 := snd (applySidebarState false w1) in
  exists rows,
    tabs (elements w0) = Some rows
    /\ Forall (fun r => title_attr r = Some (data_fullTitle r)
                        /\ data_fullTitle r <> "") rows
    /\ tabs (elements w1) = Some (map (set_title_attr None) rows)
    /\ sidebarCollapsed (state w1) = true
    /\ tabs (elements w2) = Some rows
    /\ sidebarCollapsed (state w2) = false.
Proof.
  intros Hat Hh Hold Hc w0 w1 w2.
  destruct (renderTabs_forest fuel locs ts w Hat Hh) as (M' & Hrun & _).
  set (rows := map (sync_row false) (rows_of (state w) (visible_forest ts))).
  assert (H0 : tabs (elements w0) = Some rows).
  { subst w0. rewrite Hrun. cbn [snd elements set_elements tabs set_tabs].
    now rewrite Hold, Hc. }
  assert (Hrows : Forall (fun r => title_attr r = Some (data_fullTitle r)
                                   /\ truthy (data_fullTitle r) = true) rows).
  { apply List.Forall_forall. intros r Hr.
    apply in_map_iff in Hr as (r0 & <- & Hr0).
    apply in_map_iff in Hr0 as (dt & <- & _).
    pose proof (row_for_fullTitle (state w) (root (snd dt)) (fst dt)) as Hft.
    unfold sync_row. rewrite Hft. split; [reflexivity | exact Hft]. }
  assert (H1 : tabs (elements w1) = Some (map (set_title_attr None) rows)).
  { subst w1. rewrite applySidebarState_sidebar_applied. cbn [snd].
    unfold sidebar_applied. cbn [elements set_elements tabs set_tabs]. now rewrite H0. }
  assert (H2 : tabs (elements w2) = Some rows).
  { subst w2. rewrite applySidebarState_sidebar_applied. cbn [snd].
    unfold sidebar_applied at 1. cbn [elements set_elements tabs set_tabs]. rewrite H1.
    cbn [fmap option_fmap option_map]. f_equal. rewrite map_map.
    rewrite <- (map_id rows) at 2. apply map_ext_Forall.
    eapply List.Forall_impl; [ | exact Hrows]. intros r [Ht Hft].
    unfold sync_row. cbn [data_fullTitle set_title_attr]. rewrite Hft.
    destruct r. cbn in *. now rewrite Ht. }
  exists rows. split; [exact H0 | ]. split.
  - eapply List.Forall_impl; [ | exact Hrows]. intros r [Ht Hft]. split; [exact Ht | ].
    intros E. rewrite E in Hft. discriminate.
  - split; [exact H1 | ]. split; [ | split; [exact H2 | ]].
    + subst w1. now rewrite applySidebarState_sidebar_applied.
    + subst w2. now rewrite applySidebarState_sidebar_applied.
Qed.

(** ** The default favicon *)

Lemma applyAssets_assets_applied icon w :
  truthy icon = true ->
  applyAssets (Some {| default_favicon := Some icon |}) w = (Ret tt, assets_applied icon w).
Proof.
  intros Hi. unfold applyAssets. cbn [mbind option_bind default_favicon]. rewrite Hi.
  cbn [negb]. destruct w as [h st ms el bd co br ob].
  destruct el as [tb ad g nt hm nb nf nr sbt bi ts pb pin pr tm].
  unfold assets_applied. cbn. destruct bi, tb; reflexivity.
Qed.

Lemma applyAssets_without_icon p w :
  match p ≫= default_favicon with Some icon => truthy icon = false | None => True end ->
  applyAssets p w = (Ret tt, w).
Proof.
  unfold applyAssets. destruct (p ≫= default_favicon) as [icon | ]; [ | reflexivity].
  now intros ->.
Qed.

Lemma assets_row_sync icon st c {C} (n : Node.t (list C)) d :
  truthy icon = true ->
  assets_row (Some icon) (sync_row c (row_for st n d))
  = sync_row c (row_for (set_defaultFavicon (Some icon) st) n d).
Proof.
  intros Hi. unfold assets_row, sync_row.
  pose proof (row_for_fullTitle st n d) as Hft.
  pose proof (row_for_fullTitle (set_defaultFavicon (Some icon) st) n d) as Hft'.
  rewrite Hft, Hft'. change (opt_string (Some icon)) with icon. rewrite Hi.
  unfold row_for. cbn [set_defaultFavicon defaultFavicon sidebarCollapsed].
  change (opt_string (Some icon)) with icon.
  destruct c; cbn [set_title_attr data_favicon data_fullTitle];
    destruct (truthy (opt_string (Node.favicon_uri n))) eqn:Hf; cbn [negb andb].
  all: unfold set_img_src, set_title_attr; cbn; unfold or_else; rewrite ?Hf, ?Hi; reflexivity.
Qed.

(** X7: the default favicon and the tab snapshot may arrive in either
    order: rendering the tabs and then applying the assets leaves the
    same rows, the same ids, the same default favicon and the same
    brand icon as applying the assets and then rendering. *)
Theorem assets_and_render_commute (fuel : nat) (locs : list loc) (ts : list Tree)
    (icon : string) (w : World) :
  forest_at (heap w) locs ts -> (forest_height ts < fuel)%nat -> icon <> "" ->
  let assets := applyAssets (Some {| default_favicon := Some icon |}) in
  let render_then_assets := snd (assets (snd (renderTabs fuel locs w))) in
  let assets_then_render := snd (renderTabs fuel locs (snd (assets w))) in
  tabs (elements render_then_assets) = tabs (elements assets_then_render)
  /\ flatTabs (state render_then_assets) = flatTabs (state assets_then_render)
  /\ defaultFavicon (state render_then_assets) = Some icon
  /\ defaultFavicon (state assets_then_render) = Some icon
  /\ brandIcon (elements render_then_assets) = brandIcon (elements assets_then_render).
Proof.
  intros Hat Hh Hicon assets w12 w21. apply truthy_nonempty in Hicon.
  subst w12 w21 assets. cbv beta.
  rewrite !(applyAssets_assets_applied _ _ Hicon). cbn [snd].
  destruct (renderTabs_forest fuel locs ts w Hat Hh) as (M1 & Hrun1 & _).
  destruct (renderTabs_forest fuel locs ts (assets_applied icon w) Hat Hh) as (M2 & Hrun2 & _).
  rewrite Hrun1, Hrun2. cbn [snd]. unfold assets_applied.
  cbn [elements set_elements tabs set_tabs state set_state flatTabs set_tabMap set_flatTabs
       defaultFavicon set_defaultFavicon brandIcon set_brandIcon sidebarCollapsed].
  repeat split.
  destruct (tabs (elements w)) as [old | ]; [ | reflexivity].
  cbn [fmap option_fmap option_map]. f_equal. unfold rows_of. rewrite !map_map.
  apply map_ext. intros dt. apply (assets_row_sync _ _ _ _ _ Hicon).
Qed.

Lemma assets_row_idempotent icon r :
  assets_row icon (assets_row icon r) = assets_row icon r.
Proof.
  unfold assets_row.
  destruct (negb (truthy (data_favicon r)) && truthy (opt_string icon)) eqn:E;
    [ | now rewrite E].
  cbn [set_img_src data_favicon]. now rewrite E.
Qed.

(** X8: [applyAssets] is idempotent.  Without a payload, or with a
    missing or empty [default_favicon], it changes nothing.  Otherwise
    it stores the icon, shows it as brand icon, and gives it to the rows
    that have no favicon of their own, leaving the others. *)
Theorem applyAssets_idempotent (p : option AssetsPayload) (w : World) :
  let w1 := snd (applyAssets p w) in
  snd (applyAssets p w1) = w1
  /\ (p ≫= default_favicon = None \/ p ≫= default_favicon = Some "" -> w1 = w)
  /\ forall icon, p ≫= default_favicon = Some icon -> icon <> "" ->
       defaultFavicon (state w1) = Some icon
       /\ brandIcon (elements w1) = (fun _ => Some icon) <$> brandIcon (elements w)
       /\ tabs (elements w1) = map (assets_row (Some icon)) <$> tabs (elements w).
Proof.
  intros w1. subst w1.
  destruct (p ≫= default_favicon) as [icon | ] eqn:Hp.
  - destruct (truthy icon) eqn:Hi.
    + assert (Hrun : forall w0, applyAssets p w0 = (Ret tt, assets_applied icon w0)).
      { intros w0. rewrite <- (applyAssets_assets_applied icon w0 Hi).
        unfold applyAssets. now rewrite Hp. }
      rewrite !Hrun. cbn [snd]. split; [ | split].
      * destruct w as [h st ms el bd co br ob].
        destruct el as [tb ad g nt hm nb nf nr sbt bi tsr pb pin pr tm].
        unfold assets_applied, set_elements, set_state, set_tabs, set_brandIcon,
          set_defaultFavicon. cbn. f_equal. f_equal.
        -- destruct tb as [rows | ]; [ | reflexivity]. cbn. f_equal.
           rewrite map_map. apply map_ext. intros r. apply assets_row_idempotent.
        -- now destruct bi.
      * intros [H | H]; [discriminate | ]. injection H as ->. discriminate.
      * intros icon' [= <-] _. now unfold assets_applied.
    + assert (Hrun : forall w0, applyAssets p w0 = (Ret tt, w0)).
      { intros w0. apply applyAssets_without_icon. now rewrite Hp. }
      rewrite !Hrun. cbn [snd]. split; [reflexivity | ]. split; [reflexivity | ].
      intros icon' [= <-] Hne. apply truthy_nonempty in Hne. congruence.
  - assert (Hrun : forall w0, applyAssets p w0 = (Ret tt, w0)).
    { intros w0. apply applyAssets_without_icon. now rewrite Hp. }
    rewrite !Hrun. cbn [snd]. split; [reflexivity | ]. split; [reflexivity | ].
    intros icon' [=].
Qed.

(** ** State messages without their payload *)

(** X9: a [state.tabs] or [state.nav] message without payload makes
    [__owl_receive] throw a [TypeError] and changes nothing; a
    [state.assets] or [state.favicon] message without payload, and a
    [state.favicon] message without ids, are ignored; a [state.sidebar]
    message without payload expands the sidebar. *)
Theorem state_message_without_payload (fuel : nat) (w : World) :
  (exists msg, __owl_receive fuel (Some (StateTabs None)) w = (Throw (TypeError msg), w))
  /\ (exists msg, __owl_receive fuel (Some (StateNav None)) w = (Throw (TypeError msg), w))
  /\ __owl_receive fuel (Some (StateAssets None)) w = (Ret tt, w)
  /\ __owl_receive fuel (Some (StateFavicon None)) w = (Ret tt, w)
  /\ (forall uri,
        __owl_receive fuel (Some (StateFavicon (Some {| ids := None; favicon_uri := uri |}))) w
          = (Ret tt, w)
        /\ __owl_receive fuel
             (Some (StateFavicon (Some {| ids := Some []; favicon_uri := uri |}))) w
           = (Ret tt, w))
  /\ __owl_receive fuel (Some (StateSidebar None)) w = applySidebarState false w.
Proof.
  split; [eexists; reflexivity | ]. split; [eexists; reflexivity | ].
  repeat split; reflexivity.
Qed.

(** ** Inbound messages and the channels out of the page *)

#[local] Instance keeps_console_frame : Frame (keeps console).
Proof. split; try exact _; intros; intros w; reflexivity. Qed.

#[local] Instance keeps_console_frame_nav : FrameNav (keeps console).
Proof. split; intros; intros w; reflexivity. Qed.

Lemma receive_keeps {X} (f : World -> X) `{!Frame (keeps f)} `{!FrameNav (keeps f)}
    fuel (messages : list (option Message)) w :
  f (run_actions fuel (map Receive messages) w) = f w.
Proof.
  revert w. induction messages as [ | m rest IH]; intros w; [reflexivity | ].
  cbn [map run_actions act]. rewrite IH.
  apply (steps___owl_receive (keeps f)).
Qed.

(** X10: whatever message the host delivers, with whatever payload and
    whether the handler returns or throws, [__owl_receive] posts nothing
    on the bridge and writes nothing on the console; the same holds of
    any sequence of deliveries. *)
Theorem receive_never_answers (fuel : nat) :
  (forall message w,
      outbox (snd (__owl_receive fuel message w)) = outbox w
      /\ console (snd (__owl_receive fuel message w)) = console w)
  /\ forall messages w,
       outbox (run_actions fuel (map Receive messages) w) = outbox w
       /\ console (run_actions fuel (map Receive messages) w) = console w.
Proof.
  split.
  - intros message w. split.
    + apply (steps___owl_receive (keeps outbox)).
    + apply (steps___owl_receive (keeps console)).
  - intros messages w. split; apply receive_keeps; exact _.
Qed.

(** ** The address bar *)

Lemma append_String c (a b : string) : (String c a ++ b)%string = String c (a ++ b)%string.
Proof. reflexivity. Qed.

Lemma append_empty (b : string) : ("" ++ b)%string = b.
Proof. reflexivity. Qed.

Lemma trim_start_split s :
  exists pre, s = (pre ++ trim_start s)%string /\ all_space pre = true.
Proof.
  induction s as [ | c s (pre & Hs & Hpre)]; [now exists "" | ].
  cbn [trim_start]. destruct (is_space c) eqn:Hc.
  - exists (String c pre). rewrite ?append_String, ?append_empty; cbn [all_space]. now rewrite <- Hs, Hc, Hpre.
  - now exists "".
Qed.

Lemma trim_end_split s :
  exists post, s = (trim_end s ++ post)%string /\ all_space post = true.
Proof.
  induction s as [ | c s (post & Hs & Hpost)]; [now exists "" | ].
  cbn [trim_end]. destruct (trim_end s) as [ | d rest] eqn:Ht.
  - rewrite append_empty in Hs. subst post. destruct (is_space c) eqn:Hc.
    + exists (String c s). rewrite ?append_String, ?append_empty; cbn [all_space]. now rewrite Hc, Hpost.
    + now exists s.
  - exists post. rewrite append_String. now rewrite <- Hs.
Qed.

Lemma trim_start_no_space s : starts_with_space (trim_start s) = false.
Proof.
  induction s as [ | c s IH]; [reflexivity | ].
  cbn [trim_start]. destruct (is_space c) eqn:Hc; [exact IH | exact Hc].
Qed.

Lemma trim_end_no_space s : ends_with_space (trim_end s) = false.
Proof.
  induction s as [ | c s IH]; [reflexivity | ].
  cbn [trim_end]. destruct (trim_end s) as [ | d rest] eqn:Ht.
  - destruct (is_space c) eqn:Hc; [reflexivity | exact Hc].
  - exact IH.
Qed.

Lemma trim_end_start s : starts_with_space s = false -> starts_with_space (trim_end s) = false.
Proof.
  destruct s as [ | c s]; [reflexivity | ]. cbn [starts_with_space trim_end]. intros Hc.
  destruct (trim_end s); [now rewrite Hc | exact Hc].
Qed.

Lemma ascii_trim_no_space s :
  starts_with_space (ascii_trim s) = false /\ ends_with_space (ascii_trim s) = false.
Proof.
  unfold ascii_trim.
  split; [apply trim_end_start, trim_start_no_space | apply trim_end_no_space].
Qed.

Lemma ascii_trim_split s :
  exists pre post,
    s = (pre ++ ascii_trim s ++ post)%string /\ all_space pre = true /\ all_space post = true.
Proof.
  destruct (trim_start_split s) as (pre & Hs & Hpre).
  destruct (trim_end_split (trim_start s)) as (post & Ht & Hpost).
  exists pre, post. unfold ascii_trim. now rewrite <- Ht, <- Hs.
Qed.

(** X11: Enter in the address bar and a click on Go send [nav.go] with
    what [trim] makes of the text of the address bar, and send nothing
    when [trim] leaves nothing.  For an ASCII text, the url sent
    neither starts nor ends with a space, a tab or a line break, and
    differs from the text typed by such characters at both ends only.
    Other keys send nothing. *)
Theorem address_bar_sends_trimmed_url (fuel : nat) (w : World) (v : string) :
  address (elements w) = Some v ->
  (trim v = "" -> navigateFromAddress w = (Ret tt, w))
  /\ (trim v <> "" ->
      navigateFromAddress w = send "nav.go" (Some (VObj [("url", VStr (trim v))])) w)
  /\ (is_ascii v = true ->
      (exists pre post,
         v = (pre ++ trim v ++ post)%string /\ all_space pre = true /\ all_space post = true)
      /\ starts_with_space (trim v) = false /\ ends_with_space (trim v) = false)
  /\ fire fuel (AddressKeydown "Enter") w = navigateFromAddress w
  /\ (go (elements w) = true -> fire fuel GoClick w = navigateFromAddress w)
  /\ forall key, key <> "Enter" -> fire fuel (AddressKeydown key) w = (Ret tt, w).
Proof.
  intros Ha.
  split; [ | split; [ | split]].
  - intros Ht. unfold navigateFromAddress, bind, gets. cbv beta. rewrite Ha. cbv zeta.
    now rewrite Ht.
  - intros Ht. unfold navigateFromAddress, bind, gets. cbv beta. rewrite Ha. cbv zeta.
    now rewrite (truthy_nonempty _ Ht).
  - intros Hv. rewrite (trim_ascii v Hv).
    split; [apply ascii_trim_split | apply ascii_trim_no_space].
  - split; [ | split].
    + unfold fire, bind, gets. cbv beta. rewrite Ha.
      now rewrite bool_decide_eq_true_2 by eauto.
    + intros Hgo. unfold fire, bind, gets. cbv beta. now rewrite Hgo.
    + intros key Hkey. unfold fire, bind, gets. cbv beta.
      destruct (String.eqb_spec key "Enter"); [contradiction | ].
      now rewrite andb_false_r.
Qed.


(** ** The command palette *)

Lemma renderPaletteResults_listed query w :
  renderPaletteResults query w = (Ret (palette_results query), palette_listed query w).
Proof.
  unfold renderPaletteResults, palette_listed, bind, gets. cbv beta zeta.
  fold (palette_results query). now destruct (paletteResults (elements w)).
Qed.

Lemma palette_listed_view query w : palette_view (palette_listed query w) = palette_view w.
Proof. unfold palette_listed. now destruct (paletteResults (elements w)). Qed.

Lemma palette_ok_view w w' : palette_view w' = palette_view w -> palette_ok w -> palette_ok w'.
Proof.
  unfold palette_view, palette_ok. intros [= Hin Hidx] Hok v Hv.
  rewrite Hidx. apply Hok. now rewrite <- Hin.
Qed.

Lemma send_keeps_palette type payload : steps (keeps palette_view) (send type payload).
Proof.
  intros w. destruct (send_cases type payload w) as [H | [entry H]]; rewrite H; reflexivity.
Qed.

Lemma closePalette_keeps_palette : steps (keeps palette_view) closePalette.
Proof. intros w. reflexivity. Qed.

Lemma closeTabMenu_keeps_palette : steps (keeps palette_view) closeTabMenu.
Proof.
  intros w. rewrite closeTabMenu_menu_closed. unfold menu_closed. cbn [snd].
  now destruct (tabMenu (elements w)).
Qed.

Lemma setSidebarCollapsed_keeps_palette c : steps (keeps palette_view) (setSidebarCollapsed c).
Proof.
  unfold setSidebarCollapsed. apply steps_bind; [exact _ | | intros; apply send_keeps_palette].
  intros w. now rewrite applySidebarState_sidebar_applied.
Qed.

Lemma run_keeps_palette cmd : In cmd COMMANDS -> steps (keeps palette_view) (run cmd).
Proof.
  intros H. cbn in H.
  repeat (destruct H as [<- | H]; [cbn [run]; try apply send_keeps_palette | ]);
    try destruct H.
  - apply steps_bind; [exact _ | apply steps_gets; exact _ | ].
    intros st. apply setSidebarCollapsed_keeps_palette.
  - intros w. reflexivity.
Qed.

Lemma run_close_keeps_palette cmd :
  In cmd COMMANDS -> steps (keeps palette_view) (run cmd;; closePalette).
Proof.
  intros H. apply steps_bind; [exact _ | now apply run_keeps_palette | ].
  intros _. apply closePalette_keeps_palette.
Qed.

Lemma send_close_keeps_palette type payload :
  steps (keeps palette_view) (send type payload;; closePalette).
Proof.
  apply steps_bind; [exact _ | apply send_keeps_palette | ].
  intros _. apply closePalette_keeps_palette.
Qed.

Lemma palette_results_In query cmd : In cmd (palette_results query) -> In cmd COMMANDS.
Proof. intros H. apply List.filter_In in H. tauto. Qed.

Lemma key_handlers key (down up enter escape : M unit) :
  optional_call (get_property [ ("ArrowDown", Closure down); ("ArrowUp", Closure up);
                                ("Enter", Closure enter); ("Escape", Closure escape) ] key)
  = if String.eqb key "ArrowDown" then down
    else if String.eqb key "ArrowUp" then up
    else if String.eqb key "Enter" then enter
    else if String.eqb key "Escape" then escape
    else optional_call (default Undefined (own_property key Object_prototype)).
Proof.
  unfold get_property. cbn [own_property].
  destruct (String.eqb key "ArrowDown"); [reflexivity | ].
  destruct (String.eqb key "ArrowUp"); [reflexivity | ].
  destruct (String.eqb key "Enter"); [reflexivity | ].
  destruct (String.eqb key "Escape"); reflexivity.
Qed.

Lemma inherited_call_keeps_world key w :
  snd (optional_call (default Undefined (own_property key Object_prototype)) w) = w
  /\ snd (call (default Undefined (own_property key Object_prototype)) w) = w.
Proof.
  unfold Object_prototype. cbn [own_property].
  repeat match goal with
         | |- context [String.eqb key ?k] => destruct (String.eqb key k); [now split | ]
         end.
  now split.
Qed.

Lemma at_index_length {A} (l : list A) i :
  0 <= i < Z.of_nat (length l) -> is_Some (at_index l i).
Proof.
  intros H. unfold at_index. destruct (Z.ltb_spec i 0); [lia | ].
  apply lookup_lt_is_Some. lia.
Qed.

Lemma at_index_nil {A} i : at_index (@nil A) i = None.
Proof. unfold at_index. now destruct (i <? 0). Qed.

Lemma palette_keydown_eq key w v :
  paletteInput (elements w) = Some v ->
  palette_keydown key w
  = (let results := palette_results v in
     let rerender :=
       let* el := gets elements in
       renderPaletteResults (opt_string (paletteInput el));; ret tt in
     if String.eqb key "ArrowDown" then
       modify_state (fun s =>
         set_paletteIndex (Z.min (paletteIndex s + 1) (Z.of_nat (length results) - 1)) s);;
       rerender
     else if String.eqb key "ArrowUp" then
       modify_state (fun s => set_paletteIndex (Z.max (paletteIndex s - 1) 0) s);;
       rerender
     else if String.eqb key "Enter" then
       let* st := gets state in
       match at_index results (paletteIndex st) with
       | Some cmd => run cmd;; closePalette
       | None =>
           let* el := gets elements in
           let trimmedValue := trim (opt_string (paletteInput el)) in
           when (truthy trimmedValue)
                (send "nav.go" (Some (VObj [("url", VStr trimmedValue)]));; closePalette)
       end
     else if String.eqb key "Escape" then closePalette
     else optional_call (default Undefined (own_property key Object_prototype)))
    (palette_listed v w).
Proof.
  intros Hv. unfold palette_keydown.
  unfold bind at 1. unfold gets at 1. cbv beta.
  unfold bind at 1. rewrite Hv. change (opt_string (Some v)) with v.
  rewrite renderPaletteResults_listed. cbv zeta.
  now rewrite key_handlers.
Qed.

(** X12: when no command matches the text of the palette, Enter sends
    [nav.go] with the trimmed text as url, whatever the active index
    is, and closes the palette. *)
Theorem palette_enter_navigates (w : World) (v : string) :
  paletteInput (elements w) = Some v -> palette_results v = [] -> trim v <> "" ->
  palette_keydown "Enter" w
  = (send "nav.go" (Some (VObj [("url", VStr (trim v))]));; closePalette) (palette_listed v w)
  /\ fst (palette_keydown "Enter" w) = Ret tt
  /\ palette_open_class (body (snd (palette_keydown "Enter" w))) = false.
Proof.
  intros Hv Hres Ht.
  assert (Hrun : palette_keydown "Enter" w
    = (send "nav.go" (Some (VObj [("url", VStr (trim v))]));; closePalette)
        (palette_listed v w)).
  { rewrite (palette_keydown_eq _ _ _ Hv). cbv zeta.
    change (String.eqb "Enter" "ArrowDown") with false.
    change (String.eqb "Enter" "ArrowUp") with false.
    change (String.eqb "Enter" "Enter") with true. cbv iota.
    unfold bind at 1. unfold gets at 1. cbv beta.
    rewrite Hres, at_index_nil.
    unfold bind at 1. unfold gets at 1. cbv beta.
    assert (Hin : paletteInput (elements (palette_listed v w)) = Some v).
    { pose proof (palette_listed_view v w) as H. unfold palette_view in H.
      injection H as H _. now rewrite H. }
    rewrite Hin. change (opt_string (Some v)) with v.
    now rewrite (truthy_nonempty _ Ht). }
  split; [exact Hrun | ]. rewrite Hrun. unfold bind.
  destruct (send_cases "nav.go" (Some (VObj [("url", VStr (trim v))])) (palette_listed v w))
    as [H | [entry H]]; rewrite H; split; reflexivity.
Qed.

Lemma palette_ok_zero w : paletteIndex (state w) = 0 -> palette_ok w.
Proof. intros H v _. rewrite H. cbv zeta. lia. Qed.

Lemma openPalette_palette_ok w : palette_ok w -> palette_ok (snd (openPalette w)).
Proof.
  intros Hok. unfold openPalette.
  unfold bind at 1. unfold modify_body at 1, modify at 1.
  unfold bind at 1. unfold gets at 1. cbv beta. cbn [elements set_body].
  destruct (paletteInput (elements w)) as [v | ] eqn:Hv.
  - unfold bind at 1. unfold modify_elements at 1, modify at 1.
    unfold bind at 1. unfold modify_state at 1, modify at 1.
    unfold bind at 1. rewrite renderPaletteResults_listed. cbn [snd ret].
    apply palette_ok_zero.
    pose proof (palette_listed_view ""
      (set_state (set_paletteIndex 0 (state (set_elements (set_paletteInput (Some "")
         (elements (set_body (set_palette_open_class true (body w)) w)))
         (set_body (set_palette_open_class true (body w)) w))))
         (set_elements (set_paletteInput (Some "")
            (elements (set_body (set_palette_open_class true (body w)) w)))
            (set_body (set_palette_open_class true (body w)) w)))) as H.
    unfold palette_view in H. injection H as _ H. exact H.
  - cbn [snd ret]. revert Hok. apply palette_ok_view. reflexivity.
Qed.

Lemma palette_keydown_palette_ok key w v :
  paletteInput (elements w) = Some v -> palette_ok w -> palette_ok (snd (palette_keydown key w)).
Proof.
  intros Hv Hok. rewrite (palette_keydown_eq _ _ _ Hv). cbv zeta.
  pose proof (palette_listed_view v w) as Hview.
  assert (Hok1 : palette_ok (palette_listed v w)) by now apply (palette_ok_view w).
  assert (Hv1 : paletteInput (elements (palette_listed v w)) = Some v).
  { unfold palette_view in Hview. injection Hview as H _. now rewrite H. }
  assert (Hi1 : paletteIndex (state (palette_listed v w)) = paletteIndex (state w)).
  { unfold palette_view in Hview. now injection Hview as _ H. }
  set (w1 := palette_listed v w) in *.
  assert (Harrow : forall i',
    ((Z.of_nat (length (palette_results v)) = 0 -> -1 <= i' <= 0)
     /\ (0 < Z.of_nat (length (palette_results v)) ->
         0 <= i' < Z.of_nat (length (palette_results v)))) ->
    palette_ok
      (snd ((modify_state (set_paletteIndex i');;
             let* el := gets elements in
             renderPaletteResults (opt_string (paletteInput el));; ret tt) w1))).
  { intros i' Hi'. unfold bind at 1. unfold modify_state at 1, modify at 1.
    unfold bind at 1. unfold gets at 1. cbv beta. cbn [elements set_state].
    rewrite Hv1. change (opt_string (Some v)) with v.
    unfold bind at 1. rewrite renderPaletteResults_listed. cbn [snd ret].
    apply (palette_ok_view (set_state (set_paletteIndex i' (state w1)) w1));
      [apply palette_listed_view | ].
    intros v' Hv'. cbn [elements set_state] in Hv'. rewrite Hv1 in Hv'.
    injection Hv' as <-. exact Hi'. }
  destruct (Hok1 v Hv1) as [Hzero Hpos]. cbv zeta in Hzero, Hpos.
  destruct (String.eqb key "ArrowDown").
  { apply (Harrow (Z.min (paletteIndex (state w1) + 1)
                         (Z.of_nat (length (palette_results v)) - 1))). lia. }
  destruct (String.eqb key "ArrowUp").
  { apply (Harrow (Z.max (paletteIndex (state w1) - 1) 0)). lia. }
  destruct (String.eqb key "Enter").
  { unfold bind at 1. unfold gets at 1. cbv beta.
    destruct (at_index (palette_results v) (paletteIndex (state w1))) as [cmd | ] eqn:Hcmd.
    - apply (palette_ok_view w1); [ | exact Hok1].
      apply run_close_keeps_palette. apply (palette_results_In v).
      unfold at_index in Hcmd. destruct (paletteIndex (state w1) <? 0); [discriminate | ].
      apply list_elem_of_In. now apply list_elem_of_lookup_2 in Hcmd.
    - unfold bind at 1. unfold gets at 1. cbv beta. rewrite Hv1.
      change (opt_string (Some v)) with v.
      destruct (truthy (trim v)); [ | exact Hok1].
      apply (palette_ok_view w1); [ | exact Hok1].
      apply send_close_keeps_palette. }
  destruct (String.eqb key "Escape"); [exact Hok1 | ].
  now rewrite (proj1 (inherited_call_keeps_world key w1)).
Qed.

Lemma window_keydown_palette_ok modKey key w :
  palette_ok w -> palette_ok (snd (window_keydown modKey key w)).
Proof.
  intros Hok. unfold window_keydown. cbv zeta.
  assert (Hescape : forall w0,
    palette_ok w0 ->
    palette_ok (snd (when (String.eqb key "Escape")
       (let* b := gets body in
        when (palette_open_class b) closePalette;;
        let* ms := gets menuState in
        when (menu_open ms) closeTabMenu) w0))).
  { intros w0 H0. apply (palette_ok_view w0); [ | exact H0].
    assert (Hs : steps (keeps palette_view)
      (when (String.eqb key "Escape")
         (let* b := gets body in
          when (palette_open_class b) closePalette;;
          let* ms := gets menuState in
          when (menu_open ms) closeTabMenu))).
    { apply steps_when; [exact _ | ].
      apply steps_bind; [exact _ | apply steps_gets; exact _ | intros b].
      apply steps_bind; [exact _ | | intros _].
      - apply steps_when; [exact _ | apply closePalette_keeps_palette].
      - apply steps_bind; [exact _ | apply steps_gets; exact _ | intros ms].
        apply steps_when; [exact _ | apply closeTabMenu_keeps_palette]. }
    apply Hs. }
  unfold get_property. cbn [own_property].
  set (k := toLowerCase key).
  unfold bind at 1.
  destruct (String.eqb k "l").
  { cbn [truthy_property call optional_call]. unfold focus_address.
    destruct modKey; cbn [andb when ret]; now apply Hescape. }
  destruct (String.eqb k "k").
  { cbn [truthy_property call optional_call].
    destruct modKey; cbn [andb when ret]; [ | now apply Hescape].
    destruct (openPalette w) as [[[] | e | ] w0] eqn:Hopen;
      pose proof (openPalette_palette_ok w Hok) as H0; rewrite Hopen in H0;
      cbn [snd] in H0 |- *; [now apply Hescape | exact H0 | exact H0]. }
  destruct (String.eqb k "p").
  { cbn [truthy_property call optional_call].
    destruct modKey; cbn [andb when ret]; [ | now apply Hescape].
    destruct (openPalette w) as [[[] | e | ] w0] eqn:Hopen;
      pose proof (openPalette_palette_ok w Hok) as H0; rewrite Hopen in H0;
      cbn [snd] in H0 |- *; [now apply Hescape | exact H0 | exact H0]. }
  pose proof (proj2 (inherited_call_keeps_world k w)) as Hcall.
  destruct (modKey && truthy_property (default Undefined (own_property k Object_prototype)));
    cbn [when ret]; [ | now apply Hescape].
  destruct (call (default Undefined (own_property k Object_prototype)) w)
    as [[[] | e | ] w0]; cbn [snd] in Hcall |- *; subst w0;
    [now apply Hescape | exact Hok | exact Hok].
Qed.

Lemma fire_palette_ok fuel l w :
  palette_event l = true -> palette_ok w -> palette_ok (snd (fire fuel l w)).
Proof.
  intros Hl Hok. unfold fire. unfold bind at 1. unfold gets at 1. cbv beta.
  unfold bind at 1. unfold gets at 1. cbv beta.
  destruct l; try discriminate Hl.
  - (* the backdrop *)
    destruct (paletteBackdrop (elements w)); cbn [when ret snd]; [ | exact Hok].
    revert Hok. apply palette_ok_view. reflexivity.
  - (* typing *)
    destruct (paletteInput (elements w)) as [v | ] eqn:Hv.
    + rewrite bool_decide_eq_true_2 by eauto. cbn [when].
      unfold bind at 1. unfold modify_elements at 1, modify at 1.
      unfold bind at 1. unfold modify_state at 1, modify at 1.
      unfold bind at 1. rewrite renderPaletteResults_listed. cbn [snd ret].
      apply palette_ok_zero.
      match goal with
      | |- paletteIndex (state (palette_listed ?q ?x)) = _ =>
          pose proof (palette_listed_view q x) as H
      end.
      unfold palette_view in H. injection H as _ H. exact H.
    + rewrite bool_decide_eq_false_2 by (intros [x Hx]; discriminate). exact Hok.
  - (* a key in the input *)
    destruct (paletteInput (elements w)) as [v | ] eqn:Hv.
    + rewrite bool_decide_eq_true_2 by eauto. cbn [when].
      now apply (palette_keydown_palette_ok key w v).
    + rewrite bool_decide_eq_false_2 by (intros [x Hx]; discriminate). exact Hok.
  - (* a click on an item *)
    destruct (default [] (paletteResults (elements w)) !! index) as [[item active] | ];
      [ | exact Hok].
    destruct (List.find (fun cmd => String.eqb (label cmd) item) COMMANDS) as [cmd | ] eqn:Hf;
      [ | exact Hok].
    apply (palette_ok_view w); [ | exact Hok].
    apply run_close_keeps_palette. now apply List.find_some in Hf.
  - now apply window_keydown_palette_ok.
Qed.

(** X13: from the loading of the page on, through any sequence of
    palette events (opening by shortcut, typing, arrow keys, Enter,
    Escape, clicks on items and on the backdrop), the active index is
    the index of a listed command whenever a command is listed, and is
    [0] or [-1] otherwise.  So Enter runs a listed command and closes
    the palette whenever a command is listed. *)
Theorem palette_index_in_range :
  (forall el b, palette_ok (initial_world el b))
  /\ (forall fuel l w,
        palette_event l = true -> palette_ok w -> palette_ok (snd (fire fuel l w)))
  /\ (forall fuel ls el b,
        forallb palette_event ls = true ->
        palette_ok (run_actions fuel (map Fire ls) (initial_world el b)))
  /\ (forall w v,
        palette_ok w -> paletteInput (elements w) = Some v -> palette_results v <> [] ->
        exists cmd,
          In cmd (palette_results v)
          /\ palette_keydown "Enter" w = (run cmd;; closePalette) (palette_listed v w)).
Proof.
  assert (Hinit : forall el b, palette_ok (initial_world el b)).
  { intros el b. now apply palette_ok_zero. }
  split; [exact Hinit | ]. split; [exact fire_palette_ok | ]. split.
  - intros fuel ls el b. generalize (initial_world el b) (Hinit el b).
    induction ls as [ | l ls IH]; intros w Hok Hls; [exact Hok | ].
    cbn [forallb] in Hls. apply andb_prop in Hls as [Hl Hls].
    cbn [map run_actions act]. apply IH; [ | exact Hls]. now apply fire_palette_ok.
  - intros w v Hok Hv Hne.
    rewrite (palette_keydown_eq _ _ _ Hv). cbv zeta.
    change (String.eqb "Enter" "ArrowDown") with false.
    change (String.eqb "Enter" "ArrowUp") with false.
    change (String.eqb "Enter" "Enter") with true. cbv iota.
    unfold bind at 1. unfold gets at 1. cbv beta.
    pose proof (palette_listed_view v w) as Hview. unfold palette_view in Hview.
    injection Hview as _ Hidx. rewrite Hidx.
    destruct (Hok v Hv) as [_ Hpos]. cbv zeta in Hpos.
    destruct (at_index_length (palette_results v) (paletteIndex (state w))) as [cmd Hcmd].
    { apply Hpos. destruct (palette_results v); [contradiction | cbn [length]; lia]. }
    rewrite Hcmd. exists cmd. split; [ | reflexivity].
    unfold at_index in Hcmd. destruct (paletteIndex (state w) <? 0); [discriminate | ].
    apply list_elem_of_In. now apply list_elem_of_lookup_2 in Hcmd.
Qed.

(** ** Searching the tabs *)

(** The listener of the search box: the query is stored trimmed, the
    stored snapshot is filtered by it and the result rendered. *)
Lemma tab_search_forest fuel q ts w :
  tabSearch (elements w) = true ->
  forest_at (heap w) (lastTabs (state w)) ts -> (forest_height ts < fuel)%nat ->
  exists w' M',
    fire fuel (TabSearchInput q) w = (Ret tt, w')
    /\ heap w `prefix_of` heap w'
    /\ (trim q = "" -> heap w' = heap w)
    /\ state w'
       = set_tabMap M'
           (set_flatTabs (map vis_id (visible_forest (filter_forest (trim q) ts)))
              (set_tabQuery (trim q) (state w)))
    /\ maps_visible (heap w') (visible_forest (filter_forest (trim q) ts)) ∅ M'
    /\ tabs (elements w')
       = (fun _ => map (sync_row (sidebarCollapsed (state w)))
                       (rows_of (state w) (visible_forest (filter_forest (trim q) ts))))
           <$> tabs (elements w)
    /\ tabSearch (elements w') = tabSearch (elements w).
Proof.
  intros Hsearch Hat Hh.
  set (w1 := set_state (set_tabQuery (trim q) (state w)) w).
  destruct (filterNodes_any_query fuel ts (lastTabs (state w)) (trim q) w1 Hat Hh)
    as (locs' & h' & Hfilter & Hp & Hf & Hempty).
  set (fts := filter_forest (trim q) ts) in *.
  assert (Hfh : (forest_height fts < fuel)%nat).
  { pose proof (filter_forest_height (trim q) ts). subst fts. lia. }
  destruct (renderTabs_forest fuel locs' fts (set_heap h' w1) Hf Hfh) as (M' & Hrender & Hmap).
  eexists _, M'. split; [ | split; [ | split; [ | split; [ | split; [ | split]]]]].
  - unfold fire. unfold bind at 1. unfold gets at 1. cbv beta.
    unfold bind at 1. unfold gets at 1. cbv beta. rewrite Hsearch. cbn [when].
    unfold bind at 1. unfold modify_state at 1, modify at 1.
    unfold bind at 1. unfold gets at 1. cbv beta.
    unfold bind at 1.
    change (filterNodes fuel _ _ _) with (filterNodes fuel (lastTabs (state w)) (trim q) w1).
    rewrite Hfilter. exact Hrender.
  - exact Hp.
  - intros Hq. now destruct (Hempty Hq).
  - reflexivity.
  - exact Hmap.
  - reflexivity.
  - reflexivity.
Qed.

Lemma visible_prune needle d t :
  map vis_id (visible d (prune needle t)) = map tree_id (nodes_of (prune needle t)).
Proof.
  revert d. induction t as [n IH] using Tree_induction. intros d.
  cbn [prune visible nodes_of Node.is_expanded Node.set_is_expanded Node.with_children
       Node.children map].
  f_equal. rewrite keep_map_filter.
  induction IH as [ | k l Hk _ IHl]; [reflexivity | ].
  cbn [List.filter]. destruct (kept needle k); [ | exact IHl].
  cbn [map flat_map]. rewrite !map_app. now rewrite Hk, IHl.
Qed.

Lemma visible_pruned_forest needle ts :
  map vis_id (visible_forest (map (prune needle) (List.filter (kept needle) ts)))
  = map tree_id (nodes_of_forest (map (prune needle) (List.filter (kept needle) ts))).
Proof.
  unfold visible_forest, nodes_of_forest.
  induction (List.filter (kept needle) ts) as [ | t l IH]; [reflexivity | ].
  cbn [map flat_map]. rewrite !map_app. now rewrite visible_prune, IH.
Qed.

Lemma kept_up needle t x :
  In x (nodes_of t) -> kept needle x = true -> kept needle t = true.
Proof.
  induction t as [n IH] using Tree_induction. cbn [nodes_of].
  intros [<- | Hx] Hk; [exact Hk | ].
  apply in_flat_map in Hx as (k & Hin & Hx).
  cbn [kept]. apply orb_true_iff. right. apply existsb_exists. exists k.
  split; [exact Hin | ]. rewrite List.Forall_forall in IH. now apply (IH k Hin).
Qed.

Lemma kept_listed needle t x :
  In x (nodes_of t) -> kept needle x = true ->
  In (tree_id x) (map tree_id (nodes_of (prune needle t))).
Proof.
  induction t as [n IH] using Tree_induction. cbn [nodes_of].
  intros [<- | Hx] Hk.
  - cbn [prune nodes_of map]. left. reflexivity.
  - apply in_flat_map in Hx as (k & Hin & Hx).
    cbn [prune nodes_of map Node.children Node.with_children]. right.
    rewrite List.Forall_forall in IH. specialize (IH k Hin Hx Hk).
    apply in_map_iff in IH as (y & Hy & Hiny). apply in_map_iff. exists y.
    split; [exact Hy | ]. apply in_flat_map. exists (prune needle k). split; [ | exact Hiny].
    apply in_flat_map. exists k. split; [exact Hin | ].
    rewrite (kept_up needle k x Hx Hk). now left.
Qed.

Lemma listed_kept needle t id :
  kept needle t = true ->
  In id (map tree_id (nodes_of (prune needle t))) ->
  exists x, In x (nodes_of t) /\ tree_id x = id /\ kept needle x = true.
Proof.
  induction t as [n IH] using Tree_induction. intros Hk.
  cbn [prune nodes_of map Node.children Node.with_children].
  intros [<- | Hid].
  - exists (T n). split; [now left | ]. split; [reflexivity | exact Hk].
  - apply in_map_iff in Hid as (y & Hy & Hiny).
    apply in_flat_map in Hiny as (pk & Hpk & Hiny).
    apply in_flat_map in Hpk as (k & Hin & Hpk).
    destruct (kept needle k) eqn:Hkk; [ | destruct Hpk].
    destruct Hpk as [<- | []].
    rewrite List.Forall_forall in IH.
    destruct (IH k Hin Hkk) as (x & Hx & Hxid & Hxk).
    { apply in_map_iff. eauto. }
    exists x. split; [ | now split]. cbn [nodes_of]. right. apply in_flat_map. eauto.
Qed.

(** X14: a search lists every match.  After the search box has been
    given a query that is not blank, the flat order has the id of every
    tab of the stored snapshot whose title or url contains the trimmed
    query regardless of case, also of one inside a collapsed group;
    every id listed is of a tab that matches or has a descendant that
    matches; the rows carry the ids listed; the stored snapshot is as it
    was. *)
Theorem search_lists_every_match (fuel : nat) (q : string) (ts : list Tree) (w : World) :
  tabSearch (elements w) = true ->
  forest_at (heap w) (lastTabs (state w)) ts -> (forest_height ts < fuel)%nat ->
  trim q <> "" ->
  let needle := toLowerCase (trim q) in
  exists w',
    fire fuel (TabSearchInput q) w = (Ret tt, w')
    /\ (forall x, In x (nodes_of_forest ts) -> matches needle (root x) = true ->
          In (tree_id x) (flatTabs (state w')))
    /\ (forall id, In id (flatTabs (state w')) ->
          exists x y,
            In x (nodes_of_forest ts) /\ tree_id x = id
            /\ In y (nodes_of x) /\ matches needle (root y) = true)
    /\ (forall rows, tabs (elements w') = Some rows -> map data_id rows = flatTabs (state w'))
    /\ lastTabs (state w') = lastTabs (state w)
    /\ forest_at (heap w') (lastTabs (state w')) ts.
Proof.
  intros Hsearch Hat Hh Hq needle.
  destruct (tab_search_forest fuel q ts w Hsearch Hat Hh)
    as (w' & M' & Hrun & Hp & _ & Hstate & _ & Hrows & _).
  exists w'. split; [exact Hrun | ].
  assert (Hflat : flatTabs (state w')
                  = map tree_id (nodes_of_forest
                      (map (prune needle) (List.filter (kept needle) ts)))).
  { rewrite Hstate. cbn [flatTabs set_tabMap set_flatTabs].
    unfold filter_forest. rewrite (truthy_nonempty _ Hq). cbn [negb].
    rewrite filter_forest_kept. apply visible_pruned_forest. }
  split; [ | split; [ | split; [ | split]]].
  - intros x Hx Hm. rewrite Hflat.
    apply in_flat_map in Hx as (t & Ht & Hx).
    assert (Hkx : kept needle x = true).
    { apply kept_some_node. exists x. split; [ | exact Hm]. destruct x. now left. }
    pose proof (kept_listed needle t x Hx Hkx) as Hin.
    apply in_map_iff in Hin as (y & Hy & Hiny). apply in_map_iff. exists y.
    split; [exact Hy | ]. apply in_flat_map. exists (prune needle t). split; [ | exact Hiny].
    apply in_map. apply List.filter_In. split; [exact Ht | ].
    now apply (kept_up needle t x).
  - intros id Hid. rewrite Hflat in Hid.
    apply in_map_iff in Hid as (y & Hy & Hiny).
    apply in_flat_map in Hiny as (pt & Hpt & Hiny).
    apply in_map_iff in Hpt as (t & <- & Ht). apply List.filter_In in Ht as [Ht Hkt].
    destruct (listed_kept needle t id Hkt) as (x & Hx & Hxid & Hxk).
    { apply in_map_iff. eauto. }
    apply kept_some_node in Hxk as (z & Hz & Hmz).
    exists x, z. split; [ | now repeat split]. apply in_flat_map. eauto.
  - intros rows Hr. rewrite Hrows in Hr.
    destruct (tabs (elements w)) as [old | ]; [ | discriminate].
    injection Hr as <-. rewrite data_id_rows. rewrite Hstate. reflexivity.
  - now rewrite Hstate.
  - rewrite Hstate. cbn [lastTabs set_tabMap set_flatTabs set_tabQuery].
    now apply (forest_at_mono (heap w)).
Qed.

Lemma sample_loaded_forest_at :
  forest_at (heap sample_loaded) (lastTabs (state sample_loaded)) sample_forest.
Proof.
  exact (proj1 (applyState_tabMap_ok 3 {| p_tabs := sample_locs; p_active := Some 3 |}
                  sample_forest sample_page sample_forest_at ltac:(vm_compute; lia))).
Defined.

(** X15: a search does not spoil the snapshot.  Clearing the search box
    after any search shows the rows and the flat order that rendering
    the stored snapshot shows, allocates nothing, and leaves the stored
    snapshot as it was. *)
Theorem search_then_clear (fuel : nat) (q blank : string) (ts : list Tree) (w : World) :
  tabSearch (elements w) = true ->
  forest_at (heap w) (lastTabs (state w)) ts -> (forest_height ts < fuel)%nat ->
  trim blank = "" ->
  let searched := snd (fire fuel (TabSearchInput q) w) in
  let cleared := snd (fire fuel (TabSearchInput blank) searched) in
  let plain := snd (renderTabs fuel (lastTabs (state w)) w) in
  fst (fire fuel (TabSearchInput blank) searched) = Ret tt
  /\ tabs (elements cleared) = tabs (elements plain)
  /\ flatTabs (state cleared) = flatTabs (state plain)
  /\ tabQuery (state cleared) = ""
  /\ lastTabs (state cleared) = lastTabs (state w)
  /\ forest_at (heap cleared) (lastTabs (state cleared)) ts
  /\ heap cleared = heap searched.
Proof.
  intros Hsearch Hat Hh Hblank searched cleared plain.
  destruct (tab_search_forest fuel q ts w Hsearch Hat Hh)
    as (w1 & M1 & Hrun1 & Hp1 & _ & Hstate1 & _ & Hrows1 & Hts1).
  assert (Hw1 : searched = w1) by (subst searched; now rewrite Hrun1).
  assert (Hsearch1 : tabSearch (elements w1) = true) by now rewrite Hts1.
  assert (Hat1 : forest_at (heap w1) (lastTabs (state w1)) ts).
  { rewrite Hstate1. cbn [lastTabs set_tabMap set_flatTabs set_tabQuery].
    now apply (forest_at_mono (heap w)). }
  destruct (tab_search_forest fuel blank ts w1 Hsearch1 Hat1 Hh)
    as (w2 & M2 & Hrun2 & _ & Hheap2 & Hstate2 & _ & Hrows2 & _).
  rewrite Hblank in Hstate2, Hrows2. specialize (Hheap2 Hblank).
  change (filter_forest "" ts) with ts in Hstate2, Hrows2.
  destruct (renderTabs_forest fuel (lastTabs (state w)) ts w Hat Hh) as (M0 & Hrun0 & _).
  subst cleared plain. rewrite Hw1, Hrun2, Hrun0. cbn [fst snd].
  split; [reflexivity | ]. split; [ | split; [ | split; [ | split; [ | split]]]].
  - rewrite Hrows2, Hrows1, Hstate1.
    cbn [elements set_elements tabs set_tabs].
    now destruct (tabs (elements w)).
  - now rewrite Hstate2.
  - now rewrite Hstate2.
  - now rewrite Hstate2, Hstate1.
  - rewrite Hheap2, Hstate2. exact Hat1.
  - exact Hheap2.
Qed.

(** ** The rows, the flat order and the map of the nodes *)

Lemma has_row_In id el :
  has_row id el = true <-> In id (map data_id (default [] (tabs el))).
Proof.
  unfold has_row. rewrite existsb_exists, in_map_iff. split.
  - intros (r & Hr & Hid). apply bool_decide_eq_true in Hid. eauto.
  - intros (r & Hid & Hr). exists r. split; [exact Hr | now apply bool_decide_eq_true].
Qed.

(** X16: after [renderTabs] the three views of the sidebar agree: an id
    is in [state.flatTabs] exactly when [state.tabMap] has a node for
    it, that node is an object of this id, and, in a page with the tab
    list, exactly when a row carries it. *)
Theorem rendered_ids_agree (fuel : nat) (locs : list loc) (ts : list Tree) (w : World) :
  forest_at (heap w) locs ts -> (forest_height ts < fuel)%nat ->
  let w' := snd (renderTabs fuel locs w) in
  (forall id, In id (flatTabs (state w')) <-> is_Some (tabMap (state w') !! id))
  /\ (is_Some (tabs (elements w)) ->
      forall id, has_row id (elements w') = true <-> In id (flatTabs (state w')))
  /\ (forall id l, tabMap (state w') !! id = Some l ->
        exists n, heap w' !! l = Some n /\ Node.id n = id).
Proof.
  intros Hat Hh w'.
  destruct (renderTabs_forest fuel locs ts w Hat Hh) as (M' & Hrun & Hmap).
  subst w'. rewrite Hrun. cbn [snd].
  cbn [state set_elements set_state flatTabs tabMap set_tabMap set_flatTabs elements heap].
  destruct Hmap as (Hfrom & _ & Hto).
  split; [ | split].
  - intros id. split.
    + intros Hid. apply in_map_iff in Hid as (dt & <- & Hdt). now apply Hto.
    + intros [l Hl]. destruct (Hfrom id l Hl) as [He | (dt & Hdt & Hid & _)].
      * now rewrite lookup_empty in He.
      * apply in_map_iff. eauto.
  - intros [old Hold] id. rewrite has_row_In. cbn [tabs set_tabs]. rewrite Hold.
    cbn [fmap option_fmap option_map]. change (default [] (Some ?x)) with x.
    now rewrite data_id_rows.
  - intros id l Hl. destruct (Hfrom id l Hl) as [He | (dt & _ & Hid & Hat')].
    + now rewrite lookup_empty in He.
    + destruct dt as [d [n]]. inversion Hat' as [l0 n0 clocs Hlook _]; subst.
      exists (Node.with_children clocs n). split; [exact Hlook | reflexivity].
Qed.

(** ** The tab menu *)

Lemma when_send_ret b type payload w :
  exists w', when b (send type payload) w = (Ret tt, w') /\ elements w' = elements w.
Proof.
  destruct b; [ | now exists w]. cbn [when].
  destruct (send_cases type payload w) as [E | [entry E]]; rewrite E; eauto.
Qed.

Lemma tabMenu_click_closes action w :
  is_Some (menu_tabId (menuState w)) -> is_Some (tabMenu (elements w)) ->
  menuState (snd (tabMenu_click (Some action) w)) = {| menu_open := false; menu_tabId := None |}.
Proof.
  intros [tabId Hid] [m Hm]. unfold tabMenu_click.
  unfold bind at 1. unfold gets at 1. cbv beta. rewrite Hid.
  destruct (when_send_ret (String.eqb action "pin") "tab.pin" (id_payload tabId) w)
    as (w1 & H1 & E1).
  destruct (when_send_ret (String.eqb action "mute") "tab.mute" (id_payload tabId) w1)
    as (w2 & H2 & E2).
  destruct (when_send_ret (String.eqb action "unload") "tab.unload" (id_payload tabId) w2)
    as (w3 & H3 & E3).
  rewrite (bind_eq _ _ _ _ _ H1), (bind_eq _ _ _ _ _ H2), (bind_eq _ _ _ _ _ H3).
  rewrite closeTabMenu_menu_closed. unfold menu_closed. cbn [snd].
  now rewrite E3, E2, E1, Hm.
Qed.

Lemma openTabMenu_known w id m (l : loc) n :
  tabMenu (elements w) = Some m -> tabMap (state w) !! id = Some l -> heap w !! l = Some n ->
  exists w1,
    openTabMenu id w = (Ret tt, w1)
    /\ menuState w1 = {| menu_open := true; menu_tabId := Some id |}
    /\ tabMenu (elements w1)
       = Some {| tm_is_open := true; tm_aria_hidden := false;
                 tm_pin := (fun _ => if Node.is_pinned n then "Unpin" else "Pin")
                             <$> tm_pin m;
                 tm_mute := (fun _ => if Node.is_muted n then "Unmute" else "Mute")
                              <$> tm_mute m;
                 tm_unload := (fun _ => if Node.is_suspended n then "Reload" else "Unload")
                                <$> tm_unload m |}.
Proof.
  intros Hm Hl Hn. eexists. split; [ | split].
  - unfold openTabMenu. unfold bind at 1. unfold gets at 1. cbv beta. rewrite Hm.
    unfold bind at 1. unfold gets at 1. cbv beta. rewrite Hl.
    unfold bind at 1. rewrite (deref_eq l n w Hn). cbv zeta.
    unfold bind at 1. unfold modify_elements at 1, modify at 1.
    unfold bind at 1. rewrite closeTabMenu_menu_closed. unfold menu_closed.
    cbn [elements set_elements tabMenu set_tabMenu].
    unfold bind at 1. unfold modify at 1.
    unfold modify_elements, modify. reflexivity.
  - reflexivity.
  - reflexivity.
Qed.

(** X17: [openTabMenu] does nothing for an id that [state.tabMap] does
    not know.  For a known id it opens the menu for this tab, with the
    items labelled by the pinned, muted and suspended flags of the
    node; a click on an item then sends [tab.pin], [tab.mute] or
    [tab.unload] with this id, and any click on an item closes the
    menu. *)
Theorem tab_menu_flow (w : World) (id : TabId) (m : TabMenu) :
  tabMenu (elements w) = Some m ->
  (tabMap (state w) !! id = None -> openTabMenu id w = (Ret tt, w))
  /\ forall l n,
       tabMap (state w) !! id = Some l -> heap w !! l = Some n ->
       exists w1,
         openTabMenu id w = (Ret tt, w1)
         /\ menuState w1 = {| menu_open := true; menu_tabId := Some id |}
         /\ tabMenu (elements w1)
            = Some {| tm_is_open := true; tm_aria_hidden := false;
                      tm_pin := (fun _ => if Node.is_pinned n then "Unpin" else "Pin")
                                  <$> tm_pin m;
                      tm_mute := (fun _ => if Node.is_muted n then "Unmute" else "Mute")
                                   <$> tm_mute m;
                      tm_unload := (fun _ => if Node.is_suspended n then "Reload" else "Unload")
                                     <$> tm_unload m |}
         /\ tabMenu_click (Some "pin") w1 = (send "tab.pin" (id_payload id);; closeTabMenu) w1
         /\ tabMenu_click (Some "mute") w1 = (send "tab.mute" (id_payload id);; closeTabMenu) w1
         /\ tabMenu_click (Some "unload") w1
            = (send "tab.unload" (id_payload id);; closeTabMenu) w1
         /\ forall action,
              menuState (snd (tabMenu_click (Some action) w1))
              = {| menu_open := false; menu_tabId := None |}.
Proof.
  intros Hm. split.
  - intros Hnone. unfold openTabMenu, bind, gets. cbv beta. now rewrite Hm, Hnone.
  - intros l n Hl Hn.
    destruct (openTabMenu_known w id m l n Hm Hl Hn) as (w1 & Hrun & Hms & Htm).
    exists w1. split; [exact Hrun | ]. split; [exact Hms | ]. split; [exact Htm | ].
    assert (Hclick : forall action,
      tabMenu_click (Some action) w1
      = (when (String.eqb action "pin") (send "tab.pin" (id_payload id));;
         when (String.eqb action "mute") (send "tab.mute" (id_payload id));;
         when (String.eqb action "unload") (send "tab.unload" (id_payload id));;
         closeTabMenu) w1).
    { intros action. unfold tabMenu_click. unfold bind at 1. unfold gets at 1. cbv beta.
      now rewrite Hms. }
    split; [apply Hclick | ]. split; [apply Hclick | ]. split; [apply Hclick | ].
    intros action. apply tabMenu_click_closes; [rewrite Hms | rewrite Htm]; now eexists.
Qed.

(** X23: after [renderTabs], in a page with the tab list and the tab
    menu, the context menu of every row works: a right click on a row,
    Shift+F10 or the ContextMenu key on it open the tab menu for the
    id of this row, with the items labelled by the flags of a visible
    tab of this id. *)
Theorem row_context_menu (fuel fuel' : nat) (locs : list loc) (ts : list Tree) (w : World)
    (m : TabMenu) (id : TabId) :
  forest_at (heap w) locs ts -> (forest_height ts < fuel)%nat ->
  is_Some (tabs (elements w)) -> tabMenu (elements w) = Some m ->
  In id (map vis_id (visible_forest ts)) ->
  let w' := snd (renderTabs fuel locs w) in
  exists w1 d t,
    fire fuel' (RowContextmenu id) w' = (Ret tt, w1)
    /\ fire fuel' (RowKeydown id true "F10") w' = (Ret tt, w1)
    /\ fire fuel' (RowKeydown id false "ContextMenu") w' = (Ret tt, w1)
    /\ In (d, t) (visible_forest ts) /\ tree_id t = id
    /\ menuState w1 = {| menu_open := true; menu_tabId := Some id |}
    /\ tabMenu (elements w1)
       = Some {| tm_is_open := true; tm_aria_hidden := false;
                 tm_pin := (fun _ => if Node.is_pinned (root t) then "Unpin" else "Pin")
                             <$> tm_pin m;
                 tm_mute := (fun _ => if Node.is_muted (root t) then "Unmute" else "Mute")
                              <$> tm_mute m;
                 tm_unload :=
                   (fun _ => if Node.is_suspended (root t) then "Reload" else "Unload")
                     <$> tm_unload m |}.
Proof.
  intros Hat Hh [old Hold] Hm Hid w'.
  destruct (renderTabs_forest fuel locs ts w Hat Hh) as (M' & Hrun & Hfrom & _ & Hto).
  assert (Hrow : has_row id (elements w') = true).
  { apply has_row_In. subst w'. rewrite Hrun. cbn [snd elements set_elements tabs set_tabs].
    rewrite Hold. cbn [fmap option_fmap option_map]. change (default [] (Some ?x)) with x.
    now rewrite data_id_rows. }
  assert (Hmap : tabMap (state w') = M') by (subst w'; now rewrite Hrun).
  assert (Hheap : heap w' = heap w) by (subst w'; now rewrite Hrun).
  assert (Hmenu : tabMenu (elements w') = Some m) by (subst w'; now rewrite Hrun).
  apply in_map_iff in Hid as (dt0 & Hid0 & Hdt0).
  destruct (Hto dt0 Hdt0) as [l Hl]. rewrite Hid0 in Hl.
  destruct (Hfrom id l Hl) as [He | ([d t] & Hdt & Hidt & Hat')];
    [now rewrite lookup_empty in He | ].
  cbn [snd] in Hat'. unfold vis_id in Hidt. cbn [snd] in Hidt.
  destruct t as [n]. inversion Hat' as [l0 n0 clocs Hlook _]; subst l0 n0.
  destruct (openTabMenu_known w' id m l (Node.with_children clocs n) Hmenu)
    as (w1 & Hopen & Hms & Htm).
  { now rewrite Hmap. }
  { now rewrite Hheap. }
  exists w1, d, (T n).
  split; [ | split; [ | split; [ | split; [exact Hdt | split; [exact Hidt | split; [exact Hms | ]]]]]].
  - unfold fire. unfold bind at 1. unfold gets at 1. cbv beta.
    unfold bind at 1. unfold gets at 1. cbv beta. rewrite Hrow. exact Hopen.
  - unfold fire. unfold bind at 1. unfold gets at 1. cbv beta.
    unfold bind at 1. unfold gets at 1. cbv beta. rewrite Hrow. cbn [when].
    change (true && String.eqb "F10" "F10") with true.
    change (String.eqb "F10" "ContextMenu") with false. cbn [when].
    now rewrite (bind_eq _ _ _ _ _ Hopen).
  - unfold fire. unfold bind at 1. unfold gets at 1. cbv beta.
    unfold bind at 1. unfold gets at 1. cbv beta. rewrite Hrow. cbn [when andb].
    unfold bind at 1. unfold ret at 1.
    change (String.eqb "ContextMenu" "ContextMenu") with true. exact Hopen.
  - exact Htm.
Qed.

(** ** The rows under a favicon update *)

Lemma write_favicon_uri_frame l v w :
  state (snd (write_favicon_uri l v w)) = state w
  /\ elements (snd (write_favicon_uri l v w)) = elements w.
Proof.
  unfold write_favicon_uri, deref, bind, gets, modify. cbv beta.
  destruct (heap w !! l); now split.
Qed.

Lemma favicon_loop_elements (raw : option string) (id_list : list TabId) :
  forall w w',
    for_of id_list (fun id =>
      let* st := gets state in
      match tabMap st !! id with
      | Some node => write_favicon_uri node (or_null raw)
      | None => ret tt
      end;;
      let* el := gets elements in
      match tabs el with
      | None => ret tt
      | Some rows =>
          modify_elements (set_tabs (Some
            (update_first_row id (favicon_row raw (defaultFavicon st)) rows)))
      end) w = (Ret tt, w') ->
    state w' = state w
    /\ elements w' = foldl (favicon_patch raw (defaultFavicon (state w))) (elements w) id_list.
Proof.
  induction id_list as [ | id rest IH]; intros w w' Hrun.
  - cbn [for_of] in Hrun. injection Hrun as <-. now split.
  - cbn [for_of foldl] in Hrun |- *.
    unfold bind at 1 in Hrun. unfold bind at 1 in Hrun. unfold gets at 1 in Hrun.
    cbv beta in Hrun. unfold bind at 1 in Hrun.
    assert (Hw : forall o w1,
      match tabMap (state w) !! id with
      | Some node => write_favicon_uri node (or_null raw)
      | None => ret tt
      end w = (o, w1) -> state w1 = state w /\ elements w1 = elements w).
    { intros o w1 H. destruct (tabMap (state w) !! id) as [node | ].
      - pose proof (write_favicon_uri_frame node (or_null raw) w) as F.
        rewrite H in F. exact F.
      - injection H as _ <-. now split. }
    destruct (match tabMap (state w) !! id with
              | Some node => write_favicon_uri node (or_null raw)
              | None => ret tt
              end w) as [o w1] eqn:Hstep.
    destruct (Hw o w1 eq_refl) as [Hs1 He1].
    destruct o as [[] | e | ]; try discriminate Hrun.
    unfold bind at 1 in Hrun. unfold gets at 1 in Hrun. cbv beta in Hrun.
    rewrite He1 in Hrun. unfold favicon_patch at 2.
    destruct (tabs (elements w)) as [rows | ] eqn:Hrows.
    + unfold modify_elements, modify in Hrun.
      apply IH in Hrun as [Hs He]. cbn [state set_elements elements] in Hs, He.
      rewrite Hs, Hs1. split; [reflexivity | ]. rewrite He, Hs1, He1. reflexivity.
    + unfold ret in Hrun. apply IH in Hrun as [Hs He].
      rewrite Hs, Hs1. split; [reflexivity | ]. now rewrite He, Hs1, He1.
Qed.

Lemma foldl_favicon_patch raw dflt el rows id_list :
  tabs el = Some rows ->
  foldl (favicon_patch raw dflt) el id_list
  = set_tabs (Some (foldl (fun rs id => update_first_row id (favicon_row raw dflt) rs)
                          rows id_list)) el.
Proof.
  revert el rows. induction id_list as [ | id rest IH]; intros el rows Hrows.
  - cbn [foldl]. destruct el. cbn in Hrows. now rewrite Hrows.
  - cbn [foldl]. unfold favicon_patch at 2. rewrite Hrows.
    rewrite (IH _ (update_first_row id (favicon_row raw dflt) rows)); [ | reflexivity].
    now destruct el.
Qed.

Lemma update_first_row_map id (f : Row -> Row) rows :
  NoDup (map data_id rows) ->
  update_first_row id f rows
  = map (fun r => if bool_decide (data_id r = id) then f r else r) rows.
Proof.
  induction rows as [ | r rows IH]; intros Hnd; [reflexivity | ].
  cbn [map] in Hnd. apply NoDup_cons in Hnd as [Hr Hnd].
  cbn [update_first_row map]. destruct (bool_decide (data_id r = id)) eqn:E.
  - f_equal. apply bool_decide_eq_true in E. rewrite <- (map_id rows) at 1.
    apply map_ext_in. intros r' Hr'.
    rewrite bool_decide_eq_false_2; [reflexivity | ].
    intros E'. apply Hr. apply list_elem_of_In, in_map_iff. exists r'. split; congruence.
  - f_equal. now apply IH.
Qed.

Lemma update_rows_map (f : Row -> Row) id_list :
  (forall r, data_id (f r) = data_id r) -> (forall r, f (f r) = f r) ->
  forall rows,
    NoDup (map data_id rows) ->
    foldl (fun rs id => update_first_row id f rs) rows id_list
    = map (fun r => if bool_decide (data_id r ∈ id_list) then f r else r) rows.
Proof.
  intros Hid Hff. induction id_list as [ | id rest IH]; intros rows Hnd.
  - cbn [foldl]. rewrite <- (map_id rows) at 1. apply map_ext. intros r.
    rewrite bool_decide_eq_false_2; [reflexivity | ]. apply not_elem_of_nil.
  - cbn [foldl]. rewrite (update_first_row_map _ _ _ Hnd).
    rewrite IH.
    + rewrite map_map. apply map_ext. intros r.
      destruct (bool_decide (data_id r = id)) eqn:E.
      * apply bool_decide_eq_true in E.
        rewrite (bool_decide_eq_true_2 (data_id r ∈ id :: rest)) by (rewrite E; left).
        rewrite Hff. now destruct (bool_decide _).
      * apply bool_decide_eq_false in E.
        destruct (bool_decide (data_id r ∈ rest)) eqn:E2.
        -- apply bool_decide_eq_true in E2.
           now rewrite (bool_decide_eq_true_2 (data_id r ∈ id :: rest)) by now right.
        -- apply bool_decide_eq_false in E2.
           rewrite (bool_decide_eq_false_2 (data_id r ∈ id :: rest)); [reflexivity | ].
           intros H. apply elem_of_cons in H as [H | H]; contradiction.
    + rewrite map_map. erewrite map_ext; [exact Hnd | ].
      intros r. cbv beta. destruct (bool_decide _); [apply Hid | reflexivity].
Qed.

Lemma opt_string_or_null raw : opt_string (or_null raw) = opt_string raw.
Proof.
  destruct raw as [s | ]; [ | reflexivity]. cbn [or_null].
  destruct (truthy s) eqn:E; [reflexivity | ]. apply truthy_false in E. now subst.
Qed.

Lemma favicon_row_data_id raw dflt r : data_id (favicon_row raw dflt r) = data_id r.
Proof. unfold favicon_row. cbv zeta. now destruct (truthy _). Qed.

Lemma favicon_row_idempotent raw dflt r :
  favicon_row raw dflt (favicon_row raw dflt r) = favicon_row raw dflt r.
Proof. unfold favicon_row. cbv zeta. now destruct (truthy _). Qed.

(** With an icon to show, the row patched in place is the row that
    [buildRow] makes of the updated node. *)
Lemma favicon_row_rebuilt raw st c {C} (n : Node.t (list C)) d :
  truthy (or_else (opt_string raw) (opt_string (defaultFavicon st))) = true ->
  favicon_row raw (defaultFavicon st) (sync_row c (row_for st n d))
  = sync_row c (row_for st (Node.set_favicon_uri (or_null raw) n) d).
Proof.
  intros Hicon. unfold favicon_row. cbv zeta. rewrite !or_else_empty, Hicon.
  unfold sync_row.
  pose proof (row_for_fullTitle st n d) as Hft.
  pose proof (row_for_fullTitle st (Node.set_favicon_uri (or_null raw) n) d) as Hft'.
  rewrite Hft, Hft'. unfold row_for.
  cbn [Node.set_favicon_uri Node.favicon_uri Node.id Node.title Node.url Node.is_group
       Node.is_pinned Node.is_muted Node.is_suspended Node.is_active Node.is_expanded
       Node.children].
  rewrite opt_string_or_null, Hicon.
  destruct c; reflexivity.
Qed.

Lemma visible_with_favicon ids uri d t :
  visible d (with_favicon ids uri t)
  = map (fun dt => (fst dt, with_favicon ids uri (snd dt))) (visible d t).
Proof.
  revert d. induction t as [n IH] using Tree_induction. intros d.
  rewrite with_favicon_T. cbn [visible map fst snd]. rewrite with_favicon_T. f_equal.
  assert (He : Node.is_expanded
                 (Node.with_children (map (with_favicon ids uri) (Node.children n))
                    (mark ids uri n)) = Node.is_expanded n).
  { unfold mark. now destruct (bool_decide _). }
  rewrite He. destruct (Node.is_expanded n); [ | reflexivity].
  cbn [Node.children Node.with_children].
  induction IH as [ | k l Hk _ IHl]; [reflexivity | ].
  cbn [map flat_map]. now rewrite map_app, Hk, IHl.
Qed.

Lemma visible_forest_with_favicon ids uri ts :
  visible_forest (map (with_favicon ids uri) ts)
  = map (fun dt => (fst dt, with_favicon ids uri (snd dt))) (visible_forest ts).
Proof.
  unfold visible_forest. induction ts as [ | t ts IH]; [reflexivity | ].
  cbn [map flat_map]. now rewrite map_app, visible_with_favicon, IH.
Qed.

Lemma row_for_with_favicon st ids uri t d :
  row_for st (root (with_favicon ids uri t)) d = row_for st (mark ids uri (root t)) d.
Proof.
  destruct t as [n]. rewrite with_favicon_T. cbn [root].
  apply row_for_with_children. unfold mark.
  destruct (bool_decide _); cbn [Node.children Node.set_favicon_uri];
    now destruct (Node.children n).
Qed.

Lemma tree_id_with_favicon ids uri t : tree_id (with_favicon ids uri t) = tree_id t.
Proof.
  destruct t as [n]. rewrite with_favicon_T. unfold tree_id, mark. cbn [root].
  now destruct (bool_decide _).
Qed.

Lemma height_with_favicon ids uri t : height (with_favicon ids uri t) = height t.
Proof.
  induction t as [n IH] using Tree_induction. rewrite with_favicon_T, !height_T.
  f_equal. cbn [Node.children Node.with_children]. unfold forest_height.
  induction IH as [ | k l Hk _ IHl]; [reflexivity | ].
  cbn [map foldr]. now rewrite Hk, IHl.
Qed.

Lemma forest_height_with_favicon ids uri ts :
  forest_height (map (with_favicon ids uri) ts) = forest_height ts.
Proof.
  unfold forest_height. induction ts as [ | t ts IH]; [reflexivity | ].
  cbn [map foldr]. now rewrite height_with_favicon, IH.
Qed.

(** X18: the favicon update keeps the rows in step with the snapshot.
    After a snapshot has been applied with no search query, and with
    distinct ids among the visible tabs, a favicon update that has an
    icon to show (the one given or the default one) returns normally
    and patches the rows to what [renderTabs] builds from the updated
    snapshot: rendering again changes no row and no id. *)
Theorem favicon_update_matches_render (fuel : nat) (p : TabsPayload)
    (payload : FaviconPayload) (ts : list Tree) (w0 : World) :
  forest_at (heap w0) (p_tabs p) ts -> (forest_height ts < fuel)%nat ->
  tabQuery (state w0) = "" ->
  NoDup (map vis_id (visible_forest ts)) ->
  or_else (opt_string (favicon_uri payload)) (opt_string (defaultFavicon (state w0))) <> "" ->
  let w := snd (applyState fuel (Some p) w0) in
  let w' := snd (applyFaviconUpdate fuel (Some payload) w) in
  let again := snd (renderTabs fuel (lastTabs (state w')) w') in
  fst (applyFaviconUpdate fuel (Some payload) w) = Ret tt
  /\ tabs (elements again) = tabs (elements w')
  /\ flatTabs (state again) = flatTabs (state w').
Proof.
  intros Hat Hh Hq Hnd Hicon w w' again.
  apply truthy_nonempty in Hicon.
  destruct (applyState_forest fuel p ts w0 Hat Hh)
    as (w1 & M1 & Hrun1 & Hp1 & _ & Hstate1 & Hmap1 & Hrows1).
  rewrite Hq in Hstate1, Hmap1, Hrows1. change (filter_forest "" ts) with ts in *.
  assert (Hw : w = w1) by (subst w; now rewrite Hrun1).
  assert (Hat1 : forest_at (heap w1) (lastTabs (state w1)) ts).
  { rewrite Hstate1. cbn [lastTabs set_tabMap set_flatTabs set_lastActive set_lastTabs].
    now apply (forest_at_mono (heap w0)). }
  assert (Hok1 : tabMap_ok w1).
  { eapply maps_visible_tabMap_ok. rewrite Hstate1. exact Hmap1. }
  destruct (applyFaviconUpdate_forest fuel payload ts w1 Hat1 Hh Hok1)
    as (h2 & el2 & Hrun2 & Hat2 & Hempty).
  remember (default [] (ids payload)) as id_list eqn:Hidl.
  set (uri := or_null (favicon_uri payload)) in *.
  set (id_set := list_to_set id_list : gset Z) in *.
  assert (Hdflt : defaultFavicon (state w1) = defaultFavicon (state w0))
    by now rewrite Hstate1.
  assert (Hcoll : sidebarCollapsed (state w1) = sidebarCollapsed (state w0))
    by now rewrite Hstate1.
  assert (Hel2 : tabs el2
    = (fun _ => map (sync_row (sidebarCollapsed (state w0)))
                    (rows_of (state w0) (visible_forest (map (with_favicon id_set uri) ts))))
        <$> tabs (elements w0)).
  { destruct (nonempty id_list) eqn:Hne.
    - (* the loop ran: read the rows off it *)
      destruct (updateTreeFavicon_forest id_set uri fuel (heap w1) ts (lastTabs (state w1))
                  Hat1 Hh w1 (marking_refl id_set uri (heap w1)))
        as (h1 & Htree & _ & _).
      pose proof Hrun2 as Hloop. unfold applyFaviconUpdate in Hloop.
      rewrite <- Hidl, Hne in Hloop. cbn [negb] in Hloop. cbv zeta in Hloop.
      unfold bind at 1 in Hloop. unfold gets at 1 in Hloop. cbv beta in Hloop.
      unfold bind at 1 in Hloop.
      change (updateTreeFavicon fuel (lastTabs (state w1)) _ _ w1)
        with (updateTreeFavicon fuel (lastTabs (state w1)) id_set uri w1) in Hloop.
      rewrite Htree in Hloop.
      apply favicon_loop_elements in Hloop as [_ Hel].
      cbn [elements set_elements set_heap state] in Hel. rewrite Hel, Hdflt.
      destruct (tabs (elements w0)) as [old | ] eqn:Hold.
      + cbn [fmap option_fmap option_map] in Hrows1 |- *.
        rewrite (foldl_favicon_patch _ _ _ _ _ Hrows1). cbn [tabs set_tabs]. f_equal.
        rewrite update_rows_map;
          [ | apply favicon_row_data_id | apply favicon_row_idempotent
            | now rewrite data_id_rows ].
        rewrite visible_forest_with_favicon. unfold rows_of. rewrite !map_map.
        apply map_ext. intros [d t]. cbn [fst snd].
        rewrite row_for_with_favicon.
        assert (Hrid : data_id (sync_row (sidebarCollapsed (state w0))
                                  (row_for (state w0) (root t) d)) = tree_id t).
        { unfold sync_row. rewrite row_for_fullTitle.
          now destruct (sidebarCollapsed (state w0)). }
        rewrite Hrid. unfold mark. fold (tree_id t).
        destruct (bool_decide (tree_id t ∈ id_list)) eqn:E.
        * apply bool_decide_eq_true in E.
          rewrite (bool_decide_eq_true_2 (tree_id t ∈ id_set))
            by (subst id_set; now apply elem_of_list_to_set).
          now apply favicon_row_rebuilt.
        * apply bool_decide_eq_false in E.
          rewrite (bool_decide_eq_false_2 (tree_id t ∈ id_set)); [reflexivity | ].
          subst id_set. now rewrite elem_of_list_to_set.
      + cbn [fmap option_fmap option_map] in Hrows1 |- *.
        clear - Hrows1. induction id_list as [ | id rest IH]; [exact Hrows1 | ].
        cbn [foldl]. unfold favicon_patch at 2. now rewrite Hrows1.
    - assert (Hnil : id_list = []) by (clear - Hne; now destruct id_list).
      destruct (Hempty Hnil) as [_ ->]. rewrite Hrows1.
      assert (Hid : forall t, with_favicon id_set uri t = t).
      { induction t as [n IH] using Tree_induction. rewrite with_favicon_T.
        unfold mark. rewrite bool_decide_eq_false_2
          by (subst id_set; rewrite Hnil; set_solver).
        assert (Hk : map (with_favicon id_set uri) (Node.children n) = Node.children n).
        { induction IH as [ | k ks Hk _ IHks]; cbn; [reflexivity | now rewrite Hk, IHks]. }
        rewrite Hk. now destruct n. }
      now rewrite (map_ext _ (fun t => t) Hid), map_id. }
  subst again w'. rewrite Hw, Hrun2. cbn [fst snd].
  split; [reflexivity | ].
  destruct (renderTabs_forest fuel (lastTabs (state w1))
              (map (with_favicon id_set uri) ts) (set_elements el2 (set_heap h2 w1)))
    as (M3 & Hrun3 & _).
  { exact Hat2. }
  { now rewrite forest_height_with_favicon. }
  cbn [state set_elements set_heap] in Hrun3 |- *. rewrite Hrun3. cbn [snd].
  cbn [elements set_elements tabs set_tabs state set_state flatTabs set_tabMap set_flatTabs
       heap set_heap].
  split.
  - rewrite Hel2, Hcoll, Hstate1. now destruct (tabs (elements w0)).
  - rewrite Hstate1. cbn [flatTabs set_tabMap set_flatTabs].
    rewrite visible_forest_with_favicon, map_map. apply map_ext. intros [d t].
    unfold vis_id. cbn [snd]. apply tree_id_with_favicon.
Qed.

(** ** Toggling the sidebar *)

(** X19: a click on the sidebar toggle flips [state.sidebarCollapsed],
    the class of the body and the label of the toggle together, and
    tells the host the state it has just shown: the message posted is
    [ui.sidebar.toggle] with the new value of [collapsed].  A second
    click restores the flag and posts the opposite value. *)
Theorem sidebar_toggle_reports_state (fuel : nat) (w : World) (b : Bridge) :
  is_Some (sidebarToggle (elements w)) ->
  bridge w = Some b -> (forall c, b (sidebar_message c) = None) ->
  let c := negb (sidebarCollapsed (state w)) in
  let w1 := snd (fire fuel SidebarToggleClick w) in
  let w2 := snd (fire fuel SidebarToggleClick w1) in
  fire fuel SidebarToggleClick w
  = (Ret tt, set_outbox (outbox w ++ [sidebar_message c]) (sidebar_applied c w))
  /\ sidebarCollapsed (state w1) = c
  /\ sidebar_collapsed_class (body w1) = c
  /\ sidebarToggle (elements w1) = Some (if c then "Expand sidebar" else "Collapse sidebar")
  /\ sidebarCollapsed (state w2) = sidebarCollapsed (state w)
  /\ sidebar_collapsed_class (body w2) = sidebarCollapsed (state w)
  /\ outbox w2 = outbox w ++ [sidebar_message c; sidebar_message (negb c)].
Proof.
  intros Htoggle Hb Hopen c w1 w2.
  assert (Hclick : forall w0,
    is_Some (sidebarToggle (elements w0)) -> bridge w0 = Some b ->
    fire fuel SidebarToggleClick w0
    = (Ret tt, set_outbox (outbox w0 ++ [sidebar_message (negb (sidebarCollapsed (state w0)))])
                 (sidebar_applied (negb (sidebarCollapsed (state w0))) w0))).
  { intros w0 Ht0 Hb0. unfold fire. unfold bind at 1. unfold gets at 1. cbv beta.
    unfold bind at 1. unfold gets at 1. cbv beta.
    rewrite (bool_decide_eq_true_2 _ Ht0). cbn [when].
    unfold setSidebarCollapsed.
    rewrite (bind_eq _ _ _ _ _ (applySidebarState_sidebar_applied _ w0)).
    rewrite (send_posted "ui.sidebar.toggle"
               (Some (VObj [("collapsed", VBool (negb (sidebarCollapsed (state w0))))]))
               (sidebar_applied (negb (sidebarCollapsed (state w0))) w0) b Hb0 eq_refl
               (Hopen _)).
    reflexivity. }
  assert (H1 : fire fuel SidebarToggleClick w
               = (Ret tt, set_outbox (outbox w ++ [sidebar_message c]) (sidebar_applied c w)))
    by now apply Hclick.
  split; [exact H1 | ].
  assert (Ht1 : sidebarToggle (elements w1)
                = Some (if c then "Expand sidebar" else "Collapse sidebar")).
  { subst w1. rewrite H1. destruct Htoggle as [lbl Hl]. cbn. now rewrite Hl. }
  assert (Hc1 : sidebarCollapsed (state w1) = c) by (subst w1; now rewrite H1).
  split; [exact Hc1 | ]. split; [subst w1; now rewrite H1 | ]. split; [exact Ht1 | ].
  assert (H2 : fire fuel SidebarToggleClick w1
    = (Ret tt, set_outbox (outbox w1 ++ [sidebar_message (negb (sidebarCollapsed (state w1)))])
                 (sidebar_applied (negb (sidebarCollapsed (state w1))) w1))).
  { apply Hclick; [now rewrite Ht1 | ]. subst w1. now rewrite H1. }
  subst w2. rewrite H2, Hc1. cbn [snd]. subst c. rewrite negb_involutive.
  split; [reflexivity | ]. split; [reflexivity | ].
  cbn [outbox set_outbox]. subst w1. rewrite H1. cbn [snd outbox set_outbox].
  now rewrite <- app_assoc.
Qed.

(** ** Loading the page *)

Lemma setupEventHandlers_set_up w : setupEventHandlers w = (Ret tt, set_up w).
Proof.
  destruct w as [h st ms el bd co br ob].
  destruct el as [tb ad g nt hm nbk nfw nrl sbt bi tsr pb pi pr tm].
  unfold setupEventHandlers, set_up, bind, gets, modify_elements, modify, ret.
  cbn. destruct nbk, nfw, nrl; reflexivity.
Qed.

(** X20: when the page has loaded, the script labels the navigation
    buttons and sends [ui.ready] with an empty payload, once: the bridge
    gets this one message, or, when there is no bridge, the console
    gets one warning and the page is set up all the same.  The state
    and the disabled flags of Back and Forward are as before, and the
    reload button is in reload mode whatever it was, so that a click on
    it sends [nav.reload]. *)
Theorem page_load_announces_ready (fuel : nat) (w : World) :
  let w' := snd (fire fuel DOMContentLoaded w) in
  fire fuel DOMContentLoaded w = send "ui.ready" None (set_up w)
  /\ fst (fire fuel DOMContentLoaded w) = Ret tt
  /\ (bridge w = None -> outbox w' = outbox w /\ exists entry, console w' = console w ++ [entry])
  /\ (forall b, bridge w = Some b -> b (Text (envelope "ui.ready" (VObj []))) = None ->
        outbox w' = outbox w ++ [Text (envelope "ui.ready" (VObj []))]
        /\ console w' = console w)
  /\ state w' = state w /\ heap w' = heap w
  /\ elements w' = elements (set_up w)
  /\ (nb_disabled <$> navBack (elements w') = nb_disabled <$> navBack (elements w))
  /\ (nb_disabled <$> navForward (elements w') = nb_disabled <$> navForward (elements w))
  /\ fire fuel NavReloadClick w'
     = when (bool_decide (is_Some (navReload (elements w)))) (send "nav.reload" None) w'.
Proof.
  intros w'.
  assert (Hrun : fire fuel DOMContentLoaded w = send "ui.ready" None (set_up w)).
  { unfold fire. unfold bind at 1. unfold gets at 1. cbv beta.
    unfold bind at 1. unfold gets at 1. cbv beta.
    now rewrite (bind_eq _ _ _ _ _ (setupEventHandlers_set_up w)). }
  split; [exact Hrun | ]. subst w'. rewrite Hrun.
  assert (Hel : elements (snd (send "ui.ready" None (set_up w))) = elements (set_up w)).
  { destruct (send_cases "ui.ready" None (set_up w)) as [E | [entry E]]; now rewrite E. }
  split; [ | split; [ | split; [ | split; [ | split; [ | split; [exact Hel | ]]]]]].
  - destruct (send_cases "ui.ready" None (set_up w)) as [E | [entry E]]; now rewrite E.
  - intros Hb. rewrite (send_without_bridge "ui.ready" None (set_up w) Hb). cbn.
    split; [reflexivity | eauto].
  - intros b Hb Hopen.
    rewrite (send_posted "ui.ready" None (set_up w) b Hb eq_refl Hopen). now split.
  - destruct (send_cases "ui.ready" None (set_up w)) as [E | [entry E]]; now rewrite E.
  - destruct (send_cases "ui.ready" None (set_up w)) as [E | [entry E]]; now rewrite E.
  - split; [ | split].
    + rewrite Hel. unfold set_up. cbn. now destruct (navBack (elements w)).
    + rewrite Hel. unfold set_up. cbn. now destruct (navForward (elements w)).
    + unfold fire. unfold bind at 1. unfold gets at 1. cbv beta.
      unfold bind at 1. unfold gets at 1. cbv beta. rewrite Hel. unfold set_up.
      cbn [elements set_elements navReload set_navReload].
      destruct (navReload (elements w)) as [rb | ]; [ | reflexivity].
      rewrite bool_decide_eq_true_2 by eauto. reflexivity.
Qed.

(** ** The home page *)

Section HomeSearch.
Variable URL_parses : string -> bool.
Variable encodeURIComponent : string -> option string.

(** X21: [runSearch] on the home page returns and goes nowhere when
    [trim] leaves nothing of the text of the search box.  Otherwise it
    goes to the trimmed text itself when [new URL] takes it or when it
    starts with [about:] or [owl://], whatever [new URL] says of
    those.  In every other case it goes to the search engine with the
    encoded trimmed text, unless [encodeURIComponent] throws: then the
    exception leaves [runSearch] and the page stays where it is.  The
    text of the search box is left alone. *)
Theorem runSearch_destination (p : HomePage) (v : string) :
  searchInput p = Some v ->
  let q := trim v in
  let run := runSearch URL_parses encodeURIComponent p in
  (q = "" -> run = (Ret tt, p))
  /\ (q <> "" ->
      (String.prefix "about:" q = true \/ String.prefix "owl://" q = true
       \/ URL_parses q = true ->
       run = (Ret tt, set_location_href q p))
      /\ (URL_parses q = false -> String.prefix "about:" q = false ->
          String.prefix "owl://" q = false ->
          match encodeURIComponent q with
          | Some encoded =>
              run = (Ret tt,
                     set_location_href ("https://duckduckgo.com/?q=" ++ encoded)%string p)
          | None => run = (Throw (URIError "URI malformed"), p)
          end))
  /\ searchInput (snd run) = searchInput p.
Proof.
  intros Hv q run. subst run. unfold runSearch. rewrite Hv. cbv zeta. fold q.
  split; [intros ->; reflexivity | ]. split.
  - intros Hq. rewrite (truthy_nonempty _ Hq). cbn [negb]. unfold isValidUrl. split.
    + intros [H | [H | H]]; rewrite H; [ | | reflexivity];
        destruct (URL_parses q); cbn [orb]; rewrite ?orb_true_r; reflexivity.
    + intros -> -> ->. cbn [orb]. now destruct (encodeURIComponent q).
  - destruct (negb (truthy q)); [exact Hv | ].
    destruct (isValidUrl URL_parses q); [exact Hv | ].
    destruct (encodeURIComponent q); exact Hv.
Qed.

End HomeSearch.

(** ** The icon text *)

Section IconTextFacts.
Variable toUpperCase : string -> string.
Variable URL_hostname : string -> option string.
Hypothesis toUpperCase_nonempty : forall s, s <> "" -> toUpperCase s <> "".

(** X22: the icon text of a tab is never empty, given that the upper
    case of a text that is not empty is not empty; it is the question
    mark when the title and the url are both missing or blank. *)
Theorem deriveIconText_nonempty (title url : option string) :
  deriveIconText toUpperCase URL_hostname title url <> ""
  /\ (opt_string (trim <$> title) = "" -> opt_string (trim <$> url) = "" ->
      deriveIconText toUpperCase URL_hostname title url = "?").
Proof.
  unfold deriveIconText. cbv zeta.
  set (t := opt_string (trim <$> title)). set (u := opt_string (trim <$> url)).
  split.
  - destruct (truthy t) eqn:Ht.
    + apply toUpperCase_nonempty. destruct t; [discriminate Ht | discriminate].
    + destruct (truthy u) eqn:Hu; cbn [negb]; [ | discriminate].
      assert (Hor : forall s, or_else s "?" <> "").
      { intros s. unfold or_else. destruct (truthy s) eqn:Hs; [ | discriminate].
        intros ->. discriminate Hs. }
      destruct (URL_hostname u); apply Hor.
  - intros -> ->. reflexivity.
Qed.

End IconTextFacts.

(** ** Dismissing the palette and the tab menu *)

Lemma escape_eq modKey w :
  window_keydown modKey "Escape" w
  = (let* b := gets body in
     when (palette_open_class b) closePalette;;
     let* ms := gets menuState in
     when (menu_open ms) closeTabMenu) w.
Proof.
  unfold window_keydown. cbv zeta.
  rewrite (toLowerCase_ascii "Escape" eq_refl).
  change (get_property _ (ascii_toLowerCase "Escape")) with Undefined.
  cbn [truthy_property]. rewrite andb_false_r. cbn [when].
  unfold bind at 1. unfold ret at 1.
  change (String.eqb "Escape" "Escape") with true. reflexivity.
Qed.

(** X24: Escape dismisses what is open: after it the palette is
    closed and, in a page with the tab menu, so is the menu; nothing
    is sent or logged and the state is as before.  A click outside the
    open tab menu closes it and touches nothing else of the body; a
    click or a right click inside the menu changes nothing. *)
Theorem escape_dismisses_overlays (fuel : nat) (modKey : bool) (w : World) :
  let w' := snd (fire fuel (WindowKeydown modKey "Escape") w) in
  fst (fire fuel (WindowKeydown modKey "Escape") w) = Ret tt
  /\ palette_open_class (body w') = false
  /\ (is_Some (tabMenu (elements w)) -> menu_open (menuState w') = false)
  /\ (menu_open (menuState w) = false -> menuState w' = menuState w)
  /\ state w' = state w /\ heap w' = heap w
  /\ outbox w' = outbox w /\ console w' = console w
  /\ (let after_click := snd (fire fuel (WindowClick false) w) in
      (is_Some (tabMenu (elements w)) -> menu_open (menuState after_click) = false)
      /\ body after_click = body w)
  /\ fire fuel (WindowClick true) w = (Ret tt, w)
  /\ fire fuel (WindowContextmenu true) w = (Ret tt, w).
Proof.
  intros w'.
  assert (Hrun : fire fuel (WindowKeydown modKey "Escape") w
             = (Ret tt,
                (if menu_open (menuState w) then menu_closed else fun x => x)
                  (if palette_open_class (body w)
                   then set_body (set_palette_open_class false (body w)) w else w))).
  { unfold fire. unfold bind at 1. unfold gets at 1. cbv beta.
    unfold bind at 1. unfold gets at 1. cbv beta. rewrite escape_eq.
    unfold bind at 1. unfold gets at 1. cbv beta.
    unfold bind at 1.
    destruct (palette_open_class (body w)); cbn [when];
      unfold closePalette, modify_body, modify, ret;
      unfold bind at 1; unfold gets at 1; cbv beta; cbn [menuState set_body];
      destruct (menu_open (menuState w)); cbn [when];
      rewrite ?closeTabMenu_menu_closed; reflexivity. }
  subst w'. rewrite Hrun. cbn [fst snd].
  assert (Hclick : forall in_menu,
    fire fuel (WindowClick in_menu) w
    = (Ret tt, if menu_open (menuState w) && negb in_menu then menu_closed w else w)
    /\ fire fuel (WindowContextmenu in_menu) w
       = (Ret tt, if menu_open (menuState w) && negb in_menu then menu_closed w else w)).
  { intros in_menu. unfold fire. unfold bind at 1 3. unfold gets at 1 4. cbv beta.
    unfold bind at 1 3. unfold gets at 1 3. cbv beta.
    unfold bind, gets. cbv beta.
    destruct (menu_open (menuState w) && negb in_menu); cbn [when];
      rewrite ?closeTabMenu_menu_closed; now split. }
  split; [reflexivity | ]. split; [ | split; [ | split; [ | split; [ | split;
    [ | split; [ | split; [ | split; [ | split]]]]]]]].
  - destruct (menu_open (menuState w)), (palette_open_class (body w)) eqn:E;
      unfold menu_closed; cbn [elements set_body];
      destruct (tabMenu (elements w)); cbn; try reflexivity; exact E.
  - intros [m Hm]. destruct (menu_open (menuState w)) eqn:E;
      [ | now destruct (palette_open_class (body w))].
    unfold menu_closed. destruct (palette_open_class (body w)); cbn [elements set_body];
      now rewrite Hm.
  - intros ->. now destruct (palette_open_class (body w)).
  - destruct (menu_open (menuState w)), (palette_open_class (body w));
      rewrite ?menu_closed_state; reflexivity.
  - destruct (menu_open (menuState w)), (palette_open_class (body w));
      rewrite ?menu_closed_heap; reflexivity.
  - destruct (menu_open (menuState w)), (palette_open_class (body w));
      unfold menu_closed; cbn [elements set_body]; now destruct (tabMenu (elements w)).
  - destruct (menu_open (menuState w)), (palette_open_class (body w));
      unfold menu_closed; cbn [elements set_body]; now destruct (tabMenu (elements w)).
  - cbv zeta. rewrite (proj1 (Hclick false)). cbn [snd]. rewrite andb_true_r. split.
    + intros [m Hm]. destruct (menu_open (menuState w)) eqn:E; [ | exact E].
      unfold menu_closed. now rewrite Hm.
    + destruct (menu_open (menuState w)); [ | reflexivity].
      unfold menu_closed. now destruct (tabMenu (elements w)).
  - rewrite (proj1 (Hclick true)). now rewrite andb_false_r.
  - rewrite (proj2 (Hclick true)). now rewrite andb_false_r.
Qed.

End Script.

(** * The development at work

    With the built-ins cut down to the ASCII rules the definitions run.
    What follows are runs on the sample pages: each applies one of the
    theorems above to a page, a snapshot or a message. *)

#[local] Existing Instance ascii_builtins.

Lemma send_posts_type_and_payload_witness :
  exists msg,
    send "tab.close" (id_payload 7) sample_world
      = (Ret tt, set_outbox (outbox sample_world ++ [msg]) sample_world)
    /\ fields_of (denotes msg) = ["type"; "payload"]
    /\ field "type" (denotes msg) = Some (VStr "tab.close")
    /\ field "payload" (denotes msg) = Some (VObj [("id", VNum 7)])
    /\ field "schema_version" (denotes msg) = None.
Proof.
  apply (send_posts_type_and_payload "tab.close" (VObj [("id", VNum 7)])
           sample_world open_bridge); reflexivity.
Defined.

(** C1 (as stated) fails: the message [send("ui.ready")] posts has no
    [schema_version] field. *)
Lemma send_has_no_schema_version :
  exists msg,
    outbox (snd (send "ui.ready" None sample_world)) = [msg]
    /\ ~ In "schema_version" (fields_of (denotes msg)).
Proof.
  exists (Text (envelope "ui.ready" (VObj []))). split; [reflexivity | ].
  simpl. intros [H | [H | []]]; discriminate.
Qed.

Lemma applyNavState_controls_witness :
  exists w',
    applyNavState (Some sample_nav) sample_world = (Ret tt, w')
    /\ (exists b', navBack (elements w') = Some b' /\ nb_disabled b' = false)
    /\ (exists b', navForward (elements w') = Some b' /\ nb_disabled b' = true)
    /\ (exists r', navReload (elements w') = Some r' /\ rb_mode r' = "stop")
    /\ fire 1 NavReloadClick (run_actions 1 [Fire NewTabClick; Receive None] w')
       = send "nav.stop" None (run_actions 1 [Fire NewTabClick; Receive None] w').
Proof.
  destruct (applyNavState_controls sample_nav sample_world) as (w' & Hw & Hb & Hf & Hr).
  exists w'. split; [exact Hw | ].
  destruct (Hb _ eq_refl) as (b' & Hb' & Hbd).
  destruct (Hf _ eq_refl) as (f' & Hf' & Hfd).
  destruct (Hr _ eq_refl) as (r' & Hr' & Hrm & Hclick).
  split; [ | split; [ | split]].
  - exists b'. split; [exact Hb' | ].
    destruct (nb_disabled b'); [ | reflexivity].
    now destruct (proj1 Hbd eq_refl).
  - exists f'. split; [exact Hf' | ]. now apply Hfd.
  - exists r'. split; [exact Hr' | ]. now apply Hrm.
  - apply (Hclick 1%nat [Fire NewTabClick; Receive None]). reflexivity.
Defined.

Lemma malformed_message_dropped_witness :
  __owl_receive 2 (Some (Other "" (Some (VStr "junk")))) sample_world = (Ret tt, sample_world)
  /\ run_actions 2 [Receive (Some (Other "" (Some (VStr "junk"))));
                    Receive (Some (StateTabs (Some sample_tabs)))] sample_world
     = run_actions 2 [Receive (Some (StateTabs (Some sample_tabs)))] sample_world.
Proof.
  destruct (malformed_message_dropped 2 (Some (Other "" (Some (VStr "junk")))) sample_world
              eq_refl) as [H1 H2].
  split; [exact H1 | apply H2].
Defined.

(** C2 (as stated) fails: a [null] message is not logged. *)
Lemma malformed_message_not_logged :
  malformed None = true
  /\ console (snd (__owl_receive 1 None sample_world)) = console sample_world
  /\ console sample_world = [].
Proof. repeat split. Qed.

Lemma sidebar_rows_preorder_witness :
  exists w',
    renderTabs 3 sample_locs sample_page = (Ret tt, w')
    /\ flatTabs (state w') = [1; 2; 3; 4]
    /\ exists rows,
         tabs (elements w') = Some rows
         /\ map data_id rows = [1; 2; 3; 4]
         /\ map depth_var rows = [0; 1; 1; 0]%nat.
Proof.
  destruct (sidebar_rows_preorder 3 sample_locs sample_forest sample_page sample_forest_at
              ltac:(vm_compute; lia))
    as (w' & Hrun & Hflat & Hrows & _).
  exists w'. split; [exact Hrun | ]. split; [exact Hflat | ].
  exact (Hrows [] eq_refl).
Defined.

Lemma applyState_rebuilds_snapshot_witness :
  exists w',
    applyState 3 (Some {| p_tabs := sample_locs; p_active := Some 3 |}) sample_page
      = (Ret tt, w')
    /\ lastTabs (state w') = sample_locs
    /\ forest_at (heap w') (lastTabs (state w')) sample_forest
    /\ activeTabId (state w') = Some 3
    /\ heap w' = heap sample_page
    /\ flatTabs (state w') = [1; 2; 3; 4].
Proof.
  destruct (applyState_rebuilds_snapshot 3 {| p_tabs := sample_locs; p_active := Some 3 |}
              sample_forest sample_page sample_forest_at ltac:(vm_compute; lia))
    as (w' & Hrun & Hlast & Hat & Hactive & _ & Hempty).
  destruct (Hempty eq_refl) as (Hheap & Hflat & _).
  exists w'. repeat split; assumption.
Defined.


Lemma applyFaviconUpdate_marks_witness :
  exists w',
    applyFaviconUpdate 3 (Some sample_favicon) sample_loaded = (Ret tt, w')
    /\ state w' = state sample_loaded
    /\ forest_at (heap w') (lastTabs (state w'))
         [ sample_node 1 "Mail" "https://mail.example/" None true
             [ sample_node 2 "Docs" "https://docs.example/"
                 (Some "https://cdn.example/new.png") false [];
               sample_node 3 "News" "https://news.example/" None false [] ];
           sample_node 4 "Group" "" None false
             [ sample_node 5 "Hidden docs" "https://docs.example/secret"
                 (Some "https://cdn.example/new.png") false [] ] ].
Proof.
  destruct (applyState_tabMap_ok 3 {| p_tabs := sample_locs; p_active := Some 3 |}
              sample_forest sample_page sample_forest_at ltac:(vm_compute; lia))
    as [Hat Hok].
  destruct (applyFaviconUpdate_marks 3 sample_favicon sample_forest sample_loaded Hat
              ltac:(vm_compute; lia) Hok)
    as (w' & Hrun & Hstate & Hf & _).
  exists w'. split; [exact Hrun | ]. split; [exact Hstate | ]. exact Hf.
Defined.

(** C7 (as stated) fails: the tab with id 2 has a favicon; an update
    with the empty string for it stores [null], not the given value. *)
Lemma favicon_empty_uri_stored_as_null :
  let w' := snd (applyFaviconUpdate 3 (Some {| ids := Some [2]; favicon_uri := Some "" |})
                   sample_loaded) in
  (Node.id <$> heap sample_loaded !! 0%nat = Some 2
   /\ Node.favicon_uri <$> heap sample_loaded !! 0%nat
      = Some (Some "https://docs.example/icon.png"))
  /\ Node.id <$> heap w' !! 0%nat = Some 2
  /\ Node.favicon_uri <$> heap w' !! 0%nat = Some None
  /\ Node.favicon_uri <$> heap w' !! 0%nat <> Some (Some "").
Proof. vm_compute. repeat split; discriminate. Qed.

Lemma findActive_first_in_preorder_witness :
  exists l,
    findActive 3 sample_locs 5 sample_page = (Ret (Some l), sample_page)
    /\ tree_at (heap sample_page) l
         (sample_node 5 "Hidden docs" "https://docs.example/secret" None false []).
Proof.
  destruct (findActive_first_in_preorder 3 5 sample_locs sample_forest sample_page
              sample_forest_at ltac:(vm_compute; lia)) as (r & Hrun & Hr).
  destruct r as [l | ]; [ | destruct Hr].
  exists l. split; [exact Hrun | exact Hr].
Defined.

Lemma applyState_address_bar_witness :
  exists w',
    applyState 3 (Some {| p_tabs := sample_locs; p_active := Some 5 |}) sample_page
      = (Ret tt, w')
    /\ address (elements w') = Some "https://docs.example/secret".
Proof.
  destruct (applyState_address_bar 3 {| p_tabs := sample_locs; p_active := Some 5 |}
              sample_forest sample_page sample_forest_at ltac:(vm_compute; lia))
    as (w' & Hrun & Ha & _).
  exists w'. split; [exact Hrun | exact Ha].
Defined.

Lemma applyState_closes_tab_menu_witness :
  let w := set_menuState {| menu_open := true; menu_tabId := Some 2 |} sample_page in
  exists w',
    applyState 3 (Some {| p_tabs := sample_locs; p_active := Some 3 |}) w = (Ret tt, w')
    /\ menuState w' = {| menu_open := false; menu_tabId := None |}
    /\ fire 3 (TabMenuClick (Some "pin")) w' = (Ret tt, w').
Proof.
  intros w.
  destruct (applyState_closes_tab_menu 3 {| p_tabs := sample_locs; p_active := Some 3 |}
              sample_forest w sample_forest_at ltac:(vm_compute; lia))
    as (w' & Hrun & _ & Hms & Hclick).
  exists w'. split; [exact Hrun | ]. split; [exact (Hms _ eq_refl) | apply Hclick].
Defined.

Lemma tabs_keydown_moves_witness :
  let w := set_state (set_activeTabId (Some 3) (set_flatTabs [1; 2; 3] (state sample_world)))
                     sample_world in
  tabs_keydown "ArrowDown" w = send "tab.select" (id_payload 3) w
  /\ tabs_keydown "ArrowUp" w = send "tab.select" (id_payload 2) w.
Proof.
  intros w. apply (tabs_keydown_moves w [1; 2] [] 3); [reflexivity | | reflexivity].
  intros H. apply list_elem_of_In in H. simpl in H. lia.
Defined.

Lemma tabs_keydown_without_active_witness :
  let w := set_state (set_flatTabs [4; 7] (state sample_world)) sample_world in
  tabs_keydown "ArrowUp" w = send "tab.select" (id_payload 4) w
  /\ tabs_keydown "Tab" w = (Ret tt, w)
  /\ tabs_keydown "ArrowDown" sample_world = (Ret tt, sample_world).
Proof.
  intros w.
  destruct (tabs_keydown_without_active w "ArrowUp") as (_ & _ & H3).
  destruct (tabs_keydown_without_active w "Tab") as (_ & H2 & _).
  destruct (tabs_keydown_without_active sample_world "ArrowDown") as (H1 & _ & _).
  split; [ | split].
  - apply (H3 4 [7]); [reflexivity | | now right]. intros y _. discriminate.
  - apply H2; discriminate.
  - apply H1. reflexivity.
Defined.

Lemma sidebar_titles_round_trip_witness :
  let w0 := snd (renderTabs 3 sample_locs sample_page) in
  let w1 := snd (applySidebarState true w0) in
  let w2 := snd (applySidebarState false w1) in
  exists rows,
    tabs (elements w0) = Some rows
    /\ Forall (fun r => title_attr r = Some (data_fullTitle r)
                        /\ data_fullTitle r <> "") rows
    /\ tabs (elements w1) = Some (map (set_title_attr None) rows)
    /\ sidebarCollapsed (state w1) = true
    /\ tabs (elements w2) = Some rows
    /\ sidebarCollapsed (state w2) = false.
Proof.
  exact (sidebar_titles_round_trip 3 sample_locs sample_forest [] sample_page
           sample_forest_at ltac:(vm_compute; lia) eq_refl eq_refl).
Defined.

Lemma assets_and_render_commute_witness :
  let assets := applyAssets (Some {| default_favicon := Some "owl://icon.png" |}) in
  let render_then_assets := snd (assets (snd (renderTabs 3 sample_locs sample_page))) in
  let assets_then_render := snd (renderTabs 3 sample_locs (snd (assets sample_page))) in
  tabs (elements render_then_assets) = tabs (elements assets_then_render)
  /\ flatTabs (state render_then_assets) = flatTabs (state assets_then_render)
  /\ defaultFavicon (state render_then_assets) = Some "owl://icon.png"
  /\ defaultFavicon (state assets_then_render) = Some "owl://icon.png"
  /\ brandIcon (elements render_then_assets) = brandIcon (elements assets_then_render).
Proof.
  exact (assets_and_render_commute 3 sample_locs sample_forest "owl://icon.png" sample_page
           sample_forest_at ltac:(vm_compute; lia) ltac:(discriminate)).
Defined.

Lemma applyAssets_idempotent_witness :
  let p := Some {| default_favicon := Some "owl://icon.png" |} in
  let w1 := snd (applyAssets p sample_loaded) in
  snd (applyAssets p w1) = w1
  /\ defaultFavicon (state w1) = Some "owl://icon.png"
  /\ brandIcon (elements w1) = Some (Some "owl://icon.png")
  /\ snd (applyAssets (Some {| default_favicon := Some "" |}) sample_loaded) = sample_loaded.
Proof.
  intros p w1.
  destruct (applyAssets_idempotent p sample_loaded) as (H1 & _ & H3).
  destruct (H3 "owl://icon.png" eq_refl ltac:(discriminate)) as (Hd & Hb & _).
  destruct (applyAssets_idempotent (Some {| default_favicon := Some "" |}) sample_loaded)
    as (_ & H2 & _).
  split; [exact H1 | ]. split; [exact Hd | ]. split; [exact Hb | ].
  apply H2. now right.
Defined.

Lemma address_bar_sends_trimmed_url_witness :
  let w := set_elements (set_address (Some "  owl://home ") sample_elements) sample_world in
  fire 1 (AddressKeydown "Enter") w
  = send "nav.go" (Some (VObj [("url", VStr "owl://home")])) w.
Proof.
  intros w.
  destruct (address_bar_sends_trimmed_url 1 w "  owl://home " eq_refl)
    as (_ & Hgo & _ & Henter & _).
  rewrite Henter. apply Hgo. discriminate.
Defined.

Lemma palette_enter_navigates_witness :
  let w := set_elements (set_paletteInput (Some " example.org ") sample_elements)
             sample_world in
  palette_keydown "Enter" w
  = (send "nav.go" (Some (VObj [("url", VStr "example.org")]));; closePalette)
      (palette_listed " example.org " w)
  /\ fst (palette_keydown "Enter" w) = Ret tt
  /\ palette_open_class (body (snd (palette_keydown "Enter" w))) = false.
Proof.
  intros w.
  exact (palette_enter_navigates w " example.org " eq_refl eq_refl ltac:(discriminate)).
Defined.

Lemma palette_index_in_range_witness :
  let events := [WindowKeydown true "k"; PaletteInputInput "go"; PaletteInputKeydown "ArrowDown";
                 PaletteInputKeydown "ArrowDown"; PaletteInputKeydown "ArrowDown";
                 PaletteInputKeydown "ArrowUp"] in
  let w := run_actions 1 (map Fire events) sample_world in
  palette_ok w
  /\ exists cmd,
       In cmd (palette_results "go")
       /\ palette_keydown "Enter" w = (run cmd;; closePalette) (palette_listed "go" w).
Proof.
  intros events w.
  destruct palette_index_in_range as (_ & _ & Hrun & Henter).
  pose proof (Hrun 1%nat events sample_elements (Some open_bridge) eq_refl) as Hok.
  split; [exact Hok | ].
  apply Henter; [exact Hok | reflexivity | discriminate].
Defined.

Lemma search_lists_every_match_witness :
  exists w',
    fire 3 (TabSearchInput " DOC ") sample_loaded = (Ret tt, w')
    /\ In 5 (flatTabs (state w'))
    /\ forest_at (heap w') (lastTabs (state w')) sample_forest.
Proof.
  destruct (search_lists_every_match 3 " DOC " sample_forest sample_loaded eq_refl
              sample_loaded_forest_at ltac:(vm_compute; lia) ltac:(discriminate))
    as (w' & Hrun & Hall & _ & _ & _ & Hat).
  exists w'. split; [exact Hrun | ]. split; [ | exact Hat].
  apply (Hall (sample_node 5 "Hidden docs" "https://docs.example/secret" None false []));
    [ | reflexivity].
  cbn. tauto.
Defined.

Lemma search_then_clear_witness :
  let searched := snd (fire 3 (TabSearchInput "doc") sample_loaded) in
  let cleared := snd (fire 3 (TabSearchInput "  ") searched) in
  let plain := snd (renderTabs 3 (lastTabs (state sample_loaded)) sample_loaded) in
  tabs (elements cleared) = tabs (elements plain)
  /\ flatTabs (state cleared) = flatTabs (state plain)
  /\ forest_at (heap cleared) (lastTabs (state cleared)) sample_forest.
Proof.
  intros searched cleared plain.
  destruct (search_then_clear 3 "doc" "  " sample_forest sample_loaded eq_refl
              sample_loaded_forest_at ltac:(vm_compute; lia) eq_refl)
    as (_ & Hrows & Hflat & _ & _ & Hat & _).
  split; [exact Hrows | ]. split; [exact Hflat | exact Hat].
Defined.

Lemma rendered_ids_agree_witness :
  let w' := snd (renderTabs 3 sample_locs sample_page) in
  (forall id, In id (flatTabs (state w')) <-> is_Some (tabMap (state w') !! id))
  /\ (forall id, has_row id (elements w') = true <-> In id (flatTabs (state w'))).
Proof.
  intros w'.
  destruct (rendered_ids_agree 3 sample_locs sample_forest sample_page sample_forest_at
              ltac:(vm_compute; lia)) as (H1 & H2 & _).
  split; [exact H1 | apply H2]. now exists [].
Defined.

Lemma tab_menu_flow_witness :
  exists w1,
    openTabMenu 2 sample_loaded = (Ret tt, w1)
    /\ menuState w1 = {| menu_open := true; menu_tabId := Some 2 |}
    /\ tabMenu_click (Some "mute") w1 = (send "tab.mute" (id_payload 2);; closeTabMenu) w1
    /\ menuState (snd (tabMenu_click (Some "mute") w1))
       = {| menu_open := false; menu_tabId := None |}.
Proof.
  destruct (tab_menu_flow sample_loaded 2 _ eq_refl) as [_ H].
  destruct (H 0%nat _ ltac:(vm_compute; reflexivity) ltac:(vm_compute; reflexivity))
    as (w1 & Hrun & Hms & _ & _ & Hmute & _ & Hclose).
  exists w1. split; [exact Hrun | ]. split; [exact Hms | ]. split; [exact Hmute | apply Hclose].
Defined.

Lemma row_context_menu_witness :
  let w' := snd (renderTabs 3 sample_locs sample_page) in
  exists w1,
    fire 1 (RowContextmenu 3) w' = (Ret tt, w1)
    /\ menuState w1 = {| menu_open := true; menu_tabId := Some 3 |}.
Proof.
  intros w'.
  destruct (row_context_menu 3 1 sample_locs sample_forest sample_page _ 3 sample_forest_at
              ltac:(vm_compute; lia) ltac:(now eexists) eq_refl
              ltac:(vm_compute; tauto))
    as (w1 & d & t & Hrun & _ & _ & _ & _ & Hms & _).
  exists w1. split; [exact Hrun | exact Hms].
Defined.

Lemma favicon_update_matches_render_witness :
  let w := snd (applyState 3 (Some {| p_tabs := sample_locs; p_active := Some 3 |})
                  sample_page) in
  let w' := snd (applyFaviconUpdate 3 (Some sample_favicon) w) in
  let again := snd (renderTabs 3 (lastTabs (state w')) w') in
  fst (applyFaviconUpdate 3 (Some sample_favicon) w) = Ret tt
  /\ tabs (elements again) = tabs (elements w')
  /\ flatTabs (state again) = flatTabs (state w').
Proof.
  apply (favicon_update_matches_render 3 {| p_tabs := sample_locs; p_active := Some 3 |}
           sample_favicon sample_forest sample_page sample_forest_at).
  - vm_compute. lia.
  - reflexivity.
  - apply (bool_decide_unpack _). vm_compute. exact I.
  - discriminate.
Defined.

Lemma sidebar_toggle_reports_state_witness :
  let w1 := snd (fire 1 SidebarToggleClick sample_world) in
  let w2 := snd (fire 1 SidebarToggleClick w1) in
  sidebarCollapsed (state w1) = true
  /\ sidebarCollapsed (state w2) = false
  /\ outbox w2 = [sidebar_message true; sidebar_message false].
Proof.
  intros w1 w2.
  destruct (sidebar_toggle_reports_state 1 sample_world open_bridge ltac:(now eexists)
              eq_refl ltac:(reflexivity))
    as (_ & H1 & _ & _ & H2 & _ & H3).
  split; [exact H1 | ]. split; [exact H2 | exact H3].
Defined.

Lemma page_load_announces_ready_witness :
  let w := set_elements
             (set_navReload (Some {| rb_textContent := "Stop"; rb_mode := "stop";
                                     rb_ariaLabel := "Stop" |}) sample_elements)
             sample_world in
  let w' := snd (fire 1 DOMContentLoaded w) in
  outbox w' = [Text (envelope "ui.ready" (VObj []))]
  /\ console w' = []
  /\ fire 1 NavReloadClick w' = send "nav.reload" None w'.
Proof.
  intros w w'.
  destruct (page_load_announces_ready 1 w) as (_ & _ & _ & Hopen & _ & _ & _ & _ & _ & Hclick).
  destruct (Hopen open_bridge eq_refl eq_refl) as [Ho Hc].
  split; [exact Ho | ]. split; [exact Hc | exact Hclick].
Defined.

Lemma runSearch_destination_witness :
  let parses := fun s : string => String.prefix "https://" s in
  let encode := fun s : string => if String.eqb s "rocq" then Some s else None in
  let home s := {| searchInput := Some s; location_href := "owl://home" |} in
  runSearch parses encode (home " owl://settings ")
  = (Ret tt, set_location_href "owl://settings" (home " owl://settings "))
  /\ runSearch parses encode (home "rocq")
     = (Ret tt, set_location_href "https://duckduckgo.com/?q=rocq" (home "rocq"))
  /\ runSearch parses encode (home "r?") = (Throw (URIError "URI malformed"), home "r?").
Proof.
  intros parses encode home. split; [ | split].
  - destruct (runSearch_destination parses encode (home " owl://settings ")
                " owl://settings " eq_refl) as (_ & H & _).
    destruct (H ltac:(discriminate)) as (Hin & _). apply Hin. right. now left.
  - destruct (runSearch_destination parses encode (home "rocq") "rocq" eq_refl)
      as (_ & H & _).
    destruct (H ltac:(discriminate)) as (_ & Hout). now apply Hout.
  - destruct (runSearch_destination parses encode (home "r?") "r?" eq_refl)
      as (_ & H & _).
    destruct (H ltac:(discriminate)) as (_ & Hout). now apply Hout.
Defined.

Lemma deriveIconText_nonempty_witness :
  deriveIconText (fun s : string => s) (fun _ : string => None) (Some "  ") (Some " owl.dev ")
  <> "".
Proof.
  exact (proj1 (deriveIconText_nonempty (fun s : string => s) (fun _ : string => None)
                  (fun s H => H) (Some "  ") (Some " owl.dev "))).
Defined.

Lemma escape_dismisses_overlays_witness :
  let w := snd (openTabMenu 2 (snd (openPalette sample_loaded))) in
  let w' := snd (fire 1 (WindowKeydown false "Escape") w) in
  (palette_open_class (body w) = true /\ menu_open (menuState w) = true)
  /\ palette_open_class (body w') = false
  /\ menu_open (menuState w') = false.
Proof.
  intros w w'. split; [split; reflexivity | ].
  destruct (escape_dismisses_overlays 1 false w) as (_ & Hp & Hm & _).
  split; [exact Hp | apply Hm]. now eexists.
Defined.
